(** * CodeHermit: review orchestration engine

    A shallow embedding of the TypeScript sources

      - [src/plugins/azure.ts]  (PR URL parsing, Azure configuration, PR lookup)
      - [src/get-diff.ts]       (repository root, ref normalisation, diff text)
      - [src/config.ts]         (root directory of the clones)
      - [src/cli.ts]            (argument parsing, target resolution, artifact names)
      - [src/review.ts]         (agent supervision: spinner, tee to file, exit code)

    JavaScript strings are sequences of UTF-16 code units; they are modelled
    as [list N].  A value of type [string | undefined] is an [option].
    Everything the program obtains from its runtime (the URL parser, the
    [path] module, the network, the file system, child processes, the
    terminal) is a field of the record [Platform]; the theorems hold for every
    platform, and a small concrete one is used to run the examples. *)

From stdpp Require Import base numbers list gmap strings.
From Stdlib Require Import Ascii DecimalString DecimalPos.

Set Default Proof Using "Type".
Open Scope Z_scope.

(** ** JavaScript strings *)

Module Js.

Abbreviation jsstring := (list N).

(** An ASCII literal of the source, as code units. *)
Definition lit (s : string) : jsstring :=
  (λ a, N_of_ascii a) <$> String.list_ascii_of_string s.

(** [string | undefined] used as a condition: [undefined] and [''] are falsy. *)
Definition truthy (v : option jsstring) : bool :=
  match v with
  | Some (_ :: _) => true
  | _ => false
  end.

(** [a || b] on [string | undefined]. *)
Definition or_else (a b : option jsstring) : option jsstring :=
  if truthy a then a else b.

(** [a ?? b]. *)
Definition nullish {A} (a b : option A) : option A :=
  match a with
  | Some _ => a
  | None => b
  end.

(** [`${v}`] for a [string | undefined]. *)
Definition render (v : option jsstring) : jsstring :=
  default (lit "undefined") v.

(** [s.startsWith(p)]. *)
Fixpoint startsWith (s p : jsstring) {struct p} : bool :=
  match p, s with
  | [], _ => true
  | c :: p', d :: s' => (c =? d)%N && startsWith s' p'
  | _ :: _, [] => false
  end.

(** [s.includes(p)]. *)
Fixpoint includes (s p : jsstring) : bool :=
  startsWith s p ||
  match s with
  | [] => false
  | _ :: s' => includes s' p
  end.

(** [s.slice(n)] for [0 <= n]. *)
Definition slice_from (n : nat) (s : jsstring) : jsstring := drop n s.

(** ECMAScript WhiteSpace and LineTerminator code points: what
    [String.prototype.trim] strips and what the regular expression class
    [\s] matches. *)
Definition isWhiteSpace (c : N) : bool :=
  ((c =? 9) || (c =? 10) || (c =? 11) || (c =? 12) || (c =? 13) || (c =? 32)
   || (c =? 160) || (c =? 5760) || ((8192 <=? c) && (c <=? 8202))
   || (c =? 8232) || (c =? 8233) || (c =? 8239) || (c =? 8287)
   || (c =? 12288) || (c =? 65279))%N.

Fixpoint trimStart (s : jsstring) : jsstring :=
  match s with
  | c :: s' => if isWhiteSpace c then trimStart s' else s
  | [] => []
  end.

Definition trimEnd (s : jsstring) : jsstring :=
  reverse (trimStart (reverse s)).

(** [s.trim()]. *)
Definition trim (s : jsstring) : jsstring := trimEnd (trimStart s).

(** [s.split(sep)] for a one-character separator: never the empty array. *)
Fixpoint split (sep : N) (s : jsstring) : list jsstring :=
  match s with
  | [] => [[]]
  | c :: s' =>
      if (c =? sep)%N then [] :: split sep s'
      else match split sep s' with
           | w :: ws => (c :: w) :: ws
           | [] => [[c]]
           end
  end.

(** [parts.filter(Boolean)] on an array of strings: drops the empty ones. *)
Definition filter_Boolean (parts : list jsstring) : list jsstring :=
  filter (λ p, p ≠ []) parts.

(** [arr.indexOf(x)]: index of the first strictly equal element, else [-1]. *)
Fixpoint indexOf_from (arr : list jsstring) (x : jsstring) (i : Z) : Z :=
  match arr with
  | [] => -1
  | y :: arr' => if decide (y = x) then i else indexOf_from arr' x (i + 1)
  end.

Definition indexOf (arr : list jsstring) (x : jsstring) : Z :=
  indexOf_from arr x 0.

(** [arr[i]]: [undefined] out of range. *)
Definition at_index {A} (arr : list A) (i : Z) : option A :=
  if decide (i < 0) then None else arr !! Z.to_nat i.

(** [arr.length]. *)
Definition len {A} (arr : list A) : Z := Z.of_nat (length arr).

(** [/^\d+$/.test(s)]. *)
Definition isDigit (c : N) : bool := ((48 <=? c) && (c <=? 57))%N.

Definition all_digits (s : jsstring) : bool :=
  match s with
  | [] => false
  | _ => forallb isDigit s
  end.

(** [`${n}`] for an integer [n] (below the magnitude where JavaScript
    switches to exponent notation). *)
Definition of_Z (n : Z) : jsstring :=
  lit (NilZero.string_of_int (Z.to_int n)).

(** A thrown exception carries its message. *)
Inductive completion (A : Type) : Type :=
| Normal (a : A)
| Throw (message : jsstring).
Global Arguments Normal {A} a.
Global Arguments Throw {A} message.

End Js.
Import Js.

(** The exception monad of a [try] block. *)
Global Instance completion_ret : MRet completion := λ A a, Normal a.
Global Instance completion_bind : MBind completion := λ A B f m,
  match m with
  | Normal a => f a
  | Throw e => Throw e
  end.

(** [try { body } catch (e) { handler(e) }]. *)
Definition try_catch {A} (body : completion A) (handler : jsstring → completion A)
  : completion A :=
  match body with
  | Normal a => Normal a
  | Throw e => handler e
  end.

(** ** The runtime *)

(** The JSON body of a pull-request lookup, at the type the source casts it to. *)
Record PrJson := {
  pullRequestId : Z;
  repository_name : jsstring;
  sourceRefName : jsstring;
  targetRefName : jsstring;
}.

(** What the source reads of a [fetch] response. *)
Record Response := {
  ok : bool;
  status : Z;
  statusText : jsstring;
  json : completion PrJson;
}.

(** The error [execSync] throws: with [encoding: 'utf-8'] its [stdout], when
    it has one, is a string. *)
Record ExecError := {
  err_stdout : option jsstring;
  err_message : jsstring;
}.

Inductive ExecResult :=
| ExecOk (stdout : jsstring)
| ExecFailed (e : ExecError).

Record Platform := {
  (** [process.env], after [.env] was loaded *)
  env : gmap string jsstring;
  (** [process.platform === 'win32'] *)
  platform_win32 : bool;
  (** [process.cwd()] *)
  process_cwd : jsstring;
  (** [new URL(s).pathname]; the constructor throws on what it cannot parse *)
  URL_pathname : jsstring → completion jsstring;
  (** [Buffer.from(s).toString('base64')] *)
  base64 : jsstring → jsstring;
  (** [await fetch(url, {headers: {Authorization}})] *)
  fetch : jsstring → jsstring → completion Response;
  (** [path.join(...parts)], [path.isAbsolute], [path.basename], [path.resolve(a, b)] *)
  path_join : list jsstring → jsstring;
  path_isAbsolute : jsstring → bool;
  path_basename : jsstring → jsstring;
  path_resolve : jsstring → jsstring → jsstring;
  (** [fs.existsSync] *)
  existsSync : jsstring → bool;
  (** [execSync(command, {cwd, encoding: 'utf-8'})] *)
  execSync : jsstring → jsstring → ExecResult;
  (** the strings of the array in [repos.json], [[]] when it cannot be read *)
  repos_json : list jsstring;
  (** the line typed in answer to the [k]-th question, [k] from 0 *)
  answers : nat → jsstring;
}.

(** ** src/plugins/azure.ts *)

Module PrDetails.
Record t := {
  repository : jsstring;
  sourceBranch : jsstring;
  targetBranch : jsstring;
  pullRequestId : Z;
}.
End PrDetails.

Module ParsedUrl.
(** The fields are array reads [pathParts[i]], which are [undefined] out of
    range. *)
Record t := {
  org : option jsstring;
  project : option jsstring;
  repository : option jsstring;
  prId : option jsstring;
}.
End ParsedUrl.

Module AzureConfig.
Record t := {
  orgUrl : option jsstring;
  project : option jsstring;
  pat : option jsstring;
}.
End AzureConfig.

Module Azure.
Section WithPlatform.
Context (P : Platform).

Definition getenv (name : string) : option jsstring := env P !! name.

Definition REFS_HEADS : jsstring := lit "refs/heads/".

Definition stripRefsHeads (ref : jsstring) : jsstring :=
  if startsWith ref REFS_HEADS then slice_from (length REFS_HEADS) ref else ref.

Definition parsePrUrl (url : jsstring) : completion (option ParsedUrl.t) :=
  let trimmed := trim url in
  if negb (includes trimmed (lit "dev.azure.com"))
     || negb (includes trimmed (lit "pullrequest"))
  then Normal None
  else
    try_catch
      (pathname ← URL_pathname P trimmed;
       let pathParts := filter_Boolean (split 47 pathname) in
       let pullRequestIdx := indexOf pathParts (lit "pullrequest") in
       if decide (pullRequestIdx = -1 ∨ pullRequestIdx >= len pathParts - 1)
       then Normal None
       else
         let prId := at_index pathParts (pullRequestIdx + 1) in
         let gitIdx := indexOf pathParts (lit "_git") in
         if decide (gitIdx = -1 ∨ gitIdx >= len pathParts - 1)
         then Normal None
         else
           let repository := at_index pathParts (gitIdx + 1) in
           if decide (len pathParts < 2) then Normal None
           else
             let org := at_index pathParts 0 in
             let project := at_index pathParts 1 in
             Normal (Some {| ParsedUrl.org := org;
                             ParsedUrl.project := project;
                             ParsedUrl.repository := repository;
                             ParsedUrl.prId := prId |}))
      (λ _, Normal None).

Definition getAzureConfig : AzureConfig.t :=
  let orgUrl := getenv "AZURE_ORG_URL" in
  let orgName := getenv "AZURE_DEVOPS_ORG" in
  let project := or_else (getenv "AZURE_PROJECT") (getenv "AZURE_DEVOPS_PROJECT") in
  let pat := or_else (getenv "AZURE_PAT") (getenv "AZURE_DEVOPS_PAT") in
  let resolvedOrgUrl :=
    or_else orgUrl
      (if truthy orgName
       then Some (lit "https://dev.azure.com/" ++ render orgName)
       else None) in
  {| AzureConfig.orgUrl := resolvedOrgUrl;
     AzureConfig.project := project;
     AzureConfig.pat := pat |}.

Definition isAzureConfigured : bool :=
  let c := getAzureConfig in
  truthy (AzureConfig.orgUrl c) && truthy (AzureConfig.project c)
  && truthy (AzureConfig.pat c).

(** [s.replace(/\/$/, '')]: one trailing slash is dropped. *)
Definition dropTrailingSlash (s : jsstring) : jsstring :=
  match reverse s with
  | 47%N :: r => reverse r
  | _ => s
  end.

Definition getPrDetails (prId : jsstring)
    (orgUrlOverride projectOverride : option jsstring)
  : completion PrDetails.t :=
  let config := getAzureConfig in
  let org := nullish orgUrlOverride (AzureConfig.orgUrl config) in
  let proj := nullish projectOverride (AzureConfig.project config) in
  let pat := AzureConfig.pat config in
  if negb (truthy org) || negb (truthy proj) || negb (truthy pat) then
    Throw (lit "Missing Azure DevOps config. Set AZURE_ORG_URL (or AZURE_DEVOPS_ORG), AZURE_PROJECT (or AZURE_DEVOPS_PROJECT), and AZURE_PAT (or AZURE_DEVOPS_PAT) in .env.")
  else
    let baseUrl := dropTrailingSlash (render org) in
    let url := baseUrl ++ lit "/" ++ render proj
               ++ lit "/_apis/git/pullrequests/" ++ prId
               ++ lit "?api-version=7.0" in
    let patTrimmed := trim (render pat) in
    let auth := base64 P (lit ":" ++ patTrimmed) in
    response ← fetch P url (lit "Basic " ++ auth);
    if negb (ok response) then
      if decide (status response = 401) then
        Throw (lit "Azure DevOps returned Unauthorized. Check that AZURE_PAT (or AZURE_DEVOPS_PAT) in .env is correct, not expired, and has at least Code (Read) scope. Create or renew a PAT at: https://dev.azure.com/_usersSettings/tokens")
      else
        Throw (lit "Failed to fetch pull request: " ++ statusText response)
    else
      data ← json response;
      Normal {| PrDetails.repository := repository_name data;
                PrDetails.sourceBranch := stripRefsHeads (sourceRefName data);
                PrDetails.targetBranch := stripRefsHeads (targetRefName data);
                PrDetails.pullRequestId := pullRequestId data |}.

End WithPlatform.
End Azure.

(** ** Console, prompts and process exit

    The sequential part of the program runs in a state and exit monad: the
    state records what was printed and the questions asked on the terminal;
    a computation ends by returning, by [process.exit] or by an uncaught
    exception. *)

Module Effects.

Inductive stream := Stdout | Stderr.

Record IO := {
  console : list (stream * jsstring);
  asked : list jsstring;
}.

Definition IO_start : IO := {| console := []; asked := [] |}.

Inductive outcome (A : Type) : Type :=
| Ret (a : A)
| Exit (code : Z)
| Raise (message : jsstring).
Global Arguments Ret {A} a.
Global Arguments Exit {A} code.
Global Arguments Raise {A} message.

Definition M (A : Type) : Type := IO → outcome A * IO.

Global Instance M_ret : MRet M := λ A a io, (Ret a, io).
Global Instance M_bind : MBind M := λ A B f m io,
  match m io with
  | (Ret a, io') => f a io'
  | (Exit c, io') => (Exit c, io')
  | (Raise e, io') => (Raise e, io')
  end.

Definition print (s : stream) (line : jsstring) : M unit := λ io,
  (Ret (), {| console := console io ++ [(s, line)]; asked := asked io |}).

Definition console_log : jsstring → M unit := print Stdout.
Definition console_error : jsstring → M unit := print Stderr.

Definition process_exit {A} (code : Z) : M A := λ io, (Exit code, io).

Definition raise {A} (message : jsstring) : M A := λ io, (Raise message, io).

(** [await] of a promise or the call of a function that may throw. *)
Definition lift {A} (c : completion A) : M A :=
  match c with
  | Normal a => mret a
  | Throw e => raise e
  end.

(** [question(rl, prompt)]: the trimmed line typed in answer. *)
Definition question (P : Platform) (prompt : jsstring) : M jsstring := λ io,
  (Ret (trim (answers P (length (asked io)))),
   {| console := console io; asked := asked io ++ [prompt] |}).

End Effects.
Import Effects.

(** ** src/get-diff.ts *)

Module GetDiff.
Section WithPlatform.
Context (P : Platform).

Definition DIFF_FILE_BASE : jsstring := lit ".codehermit-diff.txt".

(** [getRepoRoot()] as the command line calls it, without [cwd]. *)
Definition getRepoRoot : completion jsstring :=
  match execSync P (lit "git rev-parse --show-toplevel") (process_cwd P) with
  | ExecOk out => Normal (trim out)
  | ExecFailed _ =>
      Throw (lit "Not inside a git repository. Run this from your repo root.")
  end.

Definition toRef (ref : jsstring) : jsstring :=
  if startsWith ref (lit "origin/") || startsWith ref (lit "refs/") then ref
  else lit "origin/" ++ ref.

Definition getDiffContent (repoRoot baseRef headRef : jsstring)
  : completion jsstring :=
  let base := toRef baseRef in
  let head := toRef headRef in
  match execSync P (lit "git diff " ++ base ++ lit "..." ++ head) repoRoot with
  | ExecOk out => Normal out
  | ExecFailed e =>
      if truthy (err_stdout e) then Normal (render (err_stdout e))
      else Throw (lit "Failed to get diff: " ++ err_message e)
  end.

End WithPlatform.
End GetDiff.

(** ** src/config.ts *)

Module Config.
Section WithPlatform.
Context (P : Platform).

Definition getReposRoot : jsstring :=
  let root := env P !! "REPOS_ROOT"%string in
  if truthy root then render root
  else if platform_win32 P then lit "c:\code\repos"
  else path_join P [render (or_else (env P !! "HOME"%string) (Some (lit "~")));
                    lit "code"; lit "repos"].

End WithPlatform.
End Config.

(** ** src/cli.ts *)

Module Args.
Record t := {
  prIdOrUrl : option jsstring;
  base : option jsstring;
  head : option jsstring;
  repo : option jsstring;
  outputDir : option jsstring;
}.

Definition empty : t :=
  {| prIdOrUrl := None; base := None; head := None; repo := None;
     outputDir := None |}.

Definition set_prIdOrUrl (v : option jsstring) (r : t) : t :=
  {| prIdOrUrl := v; base := base r; head := head r; repo := repo r;
     outputDir := outputDir r |}.
Definition set_base (v : option jsstring) (r : t) : t :=
  {| prIdOrUrl := prIdOrUrl r; base := v; head := head r; repo := repo r;
     outputDir := outputDir r |}.
Definition set_head (v : option jsstring) (r : t) : t :=
  {| prIdOrUrl := prIdOrUrl r; base := base r; head := v; repo := repo r;
     outputDir := outputDir r |}.
Definition set_repo (v : option jsstring) (r : t) : t :=
  {| prIdOrUrl := prIdOrUrl r; base := base r; head := head r; repo := v;
     outputDir := outputDir r |}.
Definition set_outputDir (v : option jsstring) (r : t) : t :=
  {| prIdOrUrl := prIdOrUrl r; base := base r; head := head r; repo := repo r;
     outputDir := v |}.
End Args.

(** What [main] has resolved when it calls [getDiff] and [runReview]. *)
Module Plan.
Record t := {
  repoPath : jsstring;
  baseBranch : jsstring;
  headBranch : jsstring;
  prId : option Z;
  repoName : jsstring;
  outputDir : option jsstring;
  diffFileName : jsstring;
  outputFileName : jsstring;
  cwd : jsstring;
  diffWritePath : option jsstring;
  reviewOutputPath : jsstring;
}.
End Plan.

Module Cli.
Section WithPlatform.
Context (P : Platform).

Definition OUTPUT_FILE_BASE : jsstring := lit ".codehermit-output.md".

Definition is_flag (arg : jsstring) (long short : string) : bool :=
  bool_decide (arg = lit long) || bool_decide (arg = lit short).

(** The [while (i < argv.length)] loop of [parseArgs]; [argv !! i] is
    [argv[i]], [None] once [i] has left the array.  Every iteration
    advances [i], so [length argv] iterations are enough (lemma
    [parseArgs_loop_fuel]). *)
Fixpoint parseArgs_loop (fuel : nat) (argv : list jsstring) (i : nat)
    (result : Args.t) : Args.t :=
  match fuel with
  | O => result
  | S fuel =>
      match argv !! i with
      | None => result
      | Some arg =>
          if is_flag arg "--pr" "-p" then
            parseArgs_loop fuel argv (i + 2)
              (Args.set_prIdOrUrl (argv !! (i + 1)%nat) result)
          else if is_flag arg "--output-dir" "-o" then
            parseArgs_loop fuel argv (i + 2)
              (Args.set_outputDir (argv !! (i + 1)%nat) result)
          else if is_flag arg "--base" "-b" then
            parseArgs_loop fuel argv (i + 2)
              (Args.set_base (argv !! (i + 1)%nat) result)
          else if is_flag arg "--head" "-h" then
            parseArgs_loop fuel argv (i + 2)
              (Args.set_head (argv !! (i + 1)%nat) result)
          else if is_flag arg "--repo" "-r" then
            parseArgs_loop fuel argv (i + 2)
              (Args.set_repo (argv !! (i + 1)%nat) result)
          else if startsWith arg (lit "-") then
            parseArgs_loop fuel argv (i + 1) result
          else if negb (truthy (Args.prIdOrUrl result))
                  && negb (truthy (Args.base result)) then
            if all_digits arg then
              parseArgs_loop fuel argv (i + 1)
                (Args.set_prIdOrUrl (Some arg) result)
            else if includes arg (lit "dev.azure.com")
                    && includes arg (lit "pullrequest") then
              parseArgs_loop fuel argv (i + 1)
                (Args.set_prIdOrUrl (Some arg) result)
            else
              (* result.base = arg; result.head = argv[i + 1]; i += 2;
                 and then the [i++] shared by the three cases *)
              parseArgs_loop fuel argv (i + 2 + 1)
                (Args.set_head (argv !! (i + 1)%nat)
                   (Args.set_base (Some arg) result))
          else
            parseArgs_loop fuel argv (i + 1) result
      end
  end.

Definition parseArgs (argv : list jsstring) : Args.t :=
  parseArgs_loop (length argv) argv 0 Args.empty.

(** [s.replace(re, '_')] for a global regular expression that matches one
    character of a class. *)
Definition replace_class (class : N → bool) (s : jsstring) : jsstring :=
  (λ c, if class c then 95%N else c) <$> s.

(** The class [[/\\]]. *)
Definition isPathSeparator (c : N) : bool := ((c =? 47) || (c =? 92))%N.

Definition sanitizeBranchForFile (branch : jsstring) : jsstring :=
  replace_class isWhiteSpace (replace_class isPathSeparator branch).

(** [parseInt(s, 10)]: leading white space, a sign, then the longest run of
    digits; [None] is [NaN]. *)
Fixpoint digits_prefix (s : jsstring) : jsstring :=
  match s with
  | c :: s' => if isDigit c then c :: digits_prefix s' else []
  | [] => []
  end.

Definition digits_value (ds : jsstring) : Z :=
  foldl (λ acc c, 10 * acc + (Z.of_N c - 48)) 0 ds.

Definition parseInt10 (s : jsstring) : option Z :=
  let s := trimStart s in
  let '(sign, rest) :=
    match s with
    | 45%N :: r => (-1, r)
    | 43%N :: r => (1, r)
    | _ => (1, s)
    end in
  match digits_prefix rest with
  | [] => None
  | ds => Some (sign * digits_value ds)
  end.

Fixpoint print_numbered (k : Z) (repos : list jsstring) : M unit :=
  match repos with
  | [] => mret ()
  | r :: repos' =>
      console_log (lit "  " ++ of_Z (k + 1) ++ lit ". " ++ r);;
      print_numbered (k + 1) repos'
  end.

Definition promptForRepo (reposList : list jsstring) : M (option jsstring) :=
  (if decide (len reposList > 0) then
     console_log (lit "Which repository?");;
     print_numbered 0 reposList;;
     console_log (lit "  Or type a repo name (must exist under REPOS_ROOT).")
   else mret ());;
  answer ← question P (lit "Repository name or number: ");
  match parseInt10 answer with
  | Some n =>
      if decide (n >= 1 ∧ n <= len reposList)
      then mret (at_index reposList (n - 1))
      else mret (Some answer)
  | None => mret (Some answer)
  end.

Definition promptForPrIdOrUrl : M jsstring :=
  question P (lit "PR ID or full Azure PR URL (e.g. 182370 or https://dev.azure.com/.../pullrequest/182370): ").

Definition promptForBaseHead : M (jsstring * jsstring) :=
  base ← question P (lit "Base branch (e.g. main): ");
  head ← question P (lit "Head branch (PR branch): ");
  mret (render (or_else (Some base) (Some (lit "main"))),
        render (or_else (Some head) (Some (lit "")))).

(** A number used as a condition: [undefined] and [0] are falsy. *)
Definition truthy_number (n : option Z) : bool :=
  match n with
  | Some n => negb (n =? 0)
  | None => false
  end.

(** [`${n}`] for a [number | undefined]. *)
Definition render_number (n : option Z) : jsstring :=
  match n with
  | Some n => of_Z n
  | None => lit "undefined"
  end.

(** Lines 333-337 of [main]. *)
Definition diffFileName (prId : option Z) (outputDir : option jsstring)
    (baseBranch headBranch : jsstring) : jsstring :=
  if truthy_number prId then
    lit "." ++ render_number prId ++ lit ".codehermit-diff.txt"
  else if truthy outputDir then
    lit "." ++ sanitizeBranchForFile baseBranch ++ lit "_"
    ++ sanitizeBranchForFile headBranch ++ lit ".codehermit-diff.txt"
  else GetDiff.DIFF_FILE_BASE.

(** Lines 338-342 of [main]. *)
Definition outputFileName (prId : option Z) (outputDir : option jsstring)
    (baseBranch headBranch : jsstring) : jsstring :=
  if truthy_number prId then
    lit "." ++ render_number prId ++ lit ".codehermit-output.md"
  else if truthy outputDir then
    lit "." ++ sanitizeBranchForFile baseBranch ++ lit "_"
    ++ sanitizeBranchForFile headBranch ++ lit ".codehermit-output.md"
  else OUTPUT_FILE_BASE.

(** What lines 262-331 of [main] assign. *)
Record Target := {
  t_repoPath : jsstring;
  t_baseBranch : jsstring;
  t_headBranch : jsstring;
  t_prId : option Z;
  t_repoName : jsstring;
}.

(** A [string | undefined] handed to [path.join], which throws a [TypeError]
    on anything but a string. *)
Definition path_argument (v : option jsstring) : M jsstring :=
  match v with
  | Some s => mret s
  | None => raise (lit "TypeError: The path argument must be of type string. Received undefined")
  end.

(** Lines 251-260 of [main]: the arguments, completed by questions when
    neither a pull request nor a branch was given. *)
Definition main_args (argv : list jsstring) : M Args.t :=
  let args := parseArgs argv in
  args ←
    (if negb (truthy (Args.prIdOrUrl args))
        && bool_decide (Args.base args = None)
        && bool_decide (Args.head args = None)
        && Azure.isAzureConfigured P
     then
       prInput ← promptForPrIdOrUrl;
       mret (if truthy (Some prInput)
             then Args.set_prIdOrUrl (Some prInput) args
             else args)
     else mret args);
  if negb (truthy (Args.prIdOrUrl args))
     && bool_decide (Args.base args = None)
     && bool_decide (Args.head args = None)
  then
    '(base, head) ← promptForBaseHead;
    mret (Args.set_head (Some head) (Args.set_base (Some base) args))
  else mret args.

(** Lines 269-290 of [main]: a pull request, by URL or by id. *)
Definition main_pr (reposRoot : jsstring) (args : Args.t) : M Target :=
  parsed ← lift (Azure.parsePrUrl P (render (Args.prIdOrUrl args)));
  '(details, repoName) ←
    match parsed with
    | Some parsed =>
        details ← lift (Azure.getPrDetails P
                          (render (ParsedUrl.prId parsed))
                          (Some (lit "https://dev.azure.com/"
                                 ++ render (ParsedUrl.org parsed)))
                          (ParsedUrl.project parsed));
        mret (details, ParsedUrl.repository parsed)
    | None =>
        (if negb (Azure.isAzureConfigured P) then
           console_error (lit "Azure mode requires AZURE_ORG_URL, AZURE_PROJECT, AZURE_PAT in .env");;
           process_exit 1
         else mret ());;
        details ← lift (Azure.getPrDetails P (render (Args.prIdOrUrl args))
                          None None);
        mret (details, Some (PrDetails.repository details))
    end;
  let prId := PrDetails.pullRequestId details in
  let baseBranch := PrDetails.targetBranch details in
  let headBranch := PrDetails.sourceBranch details in
  repoName ← path_argument repoName;
  let repoPath := path_join P [reposRoot; repoName] in
  (if negb (existsSync P repoPath) then
     console_error (lit "Repo not found at " ++ repoPath
                    ++ lit ". Check REPOS_ROOT and repo name.");;
     process_exit 1
   else mret ());;
  mret {| t_repoPath := repoPath; t_baseBranch := baseBranch;
          t_headBranch := headBranch; t_prId := Some prId;
          t_repoName := repoName |}.

(** Lines 291-331 of [main]: two branches. *)
Definition main_direct (reposRoot : jsstring) (reposList : list jsstring)
    (args : Args.t) : M Target :=
  '(baseBranch, headBranch) ←
    match Args.base args, Args.head args with
    | Some base, Some head => mret (base, head)
    | _, _ => promptForBaseHead
    end;
  (if negb (truthy (Some headBranch)) then
     console_error (lit "Head branch is required.");;
     process_exit 1
   else mret ());;
  '(repoPath, repoName) ←
    (if truthy (Args.repo args) then
       let repo := render (Args.repo args) in
       let repoPath :=
         if path_isAbsolute P repo then repo else path_join P [reposRoot; repo] in
       mret (repoPath, path_basename P repoPath)
     else if truthy (Args.outputDir args) then
       repoName ← promptForRepo reposList;
       (if negb (truthy repoName) then
          console_error (lit "Repository name is required when using --output-dir.");;
          process_exit 1
        else mret ());;
       mret (path_join P [reposRoot; render repoName], render repoName)
     else
       match GetDiff.getRepoRoot P with
       | Normal repoPath => mret (repoPath, path_basename P repoPath)
       | Throw _ =>
           repoName ← promptForRepo reposList;
           (if negb (truthy repoName) then
              console_error (lit "Could not detect repo. Pass --repo or run from a git repo.");;
              process_exit 1
            else mret ());;
           mret (path_join P [reposRoot; render repoName], render repoName)
       end);
  (if negb (existsSync P repoPath) then
     console_error (lit "Repo not found at " ++ repoPath ++ lit ".");;
     process_exit 1
   else mret ());;
  mret {| t_repoPath := repoPath; t_baseBranch := baseBranch;
          t_headBranch := headBranch; t_prId := None;
          t_repoName := repoName |}.

(** Lines 333-359 of [main]: artifact names and locations. *)
Definition main_artifacts (outputDir : option jsstring) (t : Target)
  : M Plan.t :=
  let diffFileName :=
    diffFileName (t_prId t) outputDir (t_baseBranch t) (t_headBranch t) in
  let outputFileName :=
    outputFileName (t_prId t) outputDir (t_baseBranch t) (t_headBranch t) in
  let '(cwd, diffWritePath, reviewOutputPath) :=
    if truthy outputDir then
      let outSubdir := path_resolve P (process_cwd P) (render outputDir) in
      let repoSubdir := path_join P [outSubdir; t_repoName t] in
      (repoSubdir, Some (path_join P [repoSubdir; diffFileName]),
       path_join P [repoSubdir; outputFileName])
    else
      (t_repoPath t, None, path_join P [t_repoPath t; outputFileName]) in
  console_log (lit "Reviewing PR: " ++ t_baseBranch t ++ lit "..."
               ++ t_headBranch t ++ lit " (repo: " ++ t_repoName t ++ lit ")"
               ++ (if truthy_number (t_prId t)
                   then lit " PR #" ++ render_number (t_prId t) else [])
               ++ [10%N]);;
  mret {| Plan.repoPath := t_repoPath t;
          Plan.baseBranch := t_baseBranch t;
          Plan.headBranch := t_headBranch t;
          Plan.prId := t_prId t;
          Plan.repoName := t_repoName t;
          Plan.outputDir := outputDir;
          Plan.diffFileName := diffFileName;
          Plan.outputFileName := outputFileName;
          Plan.cwd := cwd;
          Plan.diffWritePath := diffWritePath;
          Plan.reviewOutputPath := reviewOutputPath |}.

(** [main] up to its calls of [getDiff] and [runReview], whose arguments are
    the fields of the plan.  [argv] is [process.argv.slice(2)].  The help
    text, the logo and the status report of the first three exits are not
    printed here. *)
Definition main (argv : list jsstring) : M Plan.t :=
  if bool_decide (lit "--help" ∈ argv) then process_exit 0
  else if bool_decide (lit "--version" ∈ argv) then process_exit 0
  else if bool_decide (lit "--status" ∈ argv) then process_exit 0
  else
    let reposRoot := Config.getReposRoot P in
    let reposList := repos_json P in
    args ← main_args argv;
    let outputDir := Args.outputDir args in
    target ←
      (if truthy (Args.prIdOrUrl args) then main_pr reposRoot args
       else main_direct reposRoot reposList args);
    main_artifacts outputDir target.

End WithPlatform.
End Cli.

(** ** src/review.ts: supervision of the agent process

    [runReview] opens the output file, arms the spinner, spawns the agent and
    registers four callbacks.  What happens next is driven by the events the
    runtime delivers; the callbacks are the transitions of a state machine
    whose state is the variables they share and the streams they write to. *)

Module WriteStream.
(** [fs.createWriteStream].  [end()] ends the stream at once: a second
    [end()] does nothing more and [write()] after it adds nothing to the
    file (the supervisor never does it, lemma [no_write_after_end]).  The
    descriptor is not closed by [end()]: the stream finishes and closes in
    later turns of the event loop, [close] below, which a process that has
    exited no longer takes.  [closes] counts these closes. *)
Record t := {
  ended : bool;
  chunks : list jsstring;
  end_calls : nat;
  closes : nat;
}.

Definition create : t :=
  {| ended := false; chunks := []; end_calls := 0; closes := 0 |}.

Definition write (chunk : jsstring) (f : t) : t :=
  if ended f then f
  else {| ended := false; chunks := chunks f ++ [chunk];
          end_calls := end_calls f; closes := closes f |}.

Definition end_ (f : t) : t :=
  {| ended := true; chunks := chunks f; end_calls := S (end_calls f);
     closes := closes f |}.

(** The runtime closes a stream that has ended, once. *)
Definition close (f : t) : t :=
  if ended f && (closes f =? 0)%nat then
    {| ended := true; chunks := chunks f; end_calls := end_calls f;
       closes := 1 |}
  else f.
End WriteStream.

Module Review.

Record Supervisor := {
  (** the interval of the spinner is armed *)
  spinner : bool;
  spinnerIndex : nat;
  firstChunk : bool;
  (** [child.stdout] has not emitted ['end'] *)
  child_stdout_open : bool;
  (** what was written to [process.stderr] and [process.stdout], oldest first *)
  stderr : list jsstring;
  stdout : list jsstring;
  fileStream : WriteStream.t;
  (** the code given to [process.exit], once it was called *)
  exited : option Z;
}.

Inductive event :=
| Tick
| Data (chunk : jsstring)
| End
| Error (code : option jsstring) (printed : jsstring)
| ChildExit (code : option Z).

Definition BANNER : jsstring :=
  lit "Running Cursor agent to review the diff (this may take a minute or two)..."
  ++ [10%N].

(** ['\r   \r']. *)
Definition CLEAR_LINE : jsstring := [13; 32; 32; 32; 13]%N.

(** [['|', '/', '-', '\\']]. *)
Definition spinnerFrames : list N := [124; 47; 45; 92]%N.

(** [`\r  ${frame} Working `]. *)
Definition frame_text (index : nat) : jsstring :=
  [13; 32; 32]%N
  ++ match spinnerFrames !! (index `mod` length spinnerFrames)%nat with
     | Some f => [f]
     | None => lit "undefined"
     end
  ++ lit " Working ".

(** [console.error(...parts)]: the parts separated by a space, and a newline. *)
Fixpoint join_space (parts : list jsstring) : jsstring :=
  match parts with
  | [] => []
  | [p] => p
  | p :: rest => p ++ [32%N] ++ join_space rest
  end.

Definition error_line (parts : list jsstring) : jsstring :=
  join_space parts ++ [10%N].

Section Handlers.
Context (outputPath : jsstring).

Definition set_spinner (b : bool) (s : Supervisor) : Supervisor :=
  {| spinner := b; spinnerIndex := spinnerIndex s; firstChunk := firstChunk s;
     child_stdout_open := child_stdout_open s; stderr := stderr s;
     stdout := stdout s; fileStream := fileStream s; exited := exited s |}.

(** [clearInterval(spinner)]. *)
Definition clearInterval : Supervisor → Supervisor := set_spinner false.

Definition stderr_write (text : jsstring) (s : Supervisor) : Supervisor :=
  {| spinner := spinner s; spinnerIndex := spinnerIndex s;
     firstChunk := firstChunk s; child_stdout_open := child_stdout_open s;
     stderr := stderr s ++ [text]; stdout := stdout s;
     fileStream := fileStream s; exited := exited s |}.

Definition stdout_write (chunk : jsstring) (s : Supervisor) : Supervisor :=
  {| spinner := spinner s; spinnerIndex := spinnerIndex s;
     firstChunk := firstChunk s; child_stdout_open := child_stdout_open s;
     stderr := stderr s; stdout := stdout s ++ [chunk];
     fileStream := fileStream s; exited := exited s |}.

Definition with_fileStream (f : WriteStream.t → WriteStream.t)
    (s : Supervisor) : Supervisor :=
  {| spinner := spinner s; spinnerIndex := spinnerIndex s;
     firstChunk := firstChunk s; child_stdout_open := child_stdout_open s;
     stderr := stderr s; stdout := stdout s;
     fileStream := f (fileStream s); exited := exited s |}.

Definition process_exit (code : Z) (s : Supervisor) : Supervisor :=
  {| spinner := spinner s; spinnerIndex := spinnerIndex s;
     firstChunk := firstChunk s; child_stdout_open := child_stdout_open s;
     stderr := stderr s; stdout := stdout s;
     fileStream := fileStream s; exited := Some code |}.

(** The state [runReview] leaves when it returns. *)
Definition runReview : Supervisor :=
  {| spinner := true; spinnerIndex := 0; firstChunk := true;
     child_stdout_open := true; stderr := [BANNER]; stdout := [];
     fileStream := WriteStream.create; exited := None |}.

(** The callback of [setInterval]. *)
Definition on_tick (s : Supervisor) : Supervisor :=
  let s := stderr_write (frame_text (spinnerIndex s)) s in
  {| spinner := spinner s; spinnerIndex := S (spinnerIndex s);
     firstChunk := firstChunk s; child_stdout_open := child_stdout_open s;
     stderr := stderr s; stdout := stdout s;
     fileStream := fileStream s; exited := exited s |}.

(** [child.stdout.on('data', ...)]. *)
Definition on_data (chunk : jsstring) (s : Supervisor) : Supervisor :=
  let s :=
    if firstChunk s then
      let s :=
        {| spinner := spinner s; spinnerIndex := spinnerIndex s;
           firstChunk := false; child_stdout_open := child_stdout_open s;
           stderr := stderr s; stdout := stdout s;
           fileStream := fileStream s; exited := exited s |} in
      stderr_write CLEAR_LINE (clearInterval s)
    else s in
  with_fileStream (WriteStream.write chunk) (stdout_write chunk s).

(** [child.stdout.on('end', ...)]. *)
Definition on_end (s : Supervisor) : Supervisor :=
  let s := if firstChunk s then clearInterval s else s in
  with_fileStream WriteStream.end_ (stderr_write CLEAR_LINE s).

(** [child.on('error', ...)]. *)
Definition on_error (code : option jsstring) (printed : jsstring)
    (s : Supervisor) : Supervisor :=
  let s := with_fileStream WriteStream.end_
             (stderr_write CLEAR_LINE (clearInterval s)) in
  let s :=
    if bool_decide (code = Some (lit "ENOENT")) then
      stderr_write (error_line [lit "  Or install Cursor CLI: irm 'https://cursor.com/install?win32=true' | iex"])
        (stderr_write (error_line [lit "    Then run this script again from the same terminal."])
           (stderr_write (error_line [lit "    PowerShell: $env:AGENT_PATH = (Get-Command agent).Source"])
              (stderr_write (error_line [lit "  If 'agent' works in your terminal, set AGENT_PATH to its full path, e.g.:"])
                 (stderr_write (error_line [[10%N] ++ lit "Agent CLI not found."]) s))))
    else stderr_write (error_line [printed]) s in
  process_exit 1 s.

(** [child.on('exit', ...)]. *)
Definition on_exit (code : option Z) (s : Supervisor) : Supervisor :=
  let s := with_fileStream WriteStream.end_
             (stderr_write CLEAR_LINE (clearInterval s)) in
  let s := stderr_write
             (error_line [[10%N] ++ lit "Review saved to"; outputPath]) s in
  process_exit (default 0 code) s.

(** Delivery of one event.  Nothing runs once the host has exited; a
    cleared interval does not fire; a stream that has ended emits nothing. *)
Definition deliver (s : Supervisor) (e : event) : Supervisor :=
  match exited s with
  | Some _ => s
  | None =>
      match e with
      | Tick => if spinner s then on_tick s else s
      | Data chunk => if child_stdout_open s then on_data chunk s else s
      | End =>
          if child_stdout_open s then
            on_end {| spinner := spinner s; spinnerIndex := spinnerIndex s;
                      firstChunk := firstChunk s; child_stdout_open := false;
                      stderr := stderr s; stdout := stdout s;
                      fileStream := fileStream s; exited := exited s |}
          else s
      | Error code printed => on_error code printed s
      | ChildExit code => on_exit code s
      end
  end.

Definition run (s : Supervisor) (events : list event) : Supervisor :=
  foldl deliver s events.

(** A turn of the event loop: one of the callbacks above, or the runtime
    closing the file.  A host that has exited takes no turn. *)
Inductive turn :=
| Callback (e : event)
| StreamClosed.

Definition advance (s : Supervisor) (t : turn) : Supervisor :=
  match t with
  | Callback e => deliver s e
  | StreamClosed =>
      match exited s with
      | Some _ => s
      | None => with_fileStream WriteStream.close s
      end
  end.

Definition play (s : Supervisor) (turns : list turn) : Supervisor :=
  foldl advance s turns.

End Handlers.

(** The callbacks among the turns. *)
Definition callbacks (turns : list turn) : list event :=
  omap (λ t, match t with Callback e => Some e | StreamClosed => None end) turns.

(** Two states that differ at most in the closes of the file. *)
Definition same_but_closes (s1 s2 : Supervisor) : Prop :=
  spinner s1 = spinner s2 ∧ spinnerIndex s1 = spinnerIndex s2
  ∧ firstChunk s1 = firstChunk s2
  ∧ child_stdout_open s1 = child_stdout_open s2
  ∧ stderr s1 = stderr s2 ∧ stdout s1 = stdout s2
  ∧ exited s1 = exited s2
  ∧ WriteStream.ended (fileStream s1) = WriteStream.ended (fileStream s2)
  ∧ WriteStream.chunks (fileStream s1) = WriteStream.chunks (fileStream s2)
  ∧ WriteStream.end_calls (fileStream s1) = WriteStream.end_calls (fileStream s2).

(** How often the line-clearing sequence was written to the terminal. *)
Definition clears (s : Supervisor) : nat :=
  length (filter (λ w, w = CLEAR_LINE) (stderr s)).

Definition is_data (e : event) : bool :=
  match e with Data _ => true | _ => false end.

(** The events on which an invocation ends: the output stream ends, the
    spawn fails, the agent exits. *)
Definition is_closing (e : event) : bool :=
  match e with End | Error _ _ | ChildExit _ => true | _ => false end.

Definition is_terminal (e : event) : bool :=
  match e with Error _ _ | ChildExit _ => true | _ => false end.

Definition has_exited (s : Supervisor) : bool :=
  match exited s with Some _ => true | None => false end.

(** An ending event was handled: the stream has ended or the host has exited. *)
Definition closing_seen (s : Supervisor) : Prop :=
  child_stdout_open s = false ∨ has_exited s = true.

(** What holds of every state the callbacks can reach: [end()] was called
    once by the handler of the end of the stream and once by the error or
    exit handler, and by nothing else; the file has ended once an ending
    event was handled and not before; an armed spinner means that no chunk
    has arrived, the stream is open and the host is running; the clearing
    sequence was written once for the first chunk, once for the end of the
    stream and once by the error or exit handler. *)
Definition consistent (s : Supervisor) : Prop :=
  WriteStream.end_calls (fileStream s)
  = (Nat.b2n (negb (child_stdout_open s)) + Nat.b2n (has_exited s))%nat
  ∧ WriteStream.ended (fileStream s)
    = negb (child_stdout_open s) || has_exited s
  ∧ (spinner s = true →
     firstChunk s = true ∧ child_stdout_open s = true ∧ exited s = None)
  ∧ clears s
    = (Nat.b2n (negb (firstChunk s)) + Nat.b2n (negb (child_stdout_open s))
       + Nat.b2n (has_exited s))%nat.

End Review.

(** ** A platform to run the examples on

    A POSIX machine with one clone under [/home/dev/repos] and an Azure
    DevOps organisation that knows one pull request.  The [path] functions
    follow Node's POSIX implementation.  [URL_pathname] covers [http] and
    [https] URLs with a plain host and a path that the URL parser leaves as
    it is (no dot segments, nothing to escape); it rejects every other
    string, which Node need not do.  The general theorems below hold for
    every platform; this one supplies the concrete inputs of the examples. *)

Module Demo.

Definition join_with (sep : jsstring) (parts : list jsstring) : jsstring :=
  match parts with
  | [] => []
  | p :: rest => p ++ concat ((λ q, sep ++ q) <$> rest)
  end.

(** [normalizeString] of Node's [path]: [acc] is the result so far, last
    segment first. *)
Fixpoint normalize_segments (allowAboveRoot : bool) (acc segs : list jsstring)
  : list jsstring :=
  match segs with
  | [] => reverse acc
  | seg :: segs' =>
      if bool_decide (seg = []) || bool_decide (seg = lit ".") then
        normalize_segments allowAboveRoot acc segs'
      else if bool_decide (seg = lit "..") then
        match acc with
        | top :: acc' =>
            if bool_decide (top = lit "..") then
              normalize_segments allowAboveRoot (seg :: acc) segs'
            else normalize_segments allowAboveRoot acc' segs'
        | [] =>
            if allowAboveRoot then normalize_segments allowAboveRoot [seg] segs'
            else normalize_segments allowAboveRoot [] segs'
        end
      else normalize_segments allowAboveRoot (seg :: acc) segs'
  end.

Definition isAbsolute (p : jsstring) : bool := startsWith p (lit "/").

Definition normalize (p : jsstring) : jsstring :=
  match p with
  | [] => lit "."
  | _ =>
      let absolute := isAbsolute p in
      let trailing := startsWith (reverse p) (lit "/") in
      let body :=
        join_with (lit "/")
          (normalize_segments (negb absolute) [] (split 47 p)) in
      match body with
      | [] => if absolute then lit "/" else if trailing then lit "./" else lit "."
      | _ =>
          (if absolute then lit "/" else []) ++ body
          ++ (if trailing then lit "/" else [])
      end
  end.

Definition join (parts : list jsstring) : jsstring :=
  normalize (join_with (lit "/") (filter (λ p, p ≠ []) parts)).

Definition resolve (cwd p : jsstring) : jsstring :=
  let full := if isAbsolute p then p else cwd ++ lit "/" ++ p in
  lit "/" ++ join_with (lit "/") (normalize_segments false [] (split 47 full)).

Definition basename (p : jsstring) : jsstring :=
  default [] (last (filter (λ q, q ≠ []) (split 47 p))).

(** Base64 of a string of code units below 128. *)
Definition base64_alphabet : jsstring :=
  lit "ABCDEFGHIJKLMNOPQRSTUVWXYZabcdefghijklmnopqrstuvwxyz0123456789+/".

Definition base64_digit (n : N) : N :=
  default 61%N (base64_alphabet !! N.to_nat n).

Fixpoint base64_encode (fuel : nat) (s : jsstring) : jsstring :=
  match fuel, s with
  | S fuel, a :: b :: c :: s' =>
      let n := (a * 65536 + b * 256 + c)%N in
      [base64_digit (n / 262144); base64_digit ((n / 4096) `mod` 64);
       base64_digit ((n / 64) `mod` 64); base64_digit (n `mod` 64)]%N
      ++ base64_encode fuel s'
  | _, [a; b] =>
      let n := (a * 65536 + b * 256)%N in
      [base64_digit (n / 262144); base64_digit ((n / 4096) `mod` 64);
       base64_digit ((n / 64) `mod` 64); 61]%N
  | _, [a] =>
      let n := (a * 65536)%N in
      [base64_digit (n / 262144); base64_digit ((n / 4096) `mod` 64); 61; 61]%N
  | _, _ => []
  end.

Definition to_base64 (s : jsstring) : jsstring := base64_encode (length s) s.

Definition isAlphaNum (c : N) : bool :=
  (isDigit c || ((65 <=? c) && (c <=? 90)) || ((97 <=? c) && (c <=? 122)))%N.

Definition host_char (c : N) : bool :=
  (isDigit c || ((97 <=? c) && (c <=? 122)) || (c =? 45) || (c =? 46))%N.

Definition path_char (c : N) : bool :=
  (isAlphaNum c || (c =? 47) || (c =? 45) || (c =? 46) || (c =? 95)
   || (c =? 126))%N.

Fixpoint take_until (stop : N → bool) (s : jsstring) : jsstring :=
  match s with
  | c :: s' => if stop c then [] else c :: take_until stop s'
  | [] => []
  end.

Definition parse_pathname (s : jsstring) : completion jsstring :=
  let invalid := Throw (lit "Invalid URL") in
  let after_scheme :=
    if startsWith s (lit "https://") then Some (drop 8 s)
    else if startsWith s (lit "http://") then Some (drop 7 s)
    else None in
  match after_scheme with
  | None => invalid
  | Some rest =>
      let host := take_until (λ c, (c =? 47) || (c =? 63) || (c =? 35))%N rest in
      let path :=
        take_until (λ c, (c =? 63) || (c =? 35))%N (drop (length host) rest) in
      if bool_decide (host = []) || negb (forallb host_char host)
         || negb (forallb path_char path)
         || bool_decide (lit "." ∈ split 47 path)
         || bool_decide (lit ".." ∈ split 47 path)
      then invalid
      else Normal (match path with [] => lit "/" | _ => path end)
  end.

Definition pullRequest : PrJson :=
  {| pullRequestId := 182370;
     repository_name := lit "Shop.Web";
     sourceRefName := lit "refs/heads/feature/y";
     targetRefName := lit "refs/heads/main" |}.

Definition http_get (url authorization : jsstring) : completion Response :=
  if bool_decide (authorization ≠ lit "Basic " ++ to_base64 (lit ":s3cret")) then
    Normal {| ok := false; status := 401; statusText := lit "Unauthorized";
              json := Throw (lit "Unexpected end of JSON input") |}
  else if bool_decide (url = lit "https://dev.azure.com/Contoso/Shop/_apis/git/pullrequests/182370?api-version=7.0") then
    Normal {| ok := true; status := 200; statusText := lit "OK";
              json := Normal pullRequest |}
  else
    Normal {| ok := false; status := 404; statusText := lit "Not Found";
              json := Throw (lit "Unexpected end of JSON input") |}.

Definition run_command (command cwd : jsstring) : ExecResult :=
  if bool_decide (command = lit "git rev-parse --show-toplevel") then
    if startsWith cwd (lit "/home/dev/repos/Shop.Web")
    then ExecOk (lit "/home/dev/repos/Shop.Web" ++ [10%N])
    else ExecFailed {| err_stdout := Some [];
                       err_message := lit "Command failed: git rev-parse --show-toplevel" |}
  else if bool_decide (command = lit "git diff origin/main...origin/feature/z") then
    ExecOk (lit "diff --git a/README.md b/README.md" ++ [10%N])
  else if bool_decide (command = lit "git diff origin/main...origin/huge") then
    ExecFailed {| err_stdout := Some (lit "diff --git a/big.bin b/big.bin" ++ [10%N]);
                  err_message := lit "spawnSync /bin/sh ENOBUFS" |}
  else ExecFailed {| err_stdout := Some [];
                     err_message := lit "Command failed: " ++ command |}.

Definition environment : gmap string jsstring :=
  {[ "REPOS_ROOT"%string := lit "/home/dev/repos";
     "AZURE_ORG_URL"%string := lit "https://dev.azure.com/Contoso";
     "AZURE_PROJECT"%string := lit "Shop";
     "AZURE_PAT"%string := lit "s3cret" ]}.

Definition platform (cwd : jsstring) (typed : list jsstring) : Platform :=
  {| env := environment;
     platform_win32 := false;
     process_cwd := cwd;
     URL_pathname := parse_pathname;
     base64 := to_base64;
     fetch := http_get;
     path_join := join;
     path_isAbsolute := isAbsolute;
     path_basename := basename;
     path_resolve := resolve;
     existsSync := λ p, bool_decide (p = lit "/home/dev/repos/Shop.Web")
                        || bool_decide (p = lit "/home/dev/repos/Shop.Api");
     execSync := run_command;
     repos_json := [lit "Shop.Web"; lit "Shop.Api"];
     answers := λ k, default [] (typed !! k) |}.

(** The same machine with another environment. *)
Definition with_env (e : gmap string jsstring) (P : Platform) : Platform :=
  {| env := e;
     platform_win32 := platform_win32 P;
     process_cwd := process_cwd P;
     URL_pathname := URL_pathname P;
     base64 := base64 P;
     fetch := fetch P;
     path_join := path_join P;
     path_isAbsolute := path_isAbsolute P;
     path_basename := path_basename P;
     path_resolve := path_resolve P;
     existsSync := existsSync P;
     execSync := execSync P;
     repos_json := repos_json P;
     answers := answers P |}.

Definition home : Platform := platform (lit "/home/dev") [].

End Demo.

(** ** The claims in the words of the specification

    Six statements that the code does not satisfy as they are written (each
    is refuted below at a concrete input, next to the statement that holds). *)

Module Stated.

(** The request [getPrDetails(prId, orgUrlOverride, projectOverride)] sends,
    and its answer: the settings are complete and the provider answers the
    URL built from them with the JSON [data]. *)
Definition answered (P : Platform) (prId : jsstring)
    (orgUrlOverride projectOverride : option jsstring) (data : PrJson) : Prop :=
  let config := Azure.getAzureConfig P in
  let org := nullish orgUrlOverride (AzureConfig.orgUrl config) in
  let proj := nullish projectOverride (AzureConfig.project config) in
  let pat := AzureConfig.pat config in
  let url := Azure.dropTrailingSlash (render org) ++ lit "/" ++ render proj
             ++ lit "/_apis/git/pullrequests/" ++ prId ++ lit "?api-version=7.0" in
  let authorization := lit "Basic " ++ base64 P (lit ":" ++ trim (render pat)) in
  truthy org = true ∧ truthy proj = true ∧ truthy pat = true
  ∧ ∃ response,
      fetch P url authorization = Normal response
      ∧ ok response = true
      ∧ json response = Normal data.

(** The answer of the provider to the request that [main] makes for
    [input], the pull request as it was given on the command line or typed:
    a URL that [parsePrUrl] takes apart is asked for with its own
    organisation, project and id, any other input as an id with the
    organisation and project of the settings. *)
Definition provider_answer (P : Platform) (input : jsstring) (data : PrJson)
  : Prop :=
  (Azure.parsePrUrl P input = Normal None ∧ answered P input None None data)
  ∨ (∃ parsed,
       Azure.parsePrUrl P input = Normal (Some parsed)
       ∧ answered P (render (ParsedUrl.prId parsed))
           (Some (lit "https://dev.azure.com/" ++ render (ParsedUrl.org parsed)))
           (ParsedUrl.project parsed) data).

(** C3 as written: whenever [main] has resolved a pull request, the branches
    are those of the answer of the provider and the path is that of the
    repository the answer names. *)
Definition repository_of_the_answer (P : Platform) : Prop :=
  ∀ argv io io' plan,
    Cli.main P argv io = (Ret plan, io') →
    is_Some (Plan.prId plan) →
    ∃ args io1 data,
      Cli.main_args P argv io = (Ret args, io1)
      ∧ provider_answer P (render (Args.prIdOrUrl args)) data
      ∧ Plan.baseBranch plan = Azure.stripRefsHeads (targetRefName data)
      ∧ Plan.headBranch plan = Azure.stripRefsHeads (sourceRefName data)
      ∧ Plan.repoPath plan
        = path_join P [Config.getReposRoot P; repository_name data].

(** C3, amended: the repository is the one the answer names when an id was
    given, and the repository segment of the URL when a URL was given. *)
Definition pr_resolved (P : Platform) (input : jsstring) (plan : Plan.t) : Prop :=
  ∃ data,
    provider_answer P input data
    ∧ Plan.baseBranch plan = Azure.stripRefsHeads (targetRefName data)
    ∧ Plan.headBranch plan = Azure.stripRefsHeads (sourceRefName data)
    ∧ Plan.prId plan = Some (pullRequestId data)
    ∧ Plan.repoPath plan
      = path_join P [Config.getReposRoot P; Plan.repoName plan]
    ∧ match Azure.parsePrUrl P input with
      | Normal (Some parsed) =>
          ParsedUrl.repository parsed = Some (Plan.repoName plan)
      | _ => Plan.repoName plan = repository_name data
      end.

(** C5 as written: an invocation that is over has closed the output file,
    once. *)
Definition closed_on_every_exit_path : Prop :=
  ∀ (outputPath : jsstring) (turns : list Review.turn),
    is_Some (Review.exited (Review.play outputPath Review.runReview turns)) →
    WriteStream.closes
      (Review.fileStream (Review.play outputPath Review.runReview turns))
    = 1%nat.

Definition parsed (o p r i : jsstring) : ParsedUrl.t :=
  {| ParsedUrl.org := Some o; ParsedUrl.project := Some p;
     ParsedUrl.repository := Some r; ParsedUrl.prId := Some i |}.

(** The path of the URL is [/<org>/<project>/_git/<repository>/pullrequest/<id>]. *)
Definition fixed_shape (P : Platform) (url o p r i : jsstring) : Prop :=
  ∃ pathname,
    URL_pathname P (trim url) = Normal pathname
    ∧ filter_Boolean (split 47 pathname)
      = [o; p; lit "_git"; r; lit "pullrequest"; i].

(** C1 as written: the four segments for a string of that shape, [null] for
    every other string. *)
Definition parsePrUrl_by_shape (P : Platform) : Prop :=
  ∀ url,
    (∀ o p r i, fixed_shape P url o p r i →
                Azure.parsePrUrl P url = Normal (Some (parsed o p r i)))
    ∧ ((¬ ∃ o p r i, fixed_shape P url o p r i) →
       Azure.parsePrUrl P url = Normal None).

(** C10 as written: of two variables that are both set, the first wins. *)
Definition first_variant_wins (P : Platform) : Prop :=
  (∀ u n, env P !! "AZURE_ORG_URL"%string = Some u →
          env P !! "AZURE_DEVOPS_ORG"%string = Some n →
          AzureConfig.orgUrl (Azure.getAzureConfig P) = Some u)
  ∧ (∀ a b, env P !! "AZURE_PROJECT"%string = Some a →
            env P !! "AZURE_DEVOPS_PROJECT"%string = Some b →
            AzureConfig.project (Azure.getAzureConfig P) = Some a)
  ∧ (∀ a b, env P !! "AZURE_PAT"%string = Some a →
            env P !! "AZURE_DEVOPS_PAT"%string = Some b →
            AzureConfig.pat (Azure.getAzureConfig P) = Some a).

(** C2 as written: a pull-request id that is present is embedded in both
    names. *)
Definition present_prId_is_embedded : Prop :=
  ∀ (n : Z) (outputDir : option jsstring) (base head : jsstring),
    includes (Cli.diffFileName (Some n) outputDir base head)
             (lit "." ++ of_Z n ++ lit ".") = true
    ∧ includes (Cli.outputFileName (Some n) outputDir base head)
               (lit "." ++ of_Z n ++ lit ".") = true.

(** C4 as written: in an invocation that produces output, the line of the
    spinner is cleared once. *)
Definition cleared_exactly_once : Prop :=
  ∀ (outputPath : jsstring) (events : list Review.event),
    existsb Review.is_data events = true →
    Review.clears (Review.run outputPath Review.runReview events) = 1%nat.

End Stated.

(** ** The rest of the start-up code

    What [review.ts] does before the agent runs ([loadEnv],
    [getAgentSpawnOptions], the prompt sent to the agent) and what
    [get-diff.ts] does around [getDiffContent] ([fetchBranch], [getDiff],
    [mainFromArgv], the script). *)

Module JsText.

(** A string of ASCII code units as a key of [process.env]. *)
Definition to_key (s : jsstring) : string :=
  String.string_of_list_ascii ((λ c, ascii_of_N c) <$> s).

(** [s.endsWith(suffix)]. *)
Definition endsWith (s suffix : jsstring) : bool :=
  startsWith (reverse s) (reverse suffix).

(** The characters that [.] does not match in a regular expression without
    the [s] flag. *)
Definition isLineTerminator (c : N) : bool :=
  ((c =? 10) || (c =? 13) || (c =? 8232) || (c =? 8233))%N.

(** The double and the single quote. *)
Definition isQuote (c : N) : bool := ((c =? 34) || (c =? 39))%N.

(** The string before and the string after the first [sep]. *)
Fixpoint break_at (sep : N) (s : jsstring) : option (jsstring * jsstring) :=
  match s with
  | [] => None
  | c :: s' =>
      if (c =? sep)%N then Some ([], s')
      else match break_at sep s' with
           | Some (before, after) => Some (c :: before, after)
           | None => None
           end
  end.

(** GetSubstitution of [String.prototype.replace] for a pattern without
    capture groups: [$$] is a dollar, [$&] the matched text, [$`] the text
    before the match, [$'] the text after it; any other dollar stays. *)
Fixpoint substitute (matched before after template : jsstring) : jsstring :=
  match template with
  | 36%N :: ((c :: rest) as tail) =>
      if (c =? 36)%N then 36%N :: substitute matched before after rest
      else if (c =? 38)%N then matched ++ substitute matched before after rest
      else if (c =? 96)%N then before ++ substitute matched before after rest
      else if (c =? 39)%N then after ++ substitute matched before after rest
      else 36%N :: substitute matched before after tail
  | c :: rest => c :: substitute matched before after rest
  | [] => []
  end.

(** [s.replace(/needle/g, template)] for a literal, non-empty [needle]:
    [before] is the part of the string already passed, [skip] the number of
    characters of a match still to be stepped over. *)
Fixpoint replace_from (needle template before : jsstring) (skip : nat)
    (s : jsstring) : jsstring :=
  match s with
  | [] => []
  | c :: s' =>
      match skip with
      | S skip' => replace_from needle template (before ++ [c]) skip' s'
      | O =>
          if startsWith s needle then
            substitute needle before (drop (length needle) s) template
            ++ replace_from needle template (before ++ [c])
                 (length needle - 1) s'
          else c :: replace_from needle template (before ++ [c]) 0 s'
      end
  end.

Definition replaceAll (needle template s : jsstring) : jsstring :=
  replace_from needle template [] 0 s.

(** [parts.join(sep)]. *)
Definition join_by (sep : jsstring) (parts : list jsstring) : jsstring :=
  match parts with
  | [] => []
  | p :: rest => p ++ concat ((λ q, sep ++ q) <$> rest)
  end.

End JsText.
Import JsText.

(** What [fs.readFileSync(path, 'utf-8')] gives: the text, or an error with
    its [code] (when it has one) and its message. *)
Inductive ReadResult :=
| ReadOk (content : jsstring)
| ReadFailed (code : option jsstring) (message : jsstring).

(** ** src/review.ts, before the agent runs *)

Module Launch.

(** [[A-Za-z_]] and [[A-Za-z0-9_]]. *)
Definition isKeyStart (c : N) : bool :=
  (((65 <=? c) && (c <=? 90)) || ((97 <=? c) && (c <=? 122)) || (c =? 95))%N.

Definition isKeyChar (c : N) : bool := isKeyStart c || isDigit c.

Definition isKey (k : jsstring) : bool :=
  match k with
  | c :: k' => isKeyStart c && forallb isKeyChar k'
  | [] => false
  end.

(** [trimmed.match(re)] for the assignment pattern, a key of letters,
    digits and underscores not starting with a digit, [=], and the rest of
    the line ([.] repeated up to the end of the string): the two groups.  The
    key ends at the first [=], which no key character is; the value is the
    rest of the line and holds no line terminator. *)
Definition match_assignment (trimmed : jsstring) : option (jsstring * jsstring) :=
  match break_at 61 trimmed with
  | Some (key, value) =>
      if isKey key && negb (existsb isLineTerminator value)
      then Some (key, value)
      else None
  | None => None
  end.

(** [value.replace(re, '')] where the global [re] matches a double or single
    quote at the start of the string or at its end: a quote at the start
    goes, and a quote at the end of what is left goes. *)
Definition stripQuotes (value : jsstring) : jsstring :=
  let rest :=
    match value with
    | c :: v => if isQuote c then v else value
    | [] => []
    end in
  match reverse rest with
  | c :: r => if isQuote c then reverse r else rest
  | [] => rest
  end.

(** The body of the loop of [loadEnv] for one line of the file. *)
Definition loadEnv_line (env : gmap string jsstring) (line : jsstring)
  : gmap string jsstring :=
  let trimmed := trim line in
  if negb (truthy (Some trimmed)) || startsWith trimmed (lit "#") then env
  else
    match match_assignment trimmed with
    | Some (key, value) => <[to_key key := trim (stripQuotes value)]> env
    | None => env
    end.

(** The loop of [loadEnv] over [content.split('\n')]. *)
Definition loadEnv_content (content : jsstring) (env : gmap string jsstring)
  : gmap string jsstring :=
  foldl loadEnv_line env (split 10 content).

(** [loadEnv(configDir)], given what reading [<configDir>/.env] gives: the
    new [process.env]. *)
Definition loadEnv (file : ReadResult) (env : gmap string jsstring)
  : M (gmap string jsstring) :=
  match file with
  | ReadOk content => mret (loadEnv_content content env)
  | ReadFailed code message =>
      match code with
      | Some code =>
          if bool_decide (code ≠ lit "ENOENT") then
            console_error (lit "Warning: could not load .env: " ++ message);;
            mret env
          else mret env
      | None => mret env
      end
  end.

Section WithPlatform.
(** [String.prototype.toLowerCase] is taken from the runtime. *)
Context (toLowerCase : jsstring → jsstring).
Context (P : Platform).

Definition getAgentSpawnOptions : jsstring * list jsstring :=
  let explicit :=
    or_else (env P !! "AGENT_PATH"%string) (env P !! "CURSOR_AGENT_PATH"%string) in
  let agentPath := render (or_else explicit (Some (lit "agent"))) in
  let lower := toLowerCase agentPath in
  if endsWith lower (lit ".ps1") then
    (lit "powershell",
     [lit "-NoProfile"; lit "-ExecutionPolicy"; lit "Bypass"; lit "-File";
      agentPath])
  else (agentPath, []).

(** The prompt [runReview] sends: the template with every
    [.codehermit-diff.txt] replaced by the name of the diff file. *)
Definition runReview_prompt (promptTemplate diffFileName : jsstring) : jsstring :=
  replaceAll (lit ".codehermit-diff.txt") diffFileName promptTemplate.

End WithPlatform.
End Launch.

(** ** src/get-diff.ts, around [getDiffContent]

    These functions print and call the file system; they run in a monad of
    their own whose state records what was printed and which calls were
    made, in order.  A call is recorded when it is made, whether it returns
    or throws: what a call that throws has done to the disk by then
    ([writeFileSync] may have created or emptied the file, a recursive
    [mkdirSync] may have created some of the directories) is not modelled. *)

Module Disk.

(** A call of [fs.mkdirSync(path, { recursive: true })] or of
    [fs.writeFileSync(path, content, 'utf-8')]. *)
Inductive operation :=
| MkdirP (path : jsstring)
| Write (path content : jsstring).

Record state := {
  printed : list (stream * jsstring);
  operations : list operation;
}.

Definition start : state := {| printed := []; operations := [] |}.

Definition D (A : Type) : Type := state → outcome A * state.

Global Instance D_ret : MRet D := λ A a st, (Ret a, st).
Global Instance D_bind : MBind D := λ A B f m st,
  match m st with
  | (Ret a, st') => f a st'
  | (Exit c, st') => (Exit c, st')
  | (Raise e, st') => (Raise e, st')
  end.

Definition say (s : stream) (line : jsstring) : D unit := λ st,
  (Ret (), {| printed := printed st ++ [(s, line)];
              operations := operations st |}).

(** Records that a call is made. *)
Definition did (op : operation) : D unit := λ st,
  (Ret (), {| printed := printed st; operations := operations st ++ [op] |}).

Definition exit {A} (code : Z) : D A := λ st, (Exit code, st).

Definition throw {A} (message : jsstring) : D A := λ st, (Raise message, st).

Definition call {A} (c : completion A) : D A :=
  match c with
  | Normal a => mret a
  | Throw e => throw e
  end.

End Disk.

Module GetDiffResult.
Record t := {
  diffPath : jsstring;
  repoRoot : jsstring;
  baseBranch : jsstring;
  headBranch : jsstring;
  diffLength : Z;
  diffContent : jsstring;
}.
End GetDiffResult.

Module GetDiffFiles.
Import Disk.
Section WithPlatform.
Context (P : Platform).
(** [path.dirname], [fs.mkdirSync(dir, {recursive: true})] and
    [fs.writeFileSync(path, text, 'utf-8')]; the last two may throw. *)
Context (path_dirname : jsstring → jsstring).
Context (mkdirSync : jsstring → completion unit).
Context (writeFileSync : jsstring → jsstring → completion unit).

Definition DEFAULT_BASE : jsstring := lit "main".

Definition fetchBranch (repoRoot branch : jsstring) : D unit :=
  match execSync P (lit "git fetch origin " ++ branch) repoRoot with
  | ExecOk _ => mret ()
  | ExecFailed _ =>
      say Stderr (lit "Warning: could not fetch origin/" ++ branch
                  ++ lit ". Using local refs.")
  end.

Definition getDiff (repoRoot baseBranch headBranch : jsstring)
    (diffFileName writePath : option jsstring) : D GetDiffResult.t :=
  let fileName := default GetDiff.DIFF_FILE_BASE diffFileName in
  fetchBranch repoRoot baseBranch;;
  fetchBranch repoRoot headBranch;;
  diff ← call (GetDiff.getDiffContent P repoRoot baseBranch headBranch);
  let diffPath := default (path_join P [repoRoot; fileName]) writePath in
  did (MkdirP (path_dirname diffPath));;
  call (mkdirSync (path_dirname diffPath));;
  did (Write diffPath diff);;
  call (writeFileSync diffPath diff);;
  say Stdout (lit "Diff written to " ++ diffPath ++ lit " ("
              ++ of_Z (len diff) ++ lit " chars)");;
  mret {| GetDiffResult.diffPath := diffPath;
          GetDiffResult.repoRoot := repoRoot;
          GetDiffResult.baseBranch := baseBranch;
          GetDiffResult.headBranch := headBranch;
          GetDiffResult.diffLength := len diff;
          GetDiffResult.diffContent := diff |}.

(** [mainFromArgv()]; [args] is [process.argv.slice(2)]. *)
Definition mainFromArgv (args : list jsstring) : D GetDiffResult.t :=
  let baseBranch := render (or_else (args !! 0%nat) (Some DEFAULT_BASE)) in
  let headBranch := args !! 1%nat in
  let headBranch :=
    if negb (truthy headBranch) then
      match execSync P (lit "git branch --show-current") (process_cwd P) with
      | ExecOk out => Some (trim out)
      | ExecFailed _ => headBranch
      end
    else headBranch in
  (if negb (truthy headBranch) then
     say Stderr (lit "Could not detect current branch. Pass base and head explicitly.");;
     exit 1
   else mret ());;
  repoRoot ← call (GetDiff.getRepoRoot P);
  getDiff repoRoot baseBranch (render headBranch) None None.

(** The script run on its own: an exception is printed and the exit code
    is 1. *)
Definition script (args : list jsstring) : D GetDiffResult.t := λ st,
  match mainFromArgv args st with
  | (Raise message, st') => (say Stderr message;; exit 1) st'
  | r => r
  end.

End WithPlatform.
End GetDiffFiles.

(** What the output stream of the agent hands over before an ending event:
    the chunks of the [Data] events up to the first [End], [Error] or
    [ChildExit]. *)
Module Trace.

Fixpoint delivered (events : list Review.event) : list jsstring :=
  match events with
  | Review.Data chunk :: events' => chunk :: delivered events'
  | Review.Tick :: events' => delivered events'
  | _ => []
  end.

End Trace.

(** Shapes of command-line tokens, to state what [parseArgs] does with them. *)
Module Token.

(** A token that is no option and does not look like a pull request: what
    [parseArgs] takes for a base branch when none was given yet. *)
Definition branch_like (arg : jsstring) : bool :=
  negb (startsWith arg (lit "-"))
  && negb (all_digits arg)
  && negb (includes arg (lit "dev.azure.com") && includes arg (lit "pullrequest")).

(** A token that [parseArgs] takes for a pull request. *)
Definition pr_like (arg : jsstring) : bool :=
  negb (startsWith arg (lit "-"))
  && (all_digits arg
      || (includes arg (lit "dev.azure.com") && includes arg (lit "pullrequest"))).

Definition positional (arg : jsstring) : bool := negb (startsWith arg (lit "-")).

End Token.

(** More of the platform for the examples: lower case of ASCII letters and a
    disk on which one directory is read-only. *)
Module DemoFiles.

Definition lowerAscii (s : jsstring) : jsstring :=
  (λ c, if ((65 <=? c) && (c <=? 90))%N then (c + 32)%N else c) <$> s.

Definition dirname (p : jsstring) : jsstring :=
  match reverse (filter (λ q, q ≠ []) (split 47 p)) with
  | _ :: (_ :: _) as dirs =>
      (if Demo.isAbsolute p then lit "/" else [])
      ++ Demo.join_with (lit "/") (reverse dirs)
  | _ => if Demo.isAbsolute p then lit "/" else lit "."
  end.

Definition mkdir (dir : jsstring) : completion unit :=
  if startsWith dir (lit "/readonly") then
    Throw (lit "EACCES: permission denied, mkdir")
  else Normal ().

Definition write (path content : jsstring) : completion unit :=
  if startsWith path (lit "/readonly") then
    Throw (lit "EACCES: permission denied, open")
  else Normal ().

End DemoFiles.

(** * Properties *)

(** ** JavaScript strings *)

Section JsFacts.

Lemma startsWith_app (p s : jsstring) : startsWith (p ++ s) p = true.
Proof.
  induction p as [|c p IH]; simpl; [done|].
  by rewrite N.eqb_refl, IH.
Qed.

Lemma startsWith_inv (s p : jsstring) :
  startsWith s p = true → s = p ++ drop (length p) s.
Proof.
  revert s; induction p as [|c p IH]; intros [|d s]; simpl; try done.
  intros [Hc Hs]%andb_prop. apply N.eqb_eq in Hc as ->.
  f_equal. by apply IH.
Qed.

Lemma indexOf_from_bounds (arr : list jsstring) (x : jsstring) (i : Z) :
  indexOf_from arr x i = -1 ∨ i ≤ indexOf_from arr x i < i + len arr.
Proof.
  revert i; induction arr as [|y arr IH]; intros i; simpl; [by left|].
  unfold len in *; simpl length. case_decide; [right; lia|].
  destruct (IH (i + 1)) as [->|?]; [by left|right; lia].
Qed.

Lemma indexOf_from_absent (arr : list jsstring) (x : jsstring) (i : Z) :
  x ∉ arr → indexOf_from arr x i = -1.
Proof.
  revert i; induction arr as [|y arr IH]; intros i Hx; simpl; [done|].
  apply not_elem_of_cons in Hx as [? ?]. case_decide; [congruence|by apply IH].
Qed.

Lemma at_index_in_range {A} (arr : list A) (i : Z) :
  0 ≤ i < len arr → is_Some (at_index arr i).
Proof.
  intros [? Hi]. unfold at_index, len in *. case_decide; [lia|].
  apply lookup_lt_is_Some. lia.
Qed.

Lemma truthy_Some (v : option jsstring) :
  truthy v = true ↔ ∃ s, v = Some s ∧ s ≠ [].
Proof.
  destruct v as [[|c s]|]; simpl; split; try done.
  - intros (s & [= <-] & ?). done.
  - eauto.
  - intros (s & ? & ?). done.
Qed.

Lemma truthy_render (v : option jsstring) :
  truthy v = true → v = Some (render v).
Proof. by destruct v as [[|c s]|]. Qed.

End JsFacts.

(** ** azure.ts *)

Section AzureFacts.
Context (P : Platform).

Lemma stripRefsHeads_prefix (name : jsstring) :
  Azure.stripRefsHeads (lit "refs/heads/" ++ name) = name.
Proof.
  unfold Azure.stripRefsHeads, Azure.REFS_HEADS.
  by rewrite startsWith_app.
Qed.

Lemma stripRefsHeads_other (ref : jsstring) :
  startsWith ref (lit "refs/heads/") = false → Azure.stripRefsHeads ref = ref.
Proof. unfold Azure.stripRefsHeads, Azure.REFS_HEADS. by intros ->. Qed.

(** [parsePrUrl] has no exceptional exit: whatever the URL constructor does,
    the function returns. *)
Lemma parsePrUrl_returns (url : jsstring) :
  ∃ r, Azure.parsePrUrl P url = Normal r.
Proof.
  unfold Azure.parsePrUrl.
  destruct (_ || _); [by eexists|].
  destruct (URL_pathname P (trim url)) as [pathname|e]; simpl; [|by eexists].
  repeat case_decide; by eexists.
Qed.

(** A record that [parsePrUrl] returns has its four fields defined. *)
Lemma parsePrUrl_fields_defined (url : jsstring) (x : ParsedUrl.t) :
  Azure.parsePrUrl P url = Normal (Some x) →
  is_Some (ParsedUrl.org x) ∧ is_Some (ParsedUrl.project x)
  ∧ is_Some (ParsedUrl.repository x) ∧ is_Some (ParsedUrl.prId x).
Proof.
  unfold Azure.parsePrUrl.
  destruct (_ || _); [done|].
  destruct (URL_pathname P (trim url)) as [pathname|e]; simpl; [|done].
  set (parts := filter_Boolean (split 47 pathname)).
  pose proof (indexOf_from_bounds parts (lit "pullrequest") 0) as Hp.
  pose proof (indexOf_from_bounds parts (lit "_git") 0) as Hg.
  fold (indexOf parts (lit "pullrequest")) in Hp.
  fold (indexOf parts (lit "_git")) in Hg.
  repeat case_decide; try done.
  intros [= <-]; simpl.
  repeat split; apply at_index_in_range; lia.
Qed.

End AzureFacts.

Section ParsePrUrl.
Context (P : Platform).

Lemma indexOf_from_first (pre post : list jsstring) (x : jsstring) (i : Z) :
  x ∉ pre → indexOf_from (pre ++ x :: post) x i = i + len pre.
Proof.
  revert i; induction pre as [|y pre IH]; intros i Hx; simpl.
  - rewrite decide_True by done. unfold len; simpl; lia.
  - apply not_elem_of_cons in Hx as [? ?].
    rewrite decide_False by congruence. rewrite IH by done.
    unfold len; simpl length; lia.
Qed.

Lemma parsePrUrl_unmarked (url : jsstring) :
  includes (trim url) (lit "dev.azure.com") = false
  ∨ includes (trim url) (lit "pullrequest") = false →
  Azure.parsePrUrl P url = Normal None.
Proof.
  unfold Azure.parsePrUrl. by intros [-> | ->]; rewrite ?orb_true_r.
Qed.

Lemma parsePrUrl_unparsable (url e : jsstring) :
  URL_pathname P (trim url) = Throw e → Azure.parsePrUrl P url = Normal None.
Proof.
  unfold Azure.parsePrUrl. intros ->. by destruct (_ || _).
Qed.

Lemma parsePrUrl_no_marker_segment (url pathname : jsstring) :
  URL_pathname P (trim url) = Normal pathname →
  lit "pullrequest" ∉ filter_Boolean (split 47 pathname)
  ∨ lit "_git" ∉ filter_Boolean (split 47 pathname) →
  Azure.parsePrUrl P url = Normal None.
Proof.
  unfold Azure.parsePrUrl. intros -> Hno.
  destruct (_ || _); [done|]. simpl.
  unfold indexOf.
  destruct Hno as [Hno|Hno]; rewrite (indexOf_from_absent _ _ 0 Hno).
  - by rewrite decide_True by (by left).
  - case_decide; [done|]. by rewrite decide_True by (by left).
Qed.

Lemma parsePrUrl_marker_last (url pathname : jsstring) (pre : list jsstring)
    (marker : jsstring) :
  URL_pathname P (trim url) = Normal pathname →
  marker = lit "pullrequest" ∨ marker = lit "_git" →
  filter_Boolean (split 47 pathname) = pre ++ [marker] →
  marker ∉ pre →
  Azure.parsePrUrl P url = Normal None.
Proof.
  unfold Azure.parsePrUrl. intros -> Hm Hparts Hpre.
  destruct (_ || _); [done|]. simpl. rewrite Hparts.
  assert (Hidx : indexOf (pre ++ [marker]) marker >= len (pre ++ [marker]) - 1).
  { unfold indexOf. rewrite indexOf_from_first by done.
    unfold len. rewrite length_app. simpl. lia. }
  destruct Hm as [-> | ->].
  - by rewrite decide_True by (by right).
  - case_decide; [done|]. by rewrite decide_True by (by right).
Qed.

Lemma parsePrUrl_segments (url pathname o p r i : jsstring)
    (rest : list jsstring) :
  includes (trim url) (lit "dev.azure.com") = true →
  includes (trim url) (lit "pullrequest") = true →
  URL_pathname P (trim url) = Normal pathname →
  filter_Boolean (split 47 pathname)
  = o :: p :: lit "_git" :: r :: lit "pullrequest" :: i :: rest →
  o ≠ lit "pullrequest" → o ≠ lit "_git" →
  p ≠ lit "pullrequest" → p ≠ lit "_git" →
  r ≠ lit "pullrequest" →
  Azure.parsePrUrl P url = Normal (Some (Stated.parsed o p r i)).
Proof.
  intros Hd Hp Hpath Hparts Ho1 Ho2 Hp1 Hp2 Hr.
  unfold Azure.parsePrUrl. rewrite Hd, Hp, Hpath. simpl. rewrite Hparts.
  assert (Hpi : indexOf (o :: p :: lit "_git" :: r :: lit "pullrequest" :: i :: rest)
                  (lit "pullrequest") = 4).
  { unfold indexOf.
    change (indexOf_from (([o; p; lit "_git"; r]) ++ lit "pullrequest" :: i :: rest)
              (lit "pullrequest") 0 = 4).
    rewrite indexOf_from_first; [done|].
    rewrite !not_elem_of_cons. repeat split; try done. apply not_elem_of_nil. }
  assert (Hgi : indexOf (o :: p :: lit "_git" :: r :: lit "pullrequest" :: i :: rest)
                  (lit "_git") = 2).
  { unfold indexOf.
    change (indexOf_from (([o; p]) ++ lit "_git" :: r :: lit "pullrequest" :: i :: rest)
              (lit "_git") 0 = 2).
    rewrite indexOf_from_first; [done|].
    rewrite !not_elem_of_cons. repeat split; try done. apply not_elem_of_nil. }
  rewrite Hpi, Hgi. unfold len. simpl length.
  rewrite decide_False by lia. rewrite decide_False by lia.
  rewrite decide_False by lia. done.
Qed.

End ParsePrUrl.

(** C1, amended.  [parsePrUrl] looks for two marker segments instead of
    matching a shape.  It returns the four segments whenever the trimmed
    string contains [dev.azure.com] and [pullrequest], parses as a URL and
    has the path

      [/<org>/<project>/_git/<repository>/pullrequest/<id>/...]

    with [org] and [project] different from both markers and [repository]
    different from [pullrequest].  It returns [null] when one of the two
    substrings is missing, when the URL constructor throws, when no path
    segment is [pullrequest] or none is [_git], and when the first such
    segment is the last one of the path.  It never throws. *)
Theorem parsePrUrl_by_markers (P : Platform) (url : jsstring) :
  (∀ pathname o p r i rest,
     includes (trim url) (lit "dev.azure.com") = true →
     includes (trim url) (lit "pullrequest") = true →
     URL_pathname P (trim url) = Normal pathname →
     filter_Boolean (split 47 pathname)
     = o :: p :: lit "_git" :: r :: lit "pullrequest" :: i :: rest →
     o ≠ lit "pullrequest" → o ≠ lit "_git" →
     p ≠ lit "pullrequest" → p ≠ lit "_git" →
     r ≠ lit "pullrequest" →
     Azure.parsePrUrl P url = Normal (Some (Stated.parsed o p r i)))
  ∧ (includes (trim url) (lit "dev.azure.com") = false
     ∨ includes (trim url) (lit "pullrequest") = false →
     Azure.parsePrUrl P url = Normal None)
  ∧ (∀ e, URL_pathname P (trim url) = Throw e →
          Azure.parsePrUrl P url = Normal None)
  ∧ (∀ pathname,
       URL_pathname P (trim url) = Normal pathname →
       lit "pullrequest" ∉ filter_Boolean (split 47 pathname)
       ∨ lit "_git" ∉ filter_Boolean (split 47 pathname) →
       Azure.parsePrUrl P url = Normal None)
  ∧ (∀ pathname pre marker,
       URL_pathname P (trim url) = Normal pathname →
       marker = lit "pullrequest" ∨ marker = lit "_git" →
       filter_Boolean (split 47 pathname) = pre ++ [marker] →
       marker ∉ pre →
       Azure.parsePrUrl P url = Normal None)
  ∧ (∃ result, Azure.parsePrUrl P url = Normal result).
Proof.
  split_and!.
  - intros. by eapply parsePrUrl_segments.
  - apply parsePrUrl_unmarked.
  - apply parsePrUrl_unparsable.
  - apply parsePrUrl_no_marker_segment.
  - intros. by eapply parsePrUrl_marker_last.
  - apply parsePrUrl_returns.
Qed.

Lemma parsePrUrl_by_markers_witness :
  Azure.parsePrUrl Demo.home
    (lit "  https://dev.azure.com/Contoso/Shop/_git/Shop.Web/pullrequest/182370 ")
  = Normal (Some (Stated.parsed (lit "Contoso") (lit "Shop") (lit "Shop.Web")
                    (lit "182370")))
  ∧ Azure.parsePrUrl Demo.home (lit "https://example.org/review/182370")
    = Normal None.
Proof.
  split.
  - refine (proj1 (parsePrUrl_by_markers Demo.home _)
              (lit "/Contoso/Shop/_git/Shop.Web/pullrequest/182370")
              _ _ _ _ [] _ _ _ _ _ _ _ _ _);
      vm_compute; congruence.
  - refine (proj1 (proj2 (parsePrUrl_by_markers Demo.home _)) _).
    left. vm_compute. reflexivity.
Defined.

(** C1 as written does not hold: a URL whose path lacks the project segment
    is not of the fixed shape, and is accepted all the same, with [_git] as
    the project. *)
Lemma parsePrUrl_by_shape_fails : ¬ Stated.parsePrUrl_by_shape Demo.home.
Proof.
  intros H.
  destruct (H (lit "https://dev.azure.com/Org/_git/Repo/pullrequest/12"))
    as [_ Hnull].
  assert (Hparse :
    Azure.parsePrUrl Demo.home
      (lit "https://dev.azure.com/Org/_git/Repo/pullrequest/12")
    = Normal (Some (Stated.parsed (lit "Org") (lit "_git") (lit "Repo")
                      (lit "12")))) by (vm_compute; reflexivity).
  rewrite Hnull in Hparse; [discriminate|].
  intros (o & p & r & i & pathname & Hpath & Hparts).
  vm_compute in Hpath. injection Hpath as <-.
  vm_compute in Hparts. discriminate.
Qed.

(** Two more strings on which C1 as written fails: a string of the fixed
    shape on another host is refused, and an organisation called
    [pullrequest] shifts the id. *)
Example parsePrUrl_other_host :
  Stated.fixed_shape Demo.home
    (lit "https://tfs.example.org/Org/Proj/_git/Repo/pullrequest/12")
    (lit "Org") (lit "Proj") (lit "Repo") (lit "12")
  ∧ Azure.parsePrUrl Demo.home
      (lit "https://tfs.example.org/Org/Proj/_git/Repo/pullrequest/12")
    = Normal None.
Proof.
  split; [|vm_compute; reflexivity].
  exists (lit "/Org/Proj/_git/Repo/pullrequest/12").
  split; vm_compute; reflexivity.
Qed.

Example parsePrUrl_org_named_pullrequest :
  Azure.parsePrUrl Demo.home
    (lit "https://dev.azure.com/pullrequest/Proj/_git/Repo/pullrequest/12")
  = Normal (Some (Stated.parsed (lit "pullrequest") (lit "Proj") (lit "Repo")
                    (lit "Proj"))).
Proof. vm_compute. reflexivity. Qed.

(** C10, amended.  A variable counts as set when its value is not empty.
    [AZURE_ORG_URL], [AZURE_PROJECT] and [AZURE_PAT], when set to a
    non-empty value, win over [AZURE_DEVOPS_ORG], [AZURE_DEVOPS_PROJECT] and
    [AZURE_DEVOPS_PAT]; when one of them is unset or empty the other variant
    is used, and [AZURE_DEVOPS_ORG] (non-empty) is expanded to
    [https://dev.azure.com/<org>]. *)
Theorem getAzureConfig_precedence (P : Platform) :
  (∀ u, env P !! "AZURE_ORG_URL"%string = Some u → u ≠ [] →
        AzureConfig.orgUrl (Azure.getAzureConfig P) = Some u)
  ∧ (∀ a, env P !! "AZURE_PROJECT"%string = Some a → a ≠ [] →
          AzureConfig.project (Azure.getAzureConfig P) = Some a)
  ∧ (∀ a, env P !! "AZURE_PAT"%string = Some a → a ≠ [] →
          AzureConfig.pat (Azure.getAzureConfig P) = Some a)
  ∧ (∀ n, env P !! "AZURE_ORG_URL"%string = None
          ∨ env P !! "AZURE_ORG_URL"%string = Some [] →
          env P !! "AZURE_DEVOPS_ORG"%string = Some n → n ≠ [] →
          AzureConfig.orgUrl (Azure.getAzureConfig P)
          = Some (lit "https://dev.azure.com/" ++ n))
  ∧ (env P !! "AZURE_PROJECT"%string = None
     ∨ env P !! "AZURE_PROJECT"%string = Some [] →
     AzureConfig.project (Azure.getAzureConfig P)
     = env P !! "AZURE_DEVOPS_PROJECT"%string)
  ∧ (env P !! "AZURE_PAT"%string = None
     ∨ env P !! "AZURE_PAT"%string = Some [] →
     AzureConfig.pat (Azure.getAzureConfig P)
     = env P !! "AZURE_DEVOPS_PAT"%string).
Proof.
  unfold Azure.getAzureConfig, Azure.getenv, or_else; simpl.
  split_and!.
  - intros [|c u] -> ?; done.
  - intros [|c a] -> ?; done.
  - intros [|c a] -> ?; done.
  - intros [|c n] [-> | ->] -> ?; done.
  - intros [-> | ->]; done.
  - intros [-> | ->]; done.
Qed.

Lemma getAzureConfig_precedence_witness :
  AzureConfig.orgUrl
    (Azure.getAzureConfig
       (Demo.with_env
          {[ "AZURE_ORG_URL"%string := lit "https://dev.azure.com/Contoso";
             "AZURE_DEVOPS_ORG"%string := lit "Fabrikam" ]} Demo.home))
  = Some (lit "https://dev.azure.com/Contoso")
  ∧ AzureConfig.orgUrl
      (Azure.getAzureConfig
         (Demo.with_env {[ "AZURE_DEVOPS_ORG"%string := lit "Fabrikam" ]}
            Demo.home))
    = Some (lit "https://dev.azure.com/Fabrikam").
Proof.
  split.
  - refine (proj1 (getAzureConfig_precedence _) _ _ _);
      [vm_compute; reflexivity | vm_compute; congruence].
  - refine (proj1 (proj2 (proj2 (proj2 (getAzureConfig_precedence _))))
              (lit "Fabrikam") _ _ _);
      [left; vm_compute; reflexivity | vm_compute; reflexivity
      | vm_compute; congruence].
Defined.

(** C10 as written does not hold: with [AZURE_ORG_URL] set to the empty
    string (a line [AZURE_ORG_URL=] in [.env]) and [AZURE_DEVOPS_ORG] set,
    the organisation name is expanded and used. *)
Lemma first_variant_wins_fails :
  ¬ Stated.first_variant_wins
      (Demo.with_env
         {[ "AZURE_ORG_URL"%string := lit "";
            "AZURE_DEVOPS_ORG"%string := lit "Fabrikam" ]} Demo.home).
Proof.
  intros [Horg _].
  specialize (Horg (lit "") (lit "Fabrikam")).
  assert (Hreal :
    AzureConfig.orgUrl
      (Azure.getAzureConfig
         (Demo.with_env
            {[ "AZURE_ORG_URL"%string := lit "";
               "AZURE_DEVOPS_ORG"%string := lit "Fabrikam" ]} Demo.home))
    = Some (lit "https://dev.azure.com/Fabrikam")) by (vm_compute; reflexivity).
  rewrite Horg in Hreal; [discriminate | vm_compute; reflexivity ..].
Qed.

(** ** get-diff.ts *)

Section GetDiffFacts.
Context (P : Platform).

Lemma toRef_unprefixed (ref : jsstring) :
  startsWith ref (lit "origin/") = false →
  startsWith ref (lit "refs/") = false →
  GetDiff.toRef ref = lit "origin/" ++ ref.
Proof. unfold GetDiff.toRef. by intros -> ->. Qed.

Lemma toRef_prefixed (ref : jsstring) :
  startsWith ref (lit "origin/") = true ∨ startsWith ref (lit "refs/") = true →
  GetDiff.toRef ref = ref.
Proof.
  unfold GetDiff.toRef. by intros [-> | ->]; rewrite ?orb_true_r.
Qed.

Lemma toRef_is_remote_or_full (ref : jsstring) :
  startsWith (GetDiff.toRef ref) (lit "origin/") = true
  ∨ startsWith (GetDiff.toRef ref) (lit "refs/") = true.
Proof.
  unfold GetDiff.toRef.
  destruct (startsWith ref (lit "origin/")) eqn:Ho; [left; exact Ho|].
  destruct (startsWith ref (lit "refs/")) eqn:Hr; [right; exact Hr|].
  left. apply startsWith_app.
Qed.

Lemma diff_command_unprefixed (baseRef headRef : jsstring) :
  startsWith baseRef (lit "origin/") = false →
  startsWith baseRef (lit "refs/") = false →
  startsWith headRef (lit "origin/") = false →
  startsWith headRef (lit "refs/") = false →
  lit "git diff " ++ GetDiff.toRef baseRef ++ lit "..." ++ GetDiff.toRef headRef
  = lit "git diff origin/" ++ baseRef ++ lit "...origin/" ++ headRef.
Proof.
  intros. rewrite !toRef_unprefixed by done.
  change (lit "git diff origin/") with (lit "git diff " ++ lit "origin/").
  change (lit "...origin/") with (lit "..." ++ lit "origin/").
  by rewrite <- !(assoc_L (++)).
Qed.

(** The only thing [getDiffContent] asks of the platform is the outcome of
    one command. *)
Lemma getDiffContent_command (P' : Platform) (repoRoot baseRef headRef : jsstring) :
  execSync P' (lit "git diff " ++ GetDiff.toRef baseRef ++ lit "..."
               ++ GetDiff.toRef headRef) repoRoot
  = execSync P (lit "git diff " ++ GetDiff.toRef baseRef ++ lit "..."
                ++ GetDiff.toRef headRef) repoRoot →
  GetDiff.getDiffContent P' repoRoot baseRef headRef
  = GetDiff.getDiffContent P repoRoot baseRef headRef.
Proof. unfold GetDiff.getDiffContent. by intros ->. Qed.

End GetDiffFacts.

(** C9.  A name that starts with neither [origin/] nor [refs/] becomes
    [origin/<name>], any other name is kept; the command that is run is
    [git diff <toRef base>...<toRef head>], which for two such names is
    [git diff origin/<base>...origin/<head>], and the diff text is the output
    of that command and of no other. *)
Theorem toRef_remote_tracking (P : Platform)
    (repoRoot baseRef headRef : jsstring) :
  (∀ ref, startsWith ref (lit "origin/") = false →
          startsWith ref (lit "refs/") = false →
          GetDiff.toRef ref = lit "origin/" ++ ref)
  ∧ (∀ ref, startsWith ref (lit "origin/") = true
            ∨ startsWith ref (lit "refs/") = true →
            GetDiff.toRef ref = ref)
  ∧ (∀ out,
       execSync P (lit "git diff " ++ GetDiff.toRef baseRef ++ lit "..."
                   ++ GetDiff.toRef headRef) repoRoot = ExecOk out →
       GetDiff.getDiffContent P repoRoot baseRef headRef = Normal out)
  ∧ (startsWith baseRef (lit "origin/") = false →
     startsWith baseRef (lit "refs/") = false →
     startsWith headRef (lit "origin/") = false →
     startsWith headRef (lit "refs/") = false →
     ∀ P',
       execSync P' (lit "git diff origin/" ++ baseRef ++ lit "...origin/"
                    ++ headRef) repoRoot
       = execSync P (lit "git diff origin/" ++ baseRef ++ lit "...origin/"
                     ++ headRef) repoRoot →
       GetDiff.getDiffContent P' repoRoot baseRef headRef
       = GetDiff.getDiffContent P repoRoot baseRef headRef).
Proof.
  split_and!.
  - apply toRef_unprefixed.
  - apply toRef_prefixed.
  - intros out Hout. unfold GetDiff.getDiffContent. by rewrite Hout.
  - intros ???? P' Hsame. apply getDiffContent_command.
    by rewrite diff_command_unprefixed.
Qed.

Lemma toRef_remote_tracking_witness :
  GetDiff.toRef (lit "feature/z") = lit "origin/feature/z"
  ∧ GetDiff.toRef (lit "refs/pull/7/merge") = lit "refs/pull/7/merge"
  ∧ GetDiff.getDiffContent Demo.home (lit "/home/dev/repos/Shop.Web")
      (lit "main") (lit "feature/z")
    = Normal (lit "diff --git a/README.md b/README.md" ++ [10%N]).
Proof.
  pose proof (toRef_remote_tracking Demo.home (lit "/home/dev/repos/Shop.Web")
                (lit "main") (lit "feature/z")) as (Hun & Hpre & Hout & _).
  split_and!.
  - apply Hun; vm_compute; reflexivity.
  - apply Hpre. right. vm_compute. reflexivity.
  - apply Hout. vm_compute. reflexivity.
Defined.

(** C7.  When the diff command fails and the error carries a non-empty
    captured standard output, that output is the diff text; when it carries
    none, or an empty one, [getDiffContent] throws [Failed to get diff: ...]. *)
Theorem getDiffContent_partial_output (P : Platform)
    (repoRoot baseRef headRef : jsstring) (e : ExecError) :
  execSync P (lit "git diff " ++ GetDiff.toRef baseRef ++ lit "..."
              ++ GetDiff.toRef headRef) repoRoot = ExecFailed e →
  (∀ out, err_stdout e = Some out → out ≠ [] →
          GetDiff.getDiffContent P repoRoot baseRef headRef = Normal out)
  ∧ (err_stdout e = None ∨ err_stdout e = Some [] →
     GetDiff.getDiffContent P repoRoot baseRef headRef
     = Throw (lit "Failed to get diff: " ++ err_message e)).
Proof.
  intros Hfail. unfold GetDiff.getDiffContent. rewrite Hfail. split.
  - intros [|c out] -> ?; done.
  - intros [-> | ->]; done.
Qed.

Lemma getDiffContent_partial_output_witness :
  GetDiff.getDiffContent Demo.home (lit "/home/dev/repos/Shop.Web")
    (lit "main") (lit "huge")
  = Normal (lit "diff --git a/big.bin b/big.bin" ++ [10%N])
  ∧ GetDiff.getDiffContent Demo.home (lit "/home/dev/repos/Shop.Web")
      (lit "main") (lit "gone")
    = Throw (lit "Failed to get diff: Command failed: git diff origin/main...origin/gone").
Proof.
  split.
  - refine (proj1 (getDiffContent_partial_output Demo.home _ _ _
                     {| err_stdout := Some (lit "diff --git a/big.bin b/big.bin" ++ [10%N]);
                        err_message := lit "spawnSync /bin/sh ENOBUFS" |} _) _ _ _);
      [vm_compute; reflexivity | reflexivity | vm_compute; congruence].
  - refine (proj2 (getDiffContent_partial_output Demo.home _ _ _
                     {| err_stdout := Some [];
                        err_message := lit "Command failed: git diff origin/main...origin/gone" |} _) _);
      [vm_compute; reflexivity | by right].
Defined.

(** ** review.ts *)

Section ReviewFacts.
Import Review.
Context (outputPath : jsstring).

Local Abbreviation deliver := (Review.deliver outputPath).
Local Abbreviation run := (Review.run outputPath).

Lemma run_app (s : Supervisor) (es1 es2 : list event) :
  run s (es1 ++ es2) = run (run s es1) es2.
Proof. apply foldl_app. Qed.

Lemma run_cons (s : Supervisor) (e : event) (es : list event) :
  run s (e :: es) = run (deliver s e) es.
Proof. done. Qed.

Lemma deliver_exited (s : Supervisor) (e : event) :
  is_Some (exited s) → deliver s e = s.
Proof. intros [c Hc]. unfold Review.deliver. by rewrite Hc. Qed.

Lemma run_exited (s : Supervisor) (es : list event) :
  is_Some (exited s) → run s es = s.
Proof.
  intros Hs. induction es as [|e es IH]; [done|].
  by rewrite run_cons, deliver_exited.
Qed.

Lemma error_line_not_clear (parts : list jsstring) :
  error_line parts ≠ CLEAR_LINE.
Proof.
  unfold error_line. intros H. apply (f_equal last) in H.
  rewrite last_snoc in H. discriminate.
Qed.

Lemma frame_text_not_clear (index : nat) : frame_text index ≠ CLEAR_LINE.
Proof.
  unfold frame_text. intros H. apply (f_equal last) in H.
  change (lit " Working ") with (lit " Working" ++ [32%N]) in H.
  rewrite !(assoc_L (++)), last_snoc in H. discriminate.
Qed.

Lemma clears_stderr_write (text : jsstring) (s : Supervisor) :
  clears (stderr_write text s)
  = (clears s + (if decide (text = CLEAR_LINE) then 1 else 0))%nat.
Proof.
  unfold clears, stderr_write; simpl.
  rewrite filter_app, length_app. f_equal.
  rewrite filter_cons, filter_nil. by case_decide.
Qed.

(** Writing to [stderr] is the only thing that changes the count. *)
Lemma clears_same_stderr (s s' : Supervisor) :
  stderr s = stderr s' → clears s = clears s'.
Proof. unfold clears. by intros ->. Qed.

Lemma clears_on_tick (s : Supervisor) : clears (on_tick s) = clears s.
Proof.
  unfold on_tick.
  rewrite (clears_same_stderr _ (stderr_write (frame_text (spinnerIndex s)) s))
    by done.
  rewrite clears_stderr_write, decide_False by apply frame_text_not_clear. lia.
Qed.

Lemma clears_on_data (chunk : jsstring) (s : Supervisor) :
  clears (on_data chunk s)
  = (clears s + (if firstChunk s then 1 else 0))%nat.
Proof.
  unfold on_data. destruct (firstChunk s) eqn:Hf.
  - etrans; [apply (clears_same_stderr _ (stderr_write CLEAR_LINE s)); done|].
    by rewrite clears_stderr_write, decide_True.
  - etrans; [apply (clears_same_stderr _ s); done|]. lia.
Qed.

Lemma clears_on_end (s : Supervisor) : clears (on_end s) = S (clears s).
Proof.
  unfold on_end.
  etrans; [apply (clears_same_stderr _ (stderr_write CLEAR_LINE s));
           by destruct (firstChunk s)|].
  rewrite clears_stderr_write, decide_True by done. lia.
Qed.

Lemma stderr_on_exit (code : option Z) (s : Supervisor) :
  stderr (on_exit outputPath code s)
  = stderr s ++ [CLEAR_LINE;
                 error_line [[10%N] ++ lit "Review saved to"; outputPath]].
Proof. unfold on_exit; simpl. by rewrite <- (assoc_L (++)). Qed.

Lemma clears_on_exit (code : option Z) (s : Supervisor) :
  clears (on_exit outputPath code s) = S (clears s).
Proof.
  unfold clears. rewrite stderr_on_exit.
  rewrite filter_app, length_app, filter_cons, decide_True by done.
  rewrite filter_cons, decide_False by apply error_line_not_clear.
  rewrite filter_nil. simpl. lia.
Qed.

Lemma clears_on_error (code : option jsstring) (printed : jsstring)
    (s : Supervisor) :
  clears (on_error code printed s) = S (clears s).
Proof.
  unfold clears, on_error. case_bool_decide; cbn [stderr stderr_write process_exit with_fileStream clearInterval set_spinner];
    rewrite !filter_app, !length_app, !filter_cons, !filter_nil;
    rewrite decide_True by done;
    rewrite !decide_False by apply error_line_not_clear; simpl; lia.
Qed.

End ReviewFacts.

Section ReviewInvariant.
Import Review.
Context (outputPath : jsstring).

Local Abbreviation deliver := (Review.deliver outputPath).
Local Abbreviation run := (Review.run outputPath).

Lemma consistent_runReview : consistent runReview.
Proof. unfold consistent. split_and!; done. Qed.

Lemma consistent_deliver (s : Supervisor) (e : event) :
  consistent s → consistent (deliver s e).
Proof.
  intros Hs. unfold Review.deliver.
  destruct (exited s) eqn:Hex; [exact Hs|].
  destruct Hs as (Hcl & Hen & Hsp & Hclr).
  unfold has_exited in Hcl, Hen, Hclr. rewrite Hex in Hcl, Hen, Hclr.
  unfold consistent.
  destruct e as [|chunk| |code printed|code];
    [ destruct (spinner s) eqn:Hspin; [rewrite clears_on_tick|]
    | destruct (child_stdout_open s) eqn:Hopen; [rewrite clears_on_data|]
    | destruct (child_stdout_open s) eqn:Hopen;
        [rewrite clears_on_end; unfold clears at 1; cbn [stderr];
         fold (clears s)|]
    | rewrite clears_on_error
    | rewrite clears_on_exit ];
    rewrite Hclr;
    unfold has_exited, on_tick, on_data, on_end, on_error, on_exit,
      WriteStream.write, WriteStream.end_;
    destruct (firstChunk s) eqn:Hf, (child_stdout_open s) eqn:Hopen',
      (WriteStream.ended (fileStream s)) eqn:Hend;
    try case_bool_decide;
    cbn in *; rewrite ?Hex, ?Hf, ?Hopen', ?Hend, ?Hcl, ?Hopen'; cbn;
    try congruence;
    split_and!; try done; try lia;
    try (intros Hspin'; congruence);
    try (intros Hspin'; destruct (Hsp Hspin') as (?&?&?); congruence).
Qed.

Lemma consistent_run (s : Supervisor) (es : list event) :
  consistent s → consistent (run s es).
Proof.
  revert s; induction es as [|e es IH]; intros s Hs; [done|].
  rewrite run_cons. by apply IH, consistent_deliver.
Qed.

Lemma reachable_consistent (es : list event) : consistent (run runReview es).
Proof. apply consistent_run, consistent_runReview. Qed.

(** *** The exit code *)

Lemma deliver_keeps_running (s : Supervisor) (e : event) :
  is_terminal e = false → exited s = None → exited (deliver s e) = None.
Proof.
  intros He Hs. unfold Review.deliver. rewrite Hs.
  destruct e; try done; simpl.
  - by destruct (spinner s).
  - destruct (child_stdout_open s); [|done].
    unfold on_data. by destruct (firstChunk s).
  - destruct (child_stdout_open s); [|done].
    unfold on_end; simpl. by destruct (firstChunk s).
Qed.

Lemma run_keeps_running (s : Supervisor) (es : list event) :
  existsb is_terminal es = false → exited s = None → exited (run s es) = None.
Proof.
  revert s; induction es as [|e es IH]; intros s Hes Hs; [done|].
  simpl in Hes. apply orb_false_elim in Hes as [He Hes].
  rewrite run_cons. by apply IH, deliver_keeps_running.
Qed.

Lemma deliver_ChildExit (s : Supervisor) (code : option Z) :
  exited s = None →
  exited (deliver s (ChildExit code)) = Some (default 0 code)
  ∧ spinner (deliver s (ChildExit code)) = false
  ∧ stderr (deliver s (ChildExit code))
    = stderr s ++ [CLEAR_LINE;
                   error_line [[10%N] ++ lit "Review saved to"; outputPath]].
Proof.
  intros Hs. unfold Review.deliver. rewrite Hs.
  split_and!; [done | done | apply stderr_on_exit].
Qed.

(** *** The output file *)

Lemma deliver_closing (s : Supervisor) (e : event) :
  is_closing e = true → closing_seen (deliver s e).
Proof.
  intros He. unfold closing_seen, has_exited, Review.deliver.
  destruct (exited s) eqn:Hex; [right; by rewrite Hex|].
  destruct e; try done.
  - destruct (child_stdout_open s) eqn:Hopen; [|by left].
    left. unfold on_end; simpl. by destruct (firstChunk s).
  - by right.
  - by right.
Qed.

Lemma deliver_closing_mono (s : Supervisor) (e : event) :
  closing_seen s → closing_seen (deliver s e).
Proof.
  unfold closing_seen, has_exited, Review.deliver.
  destruct (exited s) eqn:Hex; [by rewrite Hex|].
  intros [Hopen|?]; [|done]. rewrite Hopen.
  destruct e; try (by left); try (by right).
  destruct (spinner s); by left.
Qed.

Lemma run_closing_mono (s : Supervisor) (es : list event) :
  closing_seen s → closing_seen (run s es).
Proof.
  revert s; induction es as [|e es IH]; intros s Hs; [done|].
  rewrite run_cons. by apply IH, deliver_closing_mono.
Qed.

Lemma run_closing (s : Supervisor) (es : list event) :
  existsb is_closing es = true → closing_seen (run s es).
Proof.
  revert s; induction es as [|e es IH]; intros s Hes; [done|].
  rewrite run_cons. simpl in Hes. apply orb_prop in Hes as [He|Hes].
  - by apply run_closing_mono, deliver_closing.
  - by apply IH.
Qed.

Lemma run_not_closing (s : Supervisor) (es : list event) :
  existsb is_closing es = false →
  child_stdout_open s = true → exited s = None →
  child_stdout_open (run s es) = true ∧ exited (run s es) = None.
Proof.
  revert s; induction es as [|e es IH]; intros s Hes Hopen Hex; [done|].
  simpl in Hes. apply orb_false_elim in Hes as [He Hes].
  rewrite run_cons. apply IH; [done| |].
  - unfold Review.deliver. rewrite Hex, Hopen. destruct e; try done; simpl.
    + by destruct (spinner s).
    + unfold on_data. by destruct (firstChunk s).
  - apply deliver_keeps_running; [|done]. by destruct e.
Qed.

Lemma ended_once (s : Supervisor) :
  consistent s → closing_seen s →
  WriteStream.ended (fileStream s) = true
  ∧ (1 ≤ WriteStream.end_calls (fileStream s) ≤ 2)%nat.
Proof.
  intros (Hcalls & Hen & _) Hseen. rewrite Hen, Hcalls.
  destruct Hseen as [-> | ->]; cbn.
  - split; [done|]. destruct (has_exited s); cbn; lia.
  - split; [apply orb_true_r|]. destruct (child_stdout_open s); cbn; lia.
Qed.

(** *** The turns of the event loop *)

Local Abbreviation advance := (Review.advance outputPath).
Local Abbreviation play := (Review.play outputPath).

Lemma play_cons (s : Supervisor) (t : turn) (turns : list turn) :
  play s (t :: turns) = play (advance s t) turns.
Proof. done. Qed.

Lemma same_but_closes_deliver (s1 s2 : Supervisor) (e : event) :
  same_but_closes s1 s2 → same_but_closes (deliver s1 e) (deliver s2 e).
Proof.
  destruct s1 as [sp1 ix1 fc1 op1 err1 out1 [en1 ch1 ec1 cl1] ex1],
           s2 as [sp2 ix2 fc2 op2 err2 out2 [en2 ch2 ec2 cl2] ex2].
  unfold same_but_closes. cbn.
  intros (-> & -> & -> & -> & -> & -> & -> & -> & -> & ->).
  unfold Review.deliver. cbn.
  destruct ex2; [done|].
  destruct e as [|chunk| |code printed|code]; cbn.
  - by destruct sp2.
  - destruct op2; [|done]. unfold on_data, WriteStream.write. cbn.
    by destruct fc2, en2.
  - destruct op2; [|done]. unfold on_end. cbn. by destruct fc2.
  - unfold on_error. cbn. by destruct (bool_decide _).
  - done.
Qed.

Lemma same_but_closes_close (s1 s2 : Supervisor) :
  same_but_closes s1 s2 →
  same_but_closes (with_fileStream WriteStream.close s1) s2.
Proof.
  unfold same_but_closes, with_fileStream, WriteStream.close. cbn.
  intros (? & ? & ? & ? & ? & ? & ? & Hen & ? & ?).
  destruct (WriteStream.ended (fileStream s1)) eqn:Hended;
    [destruct (WriteStream.closes (fileStream s1) =? 0)%nat|];
    cbn; rewrite ?Hended; by split_and!.
Qed.

(** The callbacks see the same state whether or not the file has been
    closed in between. *)
Lemma play_callbacks (s1 s2 : Supervisor) (turns : list turn) :
  same_but_closes s1 s2 →
  same_but_closes (play s1 turns) (run s2 (callbacks turns)).
Proof.
  revert s1 s2. induction turns as [|t turns IH]; intros s1 s2 Hs; [done|].
  rewrite play_cons. destruct t as [e|].
  - change (callbacks (Callback e :: turns)) with (e :: callbacks turns).
    rewrite run_cons. by apply IH, same_but_closes_deliver.
  - change (callbacks (StreamClosed :: turns)) with (callbacks turns).
    apply IH. cbn [Review.advance].
    destruct (exited s1); [done|]. by apply same_but_closes_close.
Qed.

Lemma same_but_closes_refl (s : Supervisor) : same_but_closes s s.
Proof. unfold same_but_closes. by split_and!. Qed.

Lemma consistent_same (s1 s2 : Supervisor) :
  same_but_closes s1 s2 → consistent s2 → consistent s1.
Proof.
  unfold same_but_closes, consistent, has_exited, clears.
  intros (-> & _ & -> & -> & -> & _ & -> & -> & _ & ->). done.
Qed.

Lemma consistent_play (turns : list turn) : consistent (play runReview turns).
Proof.
  eapply consistent_same; [apply play_callbacks, same_but_closes_refl|].
  apply reachable_consistent.
Qed.

(** The file is closed at most once, after it has ended, and only when its
    end was the end of the stream of the agent: the error and exit handlers
    leave no turn between [end()] and [process.exit()]. *)
Lemma closes_advance (s : Supervisor) (t : turn) :
  consistent s →
  (WriteStream.closes (fileStream s) ≤ 1)%nat
  ∧ (child_stdout_open s = true → WriteStream.closes (fileStream s) = 0%nat) →
  (WriteStream.closes (fileStream (advance s t)) ≤ 1)%nat
  ∧ (child_stdout_open (advance s t) = true →
     WriteStream.closes (fileStream (advance s t)) = 0%nat).
Proof.
  intros (_ & Hen & _) [Hle Hopen].
  assert (∀ s' f, fileStream s' = f →
                  WriteStream.closes f = WriteStream.closes (fileStream s) →
                  (child_stdout_open s' = true → child_stdout_open s = true) →
                  (WriteStream.closes (fileStream s') ≤ 1)%nat
                  ∧ (child_stdout_open s' = true →
                     WriteStream.closes (fileStream s') = 0%nat)) as Hkeep.
  { intros s' f -> Hf Ho. rewrite Hf. split; [done|]. intros Ho'. by apply Hopen, Ho. }
  destruct t as [e|]; cbn [Review.advance].
  - unfold Review.deliver.
    destruct (exited s) eqn:Hex; [by apply (Hkeep s (fileStream s))|].
    destruct e as [|chunk| |code printed|code].
    + destruct (spinner s);
        [by apply (Hkeep (on_tick s) (fileStream s))
        |by apply (Hkeep s (fileStream s))].
    + destruct (child_stdout_open s) eqn:Ho;
        [|apply (Hkeep s (fileStream s)); [done|done|intros; congruence]].
      unfold on_data.
      destruct (firstChunk s); (eapply Hkeep; [reflexivity| |done]);
        cbn; unfold WriteStream.write; by destruct (WriteStream.ended _).
    + destruct (child_stdout_open s) eqn:Ho;
        [|apply (Hkeep s (fileStream s)); [done|done|intros; congruence]].
      unfold on_end.
      destruct (firstChunk s); (eapply Hkeep; [reflexivity|done|done]).
    + unfold on_error.
      destruct (bool_decide _); (eapply Hkeep; [reflexivity|done|done]).
    + unfold on_exit. eapply Hkeep; [reflexivity|done|done].
  - destruct (exited s) eqn:Hex; [by apply (Hkeep s (fileStream s))|].
    unfold with_fileStream, WriteStream.close. cbn.
    unfold has_exited in Hen. rewrite Hex, orb_false_r in Hen.
    destruct (WriteStream.ended (fileStream s)) eqn:Hended;
      [destruct (WriteStream.closes (fileStream s) =? 0)%nat|]; cbn;
      try (by split).
    split; [lia|]. intros Ho. by rewrite Ho in Hen.
Qed.

Lemma closes_play (turns : list turn) :
  (WriteStream.closes (fileStream (play runReview turns)) ≤ 1)%nat
  ∧ (child_stdout_open (play runReview turns) = true →
     WriteStream.closes (fileStream (play runReview turns)) = 0%nat).
Proof.
  induction turns as [|t turns IH] using rev_ind; [by split; [cbn; lia|]|].
  unfold Review.play. rewrite foldl_app. cbn [foldl].
  apply closes_advance; [apply consistent_play|exact IH].
Qed.

(** *** The spinner *)

Lemma spinner_off_stable (s : Supervisor) (e : event) :
  spinner s = false → spinner (deliver s e) = false.
Proof.
  intros Hs. unfold Review.deliver.
  destruct (exited s); [done|].
  destruct e; simpl; rewrite ?Hs; try done.
  - destruct (child_stdout_open s); [|done].
    unfold on_data. destruct (firstChunk s); [done|]. simpl. done.
  - destruct (child_stdout_open s); [|done].
    unfold on_end; simpl. destruct (firstChunk s); [done|]. simpl. done.
  - unfold on_error. by case_bool_decide.
Qed.

Lemma run_spinner_off (s : Supervisor) (es : list event) :
  spinner s = false → spinner (run s es) = false.
Proof.
  revert s; induction es as [|e es IH]; intros s Hs; [done|].
  rewrite run_cons. by apply IH, spinner_off_stable.
Qed.

Lemma deliver_Tick_off (s : Supervisor) :
  spinner s = false → deliver s Tick = s.
Proof.
  intros Hs. unfold Review.deliver. rewrite Hs. by destruct (exited s).
Qed.

Lemma deliver_Data_off (s : Supervisor) (chunk : jsstring) :
  consistent s → spinner (deliver s (Data chunk)) = false.
Proof.
  intros (_ & _ & Hsp & _). unfold Review.deliver.
  destruct (spinner s) eqn:Hspin.
  - destruct (Hsp eq_refl) as (Hf & Hopen & Hex).
    rewrite Hex, Hopen. unfold on_data. by rewrite Hf.
  - destruct (exited s); [done|].
    destruct (child_stdout_open s); [|done].
    unfold on_data. destruct (firstChunk s); [done|]. simpl. done.
Qed.

Lemma run_data_off (s : Supervisor) (es : list event) :
  consistent s → existsb is_data es = true → spinner (run s es) = false.
Proof.
  revert s; induction es as [|e es IH]; intros s Hs Hes; [done|].
  rewrite run_cons. simpl in Hes. apply orb_prop in Hes as [He|Hes].
  - destruct e; try done. by apply run_spinner_off, deliver_Data_off.
  - apply IH; [by apply consistent_deliver|done].
Qed.

Lemma deliver_first_Data (s : Supervisor) (chunk : jsstring) :
  firstChunk s = true → child_stdout_open s = true → exited s = None →
  spinner (deliver s (Data chunk)) = false
  ∧ stderr (deliver s (Data chunk)) = stderr s ++ [CLEAR_LINE].
Proof.
  intros Hf Hopen Hex. unfold Review.deliver, on_data.
  by rewrite Hex, Hopen, Hf.
Qed.

Lemma deliver_later_Data (s : Supervisor) (chunk : jsstring) :
  firstChunk s = false → stderr (deliver s (Data chunk)) = stderr s.
Proof.
  intros Hf. unfold Review.deliver, on_data. rewrite Hf.
  destruct (exited s); [done|]. by destruct (child_stdout_open s).
Qed.

Lemma deliver_End (s : Supervisor) :
  consistent s → child_stdout_open s = true → exited s = None →
  spinner (deliver s End) = false
  ∧ stderr (deliver s End) = stderr s ++ [CLEAR_LINE].
Proof.
  intros (_ & _ & Hsp & _) Hopen Hex. unfold Review.deliver, on_end.
  rewrite Hex, Hopen. simpl.
  destruct (firstChunk s) eqn:Hf; [done|]. simpl. split; [|done].
  destruct (spinner s) eqn:Hspin; [|done].
  destruct (Hsp eq_refl) as (? & _). congruence.
Qed.

(** *** The output file receives what the terminal receives *)

Lemma no_write_after_end (s : Supervisor) :
  consistent s → child_stdout_open s = true → exited s = None →
  WriteStream.ended (fileStream s) = false.
Proof.
  intros (_ & Hen & _) Hopen Hex.
  unfold has_exited in Hen. by rewrite Hopen, Hex in Hen.
Qed.

Lemma tee_deliver (s : Supervisor) (e : event) :
  consistent s →
  stdout s = WriteStream.chunks (fileStream s) →
  stdout (deliver s e) = WriteStream.chunks (fileStream (deliver s e)).
Proof.
  intros Hs Htee. unfold Review.deliver.
  destruct (exited s) eqn:Hex; [done|].
  destruct e as [|chunk| |code printed|code]; simpl.
  - by destruct (spinner s).
  - destruct (child_stdout_open s) eqn:Hopen; [|done].
    pose proof (no_write_after_end s Hs Hopen Hex) as Hend.
    unfold on_data, WriteStream.write.
    destruct (firstChunk s); simpl; rewrite Hend; simpl; by rewrite Htee.
  - destruct (child_stdout_open s); [|done].
    unfold on_end, WriteStream.end_; simpl.
    by destruct (firstChunk s).
  - unfold on_error, WriteStream.end_.
    by case_bool_decide.
  - done.
Qed.

Lemma tee_in_order (es : list event) :
  stdout (run runReview es) = WriteStream.chunks (fileStream (run runReview es)).
Proof.
  assert (∀ s, consistent s → stdout s = WriteStream.chunks (fileStream s) →
               stdout (run s es) = WriteStream.chunks (fileStream (run s es)))
    as Hgen.
  { induction es as [|e es IH]; intros s Hs Htee; [done|].
    rewrite run_cons. apply IH; [by apply consistent_deliver|by apply tee_deliver]. }
  apply Hgen; [apply consistent_runReview|done].
Qed.

End ReviewInvariant.

(** C6.  As long as the host is running (no spawn error and no earlier exit
    event), the exit event of the agent makes the host exit with the code of
    the agent, and with 0 when that code is [null]. *)
Theorem exit_code_mirrors_agent (outputPath : jsstring)
    (events : list Review.event) (code : option Z) :
  existsb Review.is_terminal events = false →
  Review.exited
    (Review.run outputPath Review.runReview (events ++ [Review.ChildExit code]))
  = Some (match code with Some c => c | None => 0 end).
Proof.
  intros Hev. rewrite run_app, run_cons. simpl.
  pose proof (run_keeps_running outputPath Review.runReview events Hev eq_refl)
    as Hrun.
  destruct (deliver_ChildExit outputPath _ code Hrun) as [-> _].
  by destruct code.
Qed.

Lemma exit_code_mirrors_agent_witness :
  Review.exited
    (Review.run (lit "/tmp/out.md") Review.runReview
       ([Review.Tick; Review.Data (lit "LGTM"); Review.End]
        ++ [Review.ChildExit (Some 3)]))
  = Some 3
  ∧ Review.exited
      (Review.run (lit "/tmp/out.md") Review.runReview
         ([Review.Tick] ++ [Review.ChildExit None]))
    = Some 0.
Proof.
  split.
  - apply (exit_code_mirrors_agent (lit "/tmp/out.md")
             [Review.Tick; Review.Data (lit "LGTM"); Review.End] (Some 3)).
    reflexivity.
  - apply (exit_code_mirrors_agent (lit "/tmp/out.md") [Review.Tick] None).
    reflexivity.
Defined.

(** C5, amended.  On every path that ends an invocation, the end of the
    stream of the agent, a spawn error or the exit of the agent, [end()] is
    called on the output file: from then on the file has ended, a host that
    has exited has ended it, and before any of these events it has not
    ended.  [end()] is called once or twice (at the end of the stream and
    again by the error or exit handler, which then finds the file ended).
    Closing is another matter: the runtime closes an ended file in a later
    turn, at most once, and a host that has exited takes no further turn.  So
    the file is closed only when the stream of the agent ended first; when
    the first ending event is a spawn error or the exit of the agent, the
    file is ended but never closed by the program, and its descriptor goes
    with the process. *)
Theorem fileStream_ended_on_every_path (outputPath : jsstring)
    (turns : list Review.turn) :
  let final := Review.play outputPath Review.runReview turns in
  (existsb Review.is_closing (Review.callbacks turns) = true →
   WriteStream.ended (Review.fileStream final) = true
   ∧ (1 ≤ WriteStream.end_calls (Review.fileStream final) ≤ 2)%nat)
  ∧ (is_Some (Review.exited final) →
     WriteStream.ended (Review.fileStream final) = true)
  ∧ (existsb Review.is_closing (Review.callbacks turns) = false →
     WriteStream.ended (Review.fileStream final) = false
     ∧ WriteStream.end_calls (Review.fileStream final) = 0%nat
     ∧ WriteStream.closes (Review.fileStream final) = 0%nat)
  ∧ (WriteStream.closes (Review.fileStream final) ≤ 1)%nat
  ∧ (WriteStream.closes (Review.fileStream final) = 1%nat →
     WriteStream.ended (Review.fileStream final) = true
     ∧ Review.child_stdout_open final = false)
  ∧ (Review.child_stdout_open final = true →
     WriteStream.closes (Review.fileStream final) = 0%nat).
Proof.
  cbn zeta.
  pose proof (consistent_play outputPath turns) as Hc.
  pose proof (closes_play outputPath turns) as [Hle Hopen].
  pose proof (play_callbacks outputPath Review.runReview Review.runReview turns
                (same_but_closes_refl _))
    as (_ & _ & _ & Ho & _ & _ & Hex & _).
  assert (Review.closing_seen (Review.play outputPath Review.runReview turns)
          ↔ Review.closing_seen
              (Review.run outputPath Review.runReview (Review.callbacks turns)))
    as Hseen.
  { unfold Review.closing_seen, Review.has_exited. by rewrite Ho, Hex. }
  split_and!.
  - intros Hev. apply ended_once; [done|]. by apply Hseen, run_closing.
  - intros [c Hc']. apply ended_once; [done|].
    right. unfold Review.has_exited. by rewrite Hc'.
  - intros Hev.
    destruct (run_not_closing outputPath Review.runReview _ Hev eq_refl eq_refl)
      as [Hopen' Hex'].
    rewrite <- Ho in Hopen'. rewrite <- Hex in Hex'.
    destruct Hc as (Hcalls & Hen & _).
    unfold Review.has_exited in Hcalls, Hen. rewrite Hopen', Hex' in Hcalls, Hen.
    split_and!; [done|done|by apply Hopen].
  - exact Hle.
  - intros Hone.
    destruct (Review.child_stdout_open _) eqn:Hopen'.
    + rewrite Hopen in Hone by done. discriminate.
    + split; [|done]. destruct Hc as (_ & -> & _). by rewrite Hopen'.
  - exact Hopen.
Qed.

Lemma fileStream_ended_on_every_path_witness :
  (* the executable is not found: ended, and not closed *)
  WriteStream.ended
    (Review.fileStream
       (Review.play (lit "/tmp/out.md") Review.runReview
          [Review.Callback Review.Tick;
           Review.Callback (Review.Error (Some (lit "ENOENT")) (lit "spawn agent ENOENT"));
           Review.StreamClosed]))
  = true
  ∧ WriteStream.closes
      (Review.fileStream
         (Review.play (lit "/tmp/out.md") Review.runReview
            [Review.Callback Review.Tick;
             Review.Callback (Review.Error (Some (lit "ENOENT")) (lit "spawn agent ENOENT"));
             Review.StreamClosed]))
    = 0%nat.
Proof.
  split.
  - exact (proj1 (proj1 (fileStream_ended_on_every_path (lit "/tmp/out.md")
             [Review.Callback Review.Tick;
              Review.Callback (Review.Error (Some (lit "ENOENT")) (lit "spawn agent ENOENT"));
              Review.StreamClosed])
             eq_refl)).
  - exact (proj2 (proj2 (proj2 (proj2 (proj2
             (fileStream_ended_on_every_path (lit "/tmp/out.md")
                [Review.Callback Review.Tick;
                 Review.Callback (Review.Error (Some (lit "ENOENT")) (lit "spawn agent ENOENT"));
                 Review.StreamClosed])))))
             eq_refl).
Defined.

(** C5 as written fails when the agent cannot be started: the error handler
    ends the file and exits at once, and the file is not closed. *)
Lemma closed_on_every_exit_path_fails : ¬ Stated.closed_on_every_exit_path.
Proof.
  intros H.
  specialize (H (lit "/tmp/out.md")
                [Review.Callback
                   (Review.Error (Some (lit "ENOENT")) (lit "spawn agent ENOENT"))]
                (ex_intro _ 1 eq_refl)).
  vm_compute in H. discriminate.
Qed.

(** On the normal path [end()] is called twice.  The file is closed when the
    runtime gets to it between the end of the stream and the exit of the
    agent, and not when the agent exits first. *)
Example fileStream_end_called_twice :
  WriteStream.end_calls
    (Review.fileStream
       (Review.run (lit "/tmp/out.md") Review.runReview
          [Review.Data (lit "LGTM"); Review.End; Review.ChildExit (Some 0)]))
  = 2%nat.
Proof. vm_compute. reflexivity. Qed.

Example fileStream_closed_in_time :
  WriteStream.closes
    (Review.fileStream
       (Review.play (lit "/tmp/out.md") Review.runReview
          [Review.Callback (Review.Data (lit "LGTM")); Review.Callback Review.End;
           Review.StreamClosed; Review.Callback (Review.ChildExit (Some 0))]))
  = 1%nat
  ∧ WriteStream.closes
      (Review.fileStream
         (Review.play (lit "/tmp/out.md") Review.runReview
            [Review.Callback (Review.Data (lit "LGTM")); Review.Callback Review.End;
             Review.Callback (Review.ChildExit (Some 0)); Review.StreamClosed]))
    = 0%nat.
Proof. split; vm_compute; reflexivity. Qed.

(** C4, amended.  Once a chunk has arrived the spinner is cancelled, and a
    cancelled spinner stays cancelled and draws nothing.  The first chunk
    cancels it and writes the clearing sequence; later chunks write nothing
    to the terminal.  The end of the stream writes the sequence again (and
    cancels the spinner when there was no output), and so does the exit
    handler, immediately before its completion message.  In all, the sequence
    is written once for the first chunk, once for the end of the stream and
    once by the error or exit handler. *)
Theorem spinner_cleared_by_each_handler (outputPath : jsstring)
    (events : list Review.event) :
  (existsb Review.is_data events = true →
   Review.spinner (Review.run outputPath Review.runReview events) = false)
  ∧ (Review.spinner (Review.run outputPath Review.runReview events) = false →
     ∀ later,
       Review.spinner
         (Review.run outputPath Review.runReview (events ++ later)) = false)
  ∧ (Review.spinner (Review.run outputPath Review.runReview events) = false →
     Review.run outputPath Review.runReview (events ++ [Review.Tick])
     = Review.run outputPath Review.runReview events)
  ∧ (∀ chunk,
       Review.firstChunk (Review.run outputPath Review.runReview events) = true →
       Review.child_stdout_open
         (Review.run outputPath Review.runReview events) = true →
       Review.exited (Review.run outputPath Review.runReview events) = None →
       Review.spinner
         (Review.run outputPath Review.runReview (events ++ [Review.Data chunk]))
       = false
       ∧ Review.stderr
           (Review.run outputPath Review.runReview (events ++ [Review.Data chunk]))
         = Review.stderr (Review.run outputPath Review.runReview events)
           ++ [Review.CLEAR_LINE])
  ∧ (∀ chunk,
       Review.firstChunk (Review.run outputPath Review.runReview events) = false →
       Review.stderr
         (Review.run outputPath Review.runReview (events ++ [Review.Data chunk]))
       = Review.stderr (Review.run outputPath Review.runReview events))
  ∧ (Review.child_stdout_open
       (Review.run outputPath Review.runReview events) = true →
     Review.exited (Review.run outputPath Review.runReview events) = None →
     Review.spinner
       (Review.run outputPath Review.runReview (events ++ [Review.End])) = false
     ∧ Review.stderr
         (Review.run outputPath Review.runReview (events ++ [Review.End]))
       = Review.stderr (Review.run outputPath Review.runReview events)
         ++ [Review.CLEAR_LINE])
  ∧ (∀ code,
       Review.exited (Review.run outputPath Review.runReview events) = None →
       Review.spinner
         (Review.run outputPath Review.runReview
            (events ++ [Review.ChildExit code])) = false
       ∧ Review.stderr
           (Review.run outputPath Review.runReview
              (events ++ [Review.ChildExit code]))
         = Review.stderr (Review.run outputPath Review.runReview events)
           ++ [Review.CLEAR_LINE;
               Review.error_line
                 [[10%N] ++ lit "Review saved to"; outputPath]])
  ∧ Review.clears (Review.run outputPath Review.runReview events)
    = (Nat.b2n (negb (Review.firstChunk
                        (Review.run outputPath Review.runReview events)))
       + Nat.b2n (negb (Review.child_stdout_open
                          (Review.run outputPath Review.runReview events)))
       + Nat.b2n (Review.has_exited
                    (Review.run outputPath Review.runReview events)))%nat.
Proof.
  pose proof (reachable_consistent outputPath events) as Hc.
  split_and!.
  - by apply run_data_off, consistent_runReview.
  - intros Hoff later. rewrite run_app. by apply run_spinner_off.
  - intros Hoff. rewrite run_app, run_cons. simpl. by apply deliver_Tick_off.
  - intros chunk ???. rewrite run_app, run_cons. simpl.
    by apply deliver_first_Data.
  - intros chunk ?. rewrite run_app, run_cons. simpl.
    by apply deliver_later_Data.
  - intros ??. rewrite run_app, run_cons. simpl. by apply deliver_End.
  - intros code Hex. rewrite run_app, run_cons. simpl.
    by destruct (deliver_ChildExit outputPath _ code Hex) as (_ & ? & ?).
  - by destruct Hc as (_ & _ & _ & ->).
Qed.

Lemma spinner_cleared_by_each_handler_witness :
  Review.spinner
    (Review.run (lit "/tmp/out.md") Review.runReview
       [Review.Tick; Review.Data (lit "LGTM")]) = false
  ∧ Review.stderr
      (Review.run (lit "/tmp/out.md") Review.runReview
         ([Review.Tick; Review.Tick] ++ [Review.End]))
    = Review.stderr
        (Review.run (lit "/tmp/out.md") Review.runReview
           [Review.Tick; Review.Tick])
      ++ [Review.CLEAR_LINE]
  ∧ Review.stderr
      (Review.run (lit "/tmp/out.md") Review.runReview
         ([Review.Tick; Review.End] ++ [Review.ChildExit (Some 0)]))
    = Review.stderr
        (Review.run (lit "/tmp/out.md") Review.runReview
           [Review.Tick; Review.End])
      ++ [Review.CLEAR_LINE;
          Review.error_line [[10%N] ++ lit "Review saved to"; lit "/tmp/out.md"]].
Proof.
  split_and!.
  - destruct (spinner_cleared_by_each_handler (lit "/tmp/out.md")
                [Review.Tick; Review.Data (lit "LGTM")]) as (Hdata & _).
    apply Hdata. reflexivity.
  - destruct (spinner_cleared_by_each_handler (lit "/tmp/out.md")
                [Review.Tick; Review.Tick]) as (_ & _ & _ & _ & _ & Hend & _).
    apply Hend; reflexivity.
  - destruct (spinner_cleared_by_each_handler (lit "/tmp/out.md")
                [Review.Tick; Review.End]) as (_ & _ & _ & _ & _ & _ & Hexit & _).
    apply Hexit; reflexivity.
Defined.

(** C4 as written does not hold: for an agent that prints one chunk and
    exits with 0, the clearing sequence is written three times, by the data
    handler, by the end handler and by the exit handler. *)
Lemma cleared_exactly_once_fails : ¬ Stated.cleared_exactly_once.
Proof.
  intros H.
  specialize (H (lit "/tmp/out.md")
                [Review.Data (lit "LGTM"); Review.End; Review.ChildExit (Some 0)]
                eq_refl).
  vm_compute in H. discriminate.
Qed.

Example cleared_three_times :
  Review.stderr
    (Review.run (lit "/tmp/out.md") Review.runReview
       [Review.Tick; Review.Data (lit "LGTM"); Review.End;
        Review.ChildExit (Some 0)])
  = [Review.BANNER; Review.frame_text 0; Review.CLEAR_LINE; Review.CLEAR_LINE;
     Review.CLEAR_LINE;
     Review.error_line [[10%N] ++ lit "Review saved to"; lit "/tmp/out.md"]].
Proof. vm_compute. reflexivity. Qed.

(** ** cli.ts *)

Section CliFacts.

(** The loop of [parseArgs] never runs out of iterations: with any number
    of them that covers what is left of [argv] it computes the same result. *)
Lemma parseArgs_loop_fuel (fuel1 fuel2 : nat) (argv : list jsstring) (i : nat)
    (result : Args.t) :
  (length argv ≤ fuel1 + i)%nat → (length argv ≤ fuel2 + i)%nat →
  Cli.parseArgs_loop fuel1 argv i result = Cli.parseArgs_loop fuel2 argv i result.
Proof.
  revert fuel2 i result.
  induction fuel1 as [|fuel1 IH]; intros [|fuel2] i result H1 H2; simpl; try done.
  - by rewrite lookup_ge_None_2 by lia.
  - by rewrite lookup_ge_None_2 by lia.
  - destruct (argv !! i); [|done].
    repeat match goal with
           | |- context [if ?b then _ else _] => destruct b
           end; apply IH; lia.
Qed.

Lemma parseArgs_fuel (fuel : nat) (argv : list jsstring) :
  (length argv ≤ fuel)%nat →
  Cli.parseArgs_loop fuel argv 0 Args.empty = Cli.parseArgs argv.
Proof. intros. apply parseArgs_loop_fuel; lia. Qed.

Lemma replace_class_length (class : N → bool) (s : jsstring) :
  length (Cli.replace_class class s) = length s.
Proof. apply length_fmap. Qed.

Lemma sanitizeBranchForFile_lookup (branch : jsstring) (i : nat) (c : N) :
  branch !! i = Some c →
  Cli.sanitizeBranchForFile branch !! i
  = Some (if Cli.isPathSeparator c || isWhiteSpace c then 95%N else c).
Proof.
  intros Hc. unfold Cli.sanitizeBranchForFile, Cli.replace_class.
  rewrite !list_lookup_fmap, Hc. simpl.
  destruct (Cli.isPathSeparator c); simpl; [done|].
  by destruct (isWhiteSpace c).
Qed.

Lemma sanitizeBranchForFile_clean (branch : jsstring) (c : N) :
  c ∈ Cli.sanitizeBranchForFile branch →
  Cli.isPathSeparator c = false ∧ isWhiteSpace c = false.
Proof.
  unfold Cli.sanitizeBranchForFile, Cli.replace_class.
  intros (c1 & -> & (c0 & -> & _)%list_elem_of_fmap)%list_elem_of_fmap.
  destruct (Cli.isPathSeparator c0) eqn:Hsep; simpl.
  - done.
  - destruct (isWhiteSpace c0) eqn:Hws; [done|]. by rewrite Hsep.
Qed.

End CliFacts.

Section MonadFacts.

Lemma bind_Ret_inv {A B} (m : M A) (f : A → M B) (io io' : IO) (b : B) :
  (m ≫= f) io = (Ret b, io') →
  ∃ a io1, m io = (Ret a, io1) ∧ f a io1 = (Ret b, io').
Proof.
  unfold mbind, M_bind.
  destruct (m io) as [[a|c|e] io1]; intros H; [eauto|done|done].
Qed.

Lemma mret_Ret_inv {A} (a b : A) (io io' : IO) :
  mret (M := M) a io = (Ret b, io') → a = b ∧ io = io'.
Proof. by intros [= -> ->]. Qed.

Lemma lift_Ret_inv {A} (c : completion A) (io io' : IO) (a : A) :
  lift c io = (Ret a, io') → c = Normal a ∧ io = io'.
Proof. destruct c; [by intros [= -> ->]|done]. Qed.

Lemma guard_Ret_inv (b : bool) (line : jsstring) (code : Z) (io io' : IO) (u : unit) :
  (if b then console_error line;; process_exit code else mret ()) io
  = (Ret u, io') →
  b = false ∧ io = io'.
Proof. destruct b; [done|]. by intros [= _ ->]. Qed.

Lemma console_log_asked (line : jsstring) (io io' : IO) (u : unit) :
  console_log line io = (Ret u, io') → asked io' = asked io.
Proof.
  unfold console_log, print. intros H. apply (f_equal snd) in H.
  simpl in H. by subst io'.
Qed.

End MonadFacts.

Section MainFacts.
Context (P : Platform).

Lemma getPrDetails_inv (prId : jsstring) (orgUrl project : option jsstring)
    (details : PrDetails.t) :
  Azure.getPrDetails P prId orgUrl project = Normal details →
  ∃ url authorization response data,
    fetch P url authorization = Normal response
    ∧ ok response = true
    ∧ json response = Normal data
    ∧ details
      = {| PrDetails.repository := repository_name data;
           PrDetails.sourceBranch := Azure.stripRefsHeads (sourceRefName data);
           PrDetails.targetBranch := Azure.stripRefsHeads (targetRefName data);
           PrDetails.pullRequestId := pullRequestId data |}.
Proof.
  unfold Azure.getPrDetails.
  destruct (_ || _); [done|].
  match goal with
  | |- context [fetch P ?u ?a] =>
      set (url := u); set (authorization := a);
      destruct (fetch P url authorization) as [response|e] eqn:Hfetch; [|done]
  end.
  simpl. destruct (ok response) eqn:Hok; simpl; [|by case_decide].
  destruct (json response) as [data|e] eqn:Hjson; [|done].
  simpl. intros [= <-]. by exists url, authorization, response, data.
Qed.

Lemma main_pr_inv (reposRoot : jsstring) (args : Args.t) (io io' : IO)
    (t : Cli.Target) :
  Cli.main_pr P reposRoot args io = (Ret t, io') →
  ∃ url authorization response data,
    fetch P url authorization = Normal response
    ∧ ok response = true
    ∧ json response = Normal data
    ∧ Cli.t_baseBranch t = Azure.stripRefsHeads (targetRefName data)
    ∧ Cli.t_headBranch t = Azure.stripRefsHeads (sourceRefName data)
    ∧ Cli.t_prId t = Some (pullRequestId data)
    ∧ Cli.t_repoPath t = path_join P [reposRoot; Cli.t_repoName t]
    ∧ existsSync P (Cli.t_repoPath t) = true
    ∧ ((Azure.parsePrUrl P (render (Args.prIdOrUrl args)) = Normal None
        ∧ Cli.t_repoName t = repository_name data)
       ∨ (∃ parsed,
            Azure.parsePrUrl P (render (Args.prIdOrUrl args))
            = Normal (Some parsed)
            ∧ ParsedUrl.repository parsed = Some (Cli.t_repoName t))).
Proof.
  unfold Cli.main_pr. intros H.
  apply bind_Ret_inv in H as (parsed & io1 & Hparsed & H).
  apply lift_Ret_inv in Hparsed as [Hparsed <-].
  apply bind_Ret_inv in H as ([details repoName] & io2 & Hdetails & H).
  apply bind_Ret_inv in H as (name & io3 & Hname & H).
  apply bind_Ret_inv in H as (u & io4 & Hexists & H).
  apply mret_Ret_inv in H as [<- <-].
  apply guard_Ret_inv in Hexists as [Hexists%negb_false_iff <-].
  destruct repoName as [repoName|]; [|done].
  apply mret_Ret_inv in Hname as [<- <-].
  destruct parsed as [parsed|].
  - apply bind_Ret_inv in Hdetails as (d & io5 & Hd & Hdetails).
    apply mret_Ret_inv in Hdetails as [[= <- Hrepo] <-].
    apply lift_Ret_inv in Hd as [Hd <-].
    apply getPrDetails_inv in Hd as (url & a & response & data & ? & ? & ? & ->).
    exists url, a, response, data. split_and!; try done.
    right. by exists parsed.
  - apply bind_Ret_inv in Hdetails as (u' & io5 & _ & Hdetails).
    apply bind_Ret_inv in Hdetails as (d & io6 & Hd & Hdetails).
    apply mret_Ret_inv in Hdetails as [[= <- <-] <-].
    apply lift_Ret_inv in Hd as [Hd <-].
    apply getPrDetails_inv in Hd as (url & a & response & data & ? & ? & ? & ->).
    exists url, a, response, data. split_and!; try done.
    by left.
Qed.

Lemma getPrDetails_answered (prId : jsstring)
    (orgUrl project : option jsstring) (details : PrDetails.t) :
  Azure.getPrDetails P prId orgUrl project = Normal details →
  ∃ data,
    Stated.answered P prId orgUrl project data
    ∧ details
      = {| PrDetails.repository := repository_name data;
           PrDetails.sourceBranch := Azure.stripRefsHeads (sourceRefName data);
           PrDetails.targetBranch := Azure.stripRefsHeads (targetRefName data);
           PrDetails.pullRequestId := pullRequestId data |}.
Proof.
  unfold Azure.getPrDetails, Stated.answered. cbn zeta.
  destruct (truthy (nullish orgUrl _)); [|done].
  destruct (truthy (nullish project _)); [|done].
  destruct (truthy (AzureConfig.pat _)); [|done].
  cbn [negb orb].
  destruct (fetch P _ _) as [response|e] eqn:Hfetch; [|done].
  cbn [mbind completion_bind].
  destruct (ok response) eqn:Hok; cbn [negb]; [|by case_decide].
  destruct (json response) as [data|e] eqn:Hjson; [|done].
  cbn [mbind completion_bind]. intros [= <-].
  exists data. split; [|done]. split_and!; [done..|]. by exists response.
Qed.

(** What [main] has after lines 269-290, in terms of the request made for
    the pull request as it was given. *)
Lemma main_pr_answered (reposRoot : jsstring) (args : Args.t) (io io' : IO)
    (t : Cli.Target) :
  Cli.main_pr P reposRoot args io = (Ret t, io') →
  ∃ data,
    Stated.provider_answer P (render (Args.prIdOrUrl args)) data
    ∧ Cli.t_baseBranch t = Azure.stripRefsHeads (targetRefName data)
    ∧ Cli.t_headBranch t = Azure.stripRefsHeads (sourceRefName data)
    ∧ Cli.t_prId t = Some (pullRequestId data)
    ∧ Cli.t_repoPath t = path_join P [reposRoot; Cli.t_repoName t]
    ∧ match Azure.parsePrUrl P (render (Args.prIdOrUrl args)) with
      | Normal (Some parsed) =>
          ParsedUrl.repository parsed = Some (Cli.t_repoName t)
      | _ => Cli.t_repoName t = repository_name data
      end.
Proof.
  unfold Cli.main_pr, Stated.provider_answer. intros H.
  apply bind_Ret_inv in H as (parsed & io1 & Hparsed & H).
  apply lift_Ret_inv in Hparsed as [Hparsed <-].
  apply bind_Ret_inv in H as ([details repoName] & io2 & Hdetails & H).
  apply bind_Ret_inv in H as (name & io3 & Hname & H).
  apply bind_Ret_inv in H as (u & io4 & Hexists & H).
  apply mret_Ret_inv in H as [<- <-].
  destruct repoName as [repoName|]; [|done].
  apply mret_Ret_inv in Hname as [<- <-].
  rewrite Hparsed.
  destruct parsed as [parsed|].
  - apply bind_Ret_inv in Hdetails as (d & io5 & Hd & Hdetails).
    apply mret_Ret_inv in Hdetails as [[= <- Hrepo] <-].
    apply lift_Ret_inv in Hd as [Hd <-].
    apply getPrDetails_answered in Hd as (data & Hanswered & ->).
    exists data. split_and!; try done. right. by exists parsed.
  - apply bind_Ret_inv in Hdetails as (u' & io5 & _ & Hdetails).
    apply bind_Ret_inv in Hdetails as (d & io6 & Hd & Hdetails).
    apply mret_Ret_inv in Hdetails as [[= <- <-] <-].
    apply lift_Ret_inv in Hd as [Hd <-].
    apply getPrDetails_answered in Hd as (data & Hanswered & ->).
    exists data. split_and!; try done. by left.
Qed.

Lemma main_direct_prId (reposRoot : jsstring) (reposList : list jsstring)
    (args : Args.t) (io io' : IO) (t : Cli.Target) :
  Cli.main_direct P reposRoot reposList args io = (Ret t, io') →
  Cli.t_prId t = None.
Proof.
  unfold Cli.main_direct. intros H.
  apply bind_Ret_inv in H as ([b h] & io1 & _ & H).
  apply bind_Ret_inv in H as (u & io2 & _ & H).
  apply bind_Ret_inv in H as ([rp rn] & io3 & _ & H).
  apply bind_Ret_inv in H as (u' & io4 & _ & H).
  by apply mret_Ret_inv in H as [<- _].
Qed.

Lemma main_artifacts_inv (outputDir : option jsstring) (t : Cli.Target)
    (io io' : IO) (plan : Plan.t) :
  Cli.main_artifacts P outputDir t io = (Ret plan, io') →
  Plan.repoPath plan = Cli.t_repoPath t
  ∧ Plan.baseBranch plan = Cli.t_baseBranch t
  ∧ Plan.headBranch plan = Cli.t_headBranch t
  ∧ Plan.prId plan = Cli.t_prId t
  ∧ Plan.repoName plan = Cli.t_repoName t
  ∧ Plan.outputDir plan = outputDir
  ∧ Plan.diffFileName plan
    = Cli.diffFileName (Cli.t_prId t) outputDir (Cli.t_baseBranch t)
        (Cli.t_headBranch t)
  ∧ Plan.outputFileName plan
    = Cli.outputFileName (Cli.t_prId t) outputDir (Cli.t_baseBranch t)
        (Cli.t_headBranch t).
Proof.
  unfold Cli.main_artifacts. intros H.
  destruct (truthy outputDir);
    apply bind_Ret_inv in H as (u & io1 & _ & H);
    by apply mret_Ret_inv in H as [<- _].
Qed.

(** Where the artifacts go, and that placing them asks no question. *)
Lemma main_artifacts_places (outputDir : option jsstring) (t : Cli.Target)
    (io io' : IO) (plan : Plan.t) :
  Cli.main_artifacts P outputDir t io = (Ret plan, io') →
  asked io' = asked io
  ∧ Plan.diffWritePath plan
    = (if truthy outputDir then
         Some (path_join P
                 [path_join P [path_resolve P (process_cwd P) (render outputDir);
                               Cli.t_repoName t];
                  Plan.diffFileName plan])
       else None)
  ∧ Plan.reviewOutputPath plan
    = path_join P
        [if truthy outputDir then
           path_join P [path_resolve P (process_cwd P) (render outputDir);
                        Cli.t_repoName t]
         else Cli.t_repoPath t;
         Plan.outputFileName plan].
Proof.
  unfold Cli.main_artifacts. intros H.
  destruct (truthy outputDir);
    apply bind_Ret_inv in H as (u & io1 & Hlog & H);
    apply mret_Ret_inv in H as [<- <-];
    apply console_log_asked in Hlog;
    split_and!; done.
Qed.

Lemma main_inv (argv : list jsstring) (io io' : IO) (plan : Plan.t) :
  Cli.main P argv io = (Ret plan, io') →
  ∃ args t io1 io2,
    Cli.main_args P argv io = (Ret args, io1)
    ∧ (if truthy (Args.prIdOrUrl args)
       then Cli.main_pr P (Config.getReposRoot P) args
       else Cli.main_direct P (Config.getReposRoot P) (repos_json P) args) io1
      = (Ret t, io2)
    ∧ Cli.main_artifacts P (Args.outputDir args) t io2 = (Ret plan, io').
Proof.
  unfold Cli.main. repeat (case_bool_decide; [done|]). intros Hmain.
  apply bind_Ret_inv in Hmain as (args & io1 & Hargs & Hmain).
  apply bind_Ret_inv in Hmain as (t & io2 & Ht & Hmain).
  by exists args, t, io1, io2.
Qed.

End MainFacts.

(** C3, amended.  When [main] resolves a pull request, the base branch is
    the [targetRefName] of the answer of the provider and the head branch
    its [sourceRefName], each without a leading [refs/heads/], where the
    answer is the one to the request made for the pull request as it was
    given: with the organisation, project and id of the URL when a URL was
    given, with the organisation and project of the settings when an id was
    given.  The repository path is [path.join(reposRoot, name)], where the
    name is the repository the answer names when an id was given, and the
    repository segment of the URL when a URL was given.  [stripRefsHeads]
    removes the prefix [refs/heads/] and leaves any other name alone; so
    [refs/heads/feature/y] and [refs/heads/main] resolve to [feature/y] and
    [main]. *)
Theorem pr_resolution (P : Platform) (argv : list jsstring) (io io' : IO)
    (plan : Plan.t) :
  Cli.main P argv io = (Ret plan, io') →
  is_Some (Plan.prId plan) →
  (∃ args io1,
     Cli.main_args P argv io = (Ret args, io1)
     ∧ truthy (Args.prIdOrUrl args) = true
     ∧ Stated.pr_resolved P (render (Args.prIdOrUrl args)) plan)
  ∧ (∀ name, Azure.stripRefsHeads (lit "refs/heads/" ++ name) = name)
  ∧ (∀ ref, startsWith ref (lit "refs/heads/") = false →
            Azure.stripRefsHeads ref = ref)
  ∧ Azure.stripRefsHeads (lit "refs/heads/feature/y") = lit "feature/y"
  ∧ Azure.stripRefsHeads (lit "refs/heads/main") = lit "main".
Proof.
  intros Hmain Hpr. split_and!.
  - apply main_inv in Hmain as (args & t & io1 & io2 & Hargs & Ht & Hplan).
    apply main_artifacts_inv in Hplan
      as (Hpath & Hbase & Hhead & HprId & Hname & _).
    exists args, io1. split; [done|].
    destruct (truthy (Args.prIdOrUrl args)).
    + split; [done|].
      apply main_pr_answered in Ht as (data & ? & ? & ? & ? & ? & Hrepo).
      exists data. rewrite Hpath, Hbase, Hhead, HprId, Hname. by split_and!.
    + apply main_direct_prId in Ht. rewrite HprId, Ht in Hpr.
      by destruct Hpr.
  - apply stripRefsHeads_prefix.
  - apply stripRefsHeads_other.
  - apply (stripRefsHeads_prefix (lit "feature/y")).
  - apply (stripRefsHeads_prefix (lit "main")).
Qed.

Lemma pr_resolution_witness :
  (∃ plan io',
     Cli.main Demo.home [lit "182370"] IO_start = (Ret plan, io')
     ∧ Plan.baseBranch plan = lit "main"
     ∧ Plan.headBranch plan = lit "feature/y"
     ∧ Plan.repoPath plan = lit "/home/dev/repos/Shop.Web"
     ∧ ∃ args io1,
         Cli.main_args Demo.home [lit "182370"] IO_start = (Ret args, io1)
         ∧ truthy (Args.prIdOrUrl args) = true
         ∧ Stated.pr_resolved Demo.home (render (Args.prIdOrUrl args)) plan)
  ∧ (∃ plan io',
       Cli.main Demo.home
         [lit "https://dev.azure.com/Contoso/Shop/_git/Shop.Api/pullrequest/182370"]
         IO_start = (Ret plan, io')
       ∧ Plan.repoPath plan = lit "/home/dev/repos/Shop.Api"
       ∧ ∃ args io1,
           Cli.main_args Demo.home
             [lit "https://dev.azure.com/Contoso/Shop/_git/Shop.Api/pullrequest/182370"]
             IO_start = (Ret args, io1)
           ∧ truthy (Args.prIdOrUrl args) = true
           ∧ Stated.pr_resolved Demo.home (render (Args.prIdOrUrl args)) plan).
Proof.
  split.
  - eexists _, _. split; [vm_compute; reflexivity|].
    split_and!; [reflexivity..|].
    refine (proj1 (pr_resolution Demo.home [lit "182370"] IO_start _ _ _ _)).
    + vm_compute. reflexivity.
    + by eexists.
  - eexists _, _. split; [vm_compute; reflexivity|].
    split; [reflexivity|].
    refine (proj1 (pr_resolution Demo.home
                     [lit "https://dev.azure.com/Contoso/Shop/_git/Shop.Api/pullrequest/182370"]
                     IO_start _ _ _ _)).
    + vm_compute. reflexivity.
    + by eexists.
Defined.

(** C3 as written fails for a URL whose repository segment is not the
    repository of the pull request it numbers: the provider is asked by
    project and id and names [Shop.Web], the path is built from the segment
    [Shop.Api]. *)
Lemma repository_of_the_answer_fails : ¬ Stated.repository_of_the_answer Demo.home.
Proof.
  intros H.
  destruct (H [lit "https://dev.azure.com/Contoso/Shop/_git/Shop.Api/pullrequest/182370"]
              IO_start _ _ ltac:(vm_compute; reflexivity) ltac:(by eexists))
    as (args & io1 & data & Hargs & Hanswer & _ & _ & Hpath).
  vm_compute in Hargs. injection Hargs as <- <-.
  assert (data = Demo.pullRequest) as ->.
  { destruct Hanswer as [[Hnone _] | (parsed & Hparsed & Hanswered)].
    - vm_compute in Hnone. discriminate.
    - vm_compute in Hparsed. injection Hparsed as <-.
      destruct Hanswered as (_ & _ & _ & response & Hfetch & _ & Hjson).
      vm_compute in Hfetch. injection Hfetch as <-.
      cbn [json] in Hjson. by injection Hjson as <-. }
  vm_compute in Hpath. discriminate.
Qed.

(** The same pull request given by its URL. *)
Example resolution_by_url :
  ∃ plan io',
    Cli.main Demo.home
      [lit "https://dev.azure.com/Contoso/Shop/_git/Shop.Web/pullrequest/182370"]
      IO_start = (Ret plan, io')
    ∧ Plan.baseBranch plan = lit "main"
    ∧ Plan.headBranch plan = lit "feature/y"
    ∧ Plan.repoPath plan = lit "/home/dev/repos/Shop.Web"
    ∧ Plan.diffFileName plan = lit ".182370.codehermit-diff.txt".
Proof.
  eexists _, _. split; [vm_compute; reflexivity|]. by split_and!.
Qed.

(** C2, amended.  The two names are computed from the pull-request id, the
    output directory and the two branch names, and from nothing else.  With
    an id that is present and not 0 they are [.<id>.codehermit-diff.txt] and
    [.<id>.codehermit-output.md]; otherwise, with an output directory that
    is a non-empty string, they embed [<base>_<head>] where in each branch
    name every [/], every [\] and every white-space character has become
    [_], so that no such character is left in the slug; otherwise they are
    [.codehermit-diff.txt] and [.codehermit-output.md]. *)
Theorem artifact_names (prId : option Z) (outputDir : option jsstring)
    (baseBranch headBranch : jsstring) :
  (∀ P argv io io' plan,
     Cli.main P argv io = (Ret plan, io') →
     Plan.diffFileName plan
     = Cli.diffFileName (Plan.prId plan) (Plan.outputDir plan)
         (Plan.baseBranch plan) (Plan.headBranch plan)
     ∧ Plan.outputFileName plan
       = Cli.outputFileName (Plan.prId plan) (Plan.outputDir plan)
           (Plan.baseBranch plan) (Plan.headBranch plan))
  ∧ (∀ n, prId = Some n → n ≠ 0 →
          Cli.diffFileName prId outputDir baseBranch headBranch
          = lit "." ++ of_Z n ++ lit ".codehermit-diff.txt"
          ∧ Cli.outputFileName prId outputDir baseBranch headBranch
            = lit "." ++ of_Z n ++ lit ".codehermit-output.md")
  ∧ (∀ dir, prId = None ∨ prId = Some 0 → outputDir = Some dir → dir ≠ [] →
            Cli.diffFileName prId outputDir baseBranch headBranch
            = lit "." ++ Cli.sanitizeBranchForFile baseBranch ++ lit "_"
              ++ Cli.sanitizeBranchForFile headBranch
              ++ lit ".codehermit-diff.txt"
            ∧ Cli.outputFileName prId outputDir baseBranch headBranch
              = lit "." ++ Cli.sanitizeBranchForFile baseBranch ++ lit "_"
                ++ Cli.sanitizeBranchForFile headBranch
                ++ lit ".codehermit-output.md")
  ∧ (prId = None ∨ prId = Some 0 → outputDir = None ∨ outputDir = Some [] →
     Cli.diffFileName prId outputDir baseBranch headBranch
     = lit ".codehermit-diff.txt"
     ∧ Cli.outputFileName prId outputDir baseBranch headBranch
       = lit ".codehermit-output.md")
  ∧ (∀ c, c ∈ Cli.sanitizeBranchForFile baseBranch ++ lit "_"
              ++ Cli.sanitizeBranchForFile headBranch →
          Cli.isPathSeparator c = false ∧ isWhiteSpace c = false)
  ∧ (∀ branch i c,
       branch !! i = Some c →
       Cli.sanitizeBranchForFile branch !! i
       = Some (if Cli.isPathSeparator c || isWhiteSpace c then 95%N else c)).
Proof.
  split_and!.
  - intros P argv io io' plan Hmain.
    apply main_inv in Hmain as (args & t & io1 & io2 & _ & _ & Hplan).
    apply main_artifacts_inv in Hplan
      as (_ & -> & -> & -> & _ & -> & -> & ->). done.
  - intros n -> Hn. unfold Cli.diffFileName, Cli.outputFileName. simpl.
    by rewrite (proj2 (Z.eqb_neq n 0) Hn).
  - intros [|c dir] Hpr -> Hdir; [done|].
    unfold Cli.diffFileName, Cli.outputFileName.
    by destruct Hpr as [-> | ->].
  - intros Hpr Hdir. unfold Cli.diffFileName, Cli.outputFileName.
    by destruct Hpr as [-> | ->], Hdir as [-> | ->].
  - intros c [Hc | [Hc | Hc]%elem_of_app]%elem_of_app.
    + by eapply sanitizeBranchForFile_clean.
    + apply list_elem_of_singleton in Hc as ->. done.
    + by eapply sanitizeBranchForFile_clean.
  - apply sanitizeBranchForFile_lookup.
Qed.

Lemma artifact_names_witness :
  Cli.diffFileName (Some 182370) None (lit "main") (lit "feature/y")
  = lit ".182370.codehermit-diff.txt"
  ∧ Cli.outputFileName None (Some (lit "./Reviews")) (lit "main")
      (lit "feature/z on\windows")
    = lit ".main_feature_z_on_windows.codehermit-output.md"
  ∧ Cli.diffFileName None None (lit "main") (lit "feature/x")
    = lit ".codehermit-diff.txt".
Proof.
  split_and!.
  - refine (proj1 (proj1 (proj2 (artifact_names (Some 182370) None (lit "main")
                                   (lit "feature/y"))) 182370 _ _));
      [reflexivity | lia].
  - refine (proj2 (proj1 (proj2 (proj2 (artifact_names None
                                          (Some (lit "./Reviews")) (lit "main")
                                          (lit "feature/z on\windows"))))
                     (lit "./Reviews") _ _ _));
      [by left | reflexivity | vm_compute; congruence].
  - refine (proj1 (proj1 (proj2 (proj2 (proj2 (artifact_names None None
                                                 (lit "main") (lit "feature/x")))))
                     _ _)); by left.
Defined.

(** C2 as written does not hold: a pull-request id that is present and is 0
    is not embedded; the names are the default ones. *)
Lemma present_prId_is_embedded_fails : ¬ Stated.present_prId_is_embedded.
Proof.
  intros H.
  destruct (H 0 None (lit "main") (lit "feature/x")) as [Hdiff _].
  vm_compute in Hdiff. discriminate.
Qed.

Example names_of_id_zero :
  Cli.diffFileName (Some 0) None (lit "main") (lit "feature/x")
  = lit ".codehermit-diff.txt"
  ∧ Cli.diffFileName None (Some (lit "")) (lit "main") (lit "feature/x")
    = lit ".codehermit-diff.txt".
Proof. split; reflexivity. Qed.

Lemma main_args_branches (P : Platform) (skipped : jsstring) (io : IO) :
  Cli.main_args P [lit "main"; lit "feature/z"; skipped; lit "./Reviews"] io
  = (Ret {| Args.prIdOrUrl := None; Args.base := Some (lit "main");
            Args.head := Some (lit "feature/z"); Args.repo := None;
            Args.outputDir := None |}, io).
Proof.
  unfold Cli.main_args.
  change (Cli.parseArgs [lit "main"; lit "feature/z"; skipped; lit "./Reviews"])
    with {| Args.prIdOrUrl := None; Args.base := Some (lit "main");
            Args.head := Some (lit "feature/z"); Args.repo := None;
            Args.outputDir := None |}.
  reflexivity.
Qed.

(** On every platform: started inside a clone with two branches followed by
    any token and [./Reviews], [main] asks nothing and plans the default
    names in the root of that clone. *)
Lemma main_ignores_trailing_output_dir (P : Platform) (skipped root : jsstring)
    (io io' : IO) (plan : Plan.t) :
  GetDiff.getRepoRoot P = Normal root →
  Cli.main P [lit "main"; lit "feature/z"; skipped; lit "./Reviews"] io
  = (Ret plan, io') →
  asked io' = asked io
  ∧ Plan.repoPath plan = root
  ∧ Plan.outputDir plan = None
  ∧ Plan.diffFileName plan = lit ".codehermit-diff.txt"
  ∧ Plan.outputFileName plan = lit ".codehermit-output.md"
  ∧ Plan.diffWritePath plan = None
  ∧ Plan.reviewOutputPath plan = path_join P [root; lit ".codehermit-output.md"].
Proof.
  intros Hroot Hmain.
  apply main_inv in Hmain as (args & t & io1 & io2 & Hargs & Ht & Hplan).
  rewrite main_args_branches in Hargs. injection Hargs as <- <-.
  cbn [Args.prIdOrUrl Args.outputDir truthy] in Ht, Hplan.
  assert (Cli.t_prId t = None ∧ Cli.t_repoPath t = root
          ∧ Cli.t_baseBranch t = lit "main"
          ∧ Cli.t_headBranch t = lit "feature/z" ∧ io2 = io) as (Hid & Hp & Hb & Hh & ->).
  { unfold Cli.main_direct in Ht.
    cbn [Args.base Args.head Args.repo Args.outputDir truthy] in Ht.
    rewrite Hroot in Ht.
    apply bind_Ret_inv in Ht as ([b h] & io3 & [[= <- <-] <-]%mret_Ret_inv & Ht).
    apply bind_Ret_inv in Ht as (u1 & io4 & [_ <-]%guard_Ret_inv & Ht).
    apply bind_Ret_inv in Ht as ([rp rn] & io5 & [[= <- <-] <-]%mret_Ret_inv & Ht).
    apply bind_Ret_inv in Ht as (u2 & io6 & [_ <-]%guard_Ret_inv & Ht).
    by apply mret_Ret_inv in Ht as [<- <-]. }
  pose proof (main_artifacts_inv P _ _ _ _ _ Hplan)
    as (Hpath & _ & _ & _ & _ & Hdir & Hdiff & Hout).
  pose proof (main_artifacts_places P _ _ _ _ _ Hplan) as (Hasked & Hw & Hr).
  rewrite Hid, Hb, Hh in Hdiff, Hout.
  cbn [truthy] in Hw, Hr. rewrite Hout, Hp in Hr.
  rewrite Hpath, Hp. by split_and!.
Qed.

(** C8: the code does not do what the claim says.  With the arguments
    [main feature/z --output-dir ./Reviews], [parseArgs] steps over the token
    that follows the head branch ([i += 2] and then [i++]), whatever it is:
    the flag is never seen, no output directory is recorded, its value is
    dropped as a stray positional.  Run inside a clone, [main] asks no
    question, and names and places the artifacts as if no directory had been
    requested.  With the flag in front of the branches the directory is
    recognised, the user is asked for the repository and the names embed
    [main_feature_z]. *)
Theorem output_dir_after_branches_is_dropped :
  (∀ skipped,
     Cli.parseArgs [lit "main"; lit "feature/z"; skipped; lit "./Reviews"]
     = {| Args.prIdOrUrl := None; Args.base := Some (lit "main");
          Args.head := Some (lit "feature/z"); Args.repo := None;
          Args.outputDir := None |})
  ∧ (∃ plan io',
       Cli.main (Demo.platform (lit "/home/dev/repos/Shop.Web") [lit "1"])
         [lit "main"; lit "feature/z"; lit "--output-dir"; lit "./Reviews"]
         IO_start = (Ret plan, io')
       ∧ asked io' = []
       ∧ Plan.outputDir plan = None
       ∧ Plan.diffFileName plan = lit ".codehermit-diff.txt"
       ∧ Plan.diffWritePath plan = None
       ∧ Plan.reviewOutputPath plan
         = lit "/home/dev/repos/Shop.Web/.codehermit-output.md")
  ∧ (∃ plan io',
       Cli.main (Demo.platform (lit "/home/dev/repos/Shop.Web") [lit "1"])
         [lit "--output-dir"; lit "./Reviews"; lit "main"; lit "feature/z"]
         IO_start = (Ret plan, io')
       ∧ asked io' = [lit "Repository name or number: "]
       ∧ Plan.outputDir plan = Some (lit "./Reviews")
       ∧ Plan.diffFileName plan = lit ".main_feature_z.codehermit-diff.txt"
       ∧ Plan.diffWritePath plan
         = Some (lit "/home/dev/repos/Shop.Web/Reviews/Shop.Web/.main_feature_z.codehermit-diff.txt")
       ∧ Plan.reviewOutputPath plan
         = lit "/home/dev/repos/Shop.Web/Reviews/Shop.Web/.main_feature_z.codehermit-output.md").
Proof.
  split_and!.
  - intros skipped. reflexivity.
  - eexists _, _. split; [vm_compute; reflexivity|]. by split_and!.
  - eexists _, _. split; [vm_compute; reflexivity|]. by split_and!.
Qed.

(** * Further properties of the code *)

(** ** Trimming *)

Section TrimFacts.

Lemma trimStart_pad (pad s : jsstring) :
  forallb isWhiteSpace pad = true → trimStart (pad ++ s) = trimStart s.
Proof.
  induction pad as [|c pad IH]; simpl; [done|].
  intros [Hc Hpad]%andb_prop. rewrite Hc. by apply IH.
Qed.

Lemma trimStart_all (pad : jsstring) :
  forallb isWhiteSpace pad = true → trimStart pad = [].
Proof.
  intros Hpad. rewrite <- (app_nil_r pad). by rewrite trimStart_pad.
Qed.

Lemma trimStart_app (s t : jsstring) :
  trimStart s ≠ [] → trimStart (s ++ t) = trimStart s ++ t.
Proof.
  induction s as [|c s IH]; simpl; [done|].
  destruct (isWhiteSpace c); [exact IH|done].
Qed.

Lemma trimStart_empty_all (s : jsstring) :
  trimStart s = [] → forallb isWhiteSpace s = true.
Proof.
  induction s as [|c s IH]; simpl; [done|].
  destruct (isWhiteSpace c); [exact IH|done].
Qed.

Lemma forallb_reverse {A} (f : A → bool) (l : list A) :
  forallb f (reverse l) = forallb f l.
Proof.
  induction l as [|x l IH]; [done|].
  rewrite reverse_cons, forallb_app, IH. simpl.
  rewrite andb_true_r. apply andb_comm.
Qed.

Lemma trimEnd_pad (s pad : jsstring) :
  forallb isWhiteSpace pad = true → trimEnd (s ++ pad) = trimEnd s.
Proof.
  intros Hpad. unfold trimEnd. rewrite reverse_app, trimStart_pad; [done|].
  by rewrite forallb_reverse.
Qed.

Lemma trimEnd_all (pad : jsstring) :
  forallb isWhiteSpace pad = true → trimEnd pad = [].
Proof.
  intros Hpad. rewrite <- (app_nil_l pad). by rewrite trimEnd_pad.
Qed.

Lemma trim_pad (before s after : jsstring) :
  forallb isWhiteSpace before = true → forallb isWhiteSpace after = true →
  trim (before ++ s ++ after) = trim s.
Proof.
  intros Hb Ha. unfold trim. rewrite trimStart_pad by done.
  destruct (trimStart s) as [|c u] eqn:Hs.
  - rewrite trimStart_all; [done|].
    rewrite forallb_app, Ha, andb_true_r. by apply trimStart_empty_all.
  - rewrite trimStart_app by (by rewrite Hs). rewrite Hs. by apply trimEnd_pad.
Qed.

(** A string that starts and ends with other characters than white space is
    its own trim. *)
Lemma trimStart_keeps (c : N) (s : jsstring) :
  isWhiteSpace c = false → trimStart (c :: s) = c :: s.
Proof. simpl. by intros ->. Qed.

Lemma trimEnd_keeps (s : jsstring) (c : N) :
  isWhiteSpace c = false → trimEnd (s ++ [c]) = s ++ [c].
Proof.
  intros Hc. unfold trimEnd. rewrite reverse_snoc, trimStart_keeps by done.
  by rewrite reverse_cons, reverse_involutive.
Qed.

End TrimFacts.

(** ** azure.ts: what [parsePrUrl] accepts *)

Section ParsePrUrlExact.
Context (P : Platform).

Lemma indexOf_from_found (arr : list jsstring) (x : jsstring) (i : Z) :
  indexOf_from arr x i ≠ -1 → 0 ≤ i →
  ∃ k : nat,
    indexOf_from arr x i = i + Z.of_nat k
    ∧ arr !! k = Some x
    ∧ ∀ j, (j < k)%nat → arr !! j ≠ Some x.
Proof.
  revert i; induction arr as [|y arr IH]; intros i Hne Hi; simpl in *; [done|].
  case_decide as Hy.
  - exists 0%nat. subst y. split_and!; [lia|done|lia].
  - destruct (IH (i + 1)) as (k & Hk & Hx & Hfirst); [done|lia|].
    exists (S k). split_and!; [lia|done|].
    intros [|j] Hj; simpl; [congruence|]. apply Hfirst. lia.
Qed.

Lemma indexOf_first_at (arr : list jsstring) (x : jsstring) (k : nat) :
  arr !! k = Some x → (∀ j, (j < k)%nat → arr !! j ≠ Some x) →
  indexOf arr x = Z.of_nat k.
Proof.
  intros Hk Hfirst. unfold indexOf.
  rewrite <- (take_drop_middle arr k x Hk).
  rewrite indexOf_from_first.
  - unfold len. rewrite length_take_le; [lia|].
    apply lookup_lt_Some in Hk. lia.
  - intros (j & Hj)%list_elem_of_lookup_1.
    pose proof (lookup_lt_Some _ _ _ Hj) as Hlt. rewrite length_take in Hlt.
    rewrite lookup_take_lt in Hj by lia. apply (Hfirst j); [lia|done].
Qed.

Lemma filter_Boolean_nonempty (parts : list jsstring) (k : nat) (s : jsstring) :
  filter_Boolean parts !! k = Some s → s ≠ [].
Proof.
  intros Hk. apply list_elem_of_lookup_2 in Hk.
  by apply list_elem_of_filter in Hk as [? _].
Qed.

(** X1.  [parsePrUrl] returns a record exactly when the trimmed string holds
    both markers, the URL constructor accepts it, and among the non-empty
    segments of the path a first [pullrequest] and a first [_git] are each
    followed by a segment; the record then holds the first two segments, the
    segment after [_git] and the segment after [pullrequest], none of them
    empty (and the id not necessarily a number). *)
Theorem parsePrUrl_accepts (url : jsstring) (x : ParsedUrl.t) :
  Azure.parsePrUrl P url = Normal (Some x)
  ↔ includes (trim url) (lit "dev.azure.com") = true
    ∧ includes (trim url) (lit "pullrequest") = true
    ∧ ∃ pathname (k g : nat) (o p r i : jsstring),
        URL_pathname P (trim url) = Normal pathname
        ∧ filter_Boolean (split 47 pathname) !! 0%nat = Some o
        ∧ filter_Boolean (split 47 pathname) !! 1%nat = Some p
        ∧ filter_Boolean (split 47 pathname) !! k = Some (lit "pullrequest")
        ∧ (∀ j, (j < k)%nat →
                filter_Boolean (split 47 pathname) !! j ≠ Some (lit "pullrequest"))
        ∧ filter_Boolean (split 47 pathname) !! S k = Some i
        ∧ filter_Boolean (split 47 pathname) !! g = Some (lit "_git")
        ∧ (∀ j, (j < g)%nat →
                filter_Boolean (split 47 pathname) !! j ≠ Some (lit "_git"))
        ∧ filter_Boolean (split 47 pathname) !! S g = Some r
        ∧ x = Stated.parsed o p r i
        ∧ o ≠ [] ∧ p ≠ [] ∧ r ≠ [] ∧ i ≠ [].
Proof.
  unfold Azure.parsePrUrl. split.
  - destruct (includes (trim url) (lit "dev.azure.com")); [|done].
    destruct (includes (trim url) (lit "pullrequest")); [|done].
    cbn [negb orb].
    destruct (URL_pathname P (trim url)) as [pathname|e]; [|done].
    cbn [mbind completion_bind try_catch].
    set (parts := filter_Boolean (split 47 pathname)).
    case_decide as Hpr; [done|]. case_decide as Hgit; [done|].
    case_decide as Hlen; [done|].
    cbn [try_catch]. intros [= <-].
    destruct (indexOf_from_found parts (lit "pullrequest") 0)
      as (k & Hk & Hkx & Hkfirst); [unfold indexOf in Hpr; tauto|lia|].
    destruct (indexOf_from_found parts (lit "_git") 0)
      as (g & Hg & Hgx & Hgfirst); [unfold indexOf in Hgit; tauto|lia|].
    fold (indexOf parts (lit "pullrequest")) in Hk.
    fold (indexOf parts (lit "_git")) in Hg.
    rewrite Hk in *. rewrite Hg in *. unfold len in *.
    assert (is_Some (parts !! 0%nat)) as [o Ho] by (apply lookup_lt_is_Some; lia).
    assert (is_Some (parts !! 1%nat)) as [p Hp] by (apply lookup_lt_is_Some; lia).
    assert (is_Some (parts !! S k)) as [i Hi] by (apply lookup_lt_is_Some; lia).
    assert (is_Some (parts !! S g)) as [r Hr] by (apply lookup_lt_is_Some; lia).
    split_and!; try done.
    exists pathname, k, g, o, p, r, i. split_and!; try done;
      try (by eapply filter_Boolean_nonempty).
    unfold Stated.parsed, at_index.
    rewrite !decide_False by lia.
    replace (Z.to_nat (0 + Z.of_nat k + 1)) with (S k) by lia.
    replace (Z.to_nat (0 + Z.of_nat g + 1)) with (S g) by lia.
    change (Z.to_nat 0) with 0%nat. change (Z.to_nat 1) with 1%nat.
    by rewrite Ho, Hp, Hi, Hr.
  - intros (-> & -> & pathname & k & g & o & p & r & i & -> & Ho & Hp & Hk
            & Hkfirst & Hi & Hg & Hgfirst & Hr & -> & _).
    cbn [negb orb mbind completion_bind try_catch].
    set (parts := filter_Boolean (split 47 pathname)) in *.
    rewrite (indexOf_first_at parts _ k Hk Hkfirst).
    rewrite (indexOf_first_at parts _ g Hg Hgfirst).
    pose proof (lookup_lt_Some _ _ _ Hi). pose proof (lookup_lt_Some _ _ _ Hr).
    unfold len. rewrite !decide_False by lia. cbn [try_catch].
    unfold Stated.parsed, at_index. rewrite !decide_False by lia.
    replace (Z.to_nat (Z.of_nat k + 1)) with (S k) by lia.
    replace (Z.to_nat (Z.of_nat g + 1)) with (S g) by lia.
    change (Z.to_nat 0) with 0%nat. change (Z.to_nat 1) with 1%nat.
    by rewrite Ho, Hp, Hi, Hr.
Qed.

(** X2.  White space around the string does not matter to [parsePrUrl]. *)
Theorem parsePrUrl_ignores_padding (before url after : jsstring) :
  forallb isWhiteSpace before = true → forallb isWhiteSpace after = true →
  Azure.parsePrUrl P (before ++ url ++ after) = Azure.parsePrUrl P url.
Proof.
  intros Hb Ha. unfold Azure.parsePrUrl. by rewrite trim_pad.
Qed.

End ParsePrUrlExact.

Lemma parsePrUrl_ignores_padding_witness :
  Azure.parsePrUrl Demo.home
    (lit "  " ++ lit "https://dev.azure.com/Contoso/Shop/_git/Shop.Web/pullrequest/7"
     ++ [9; 10]%N)
  = Azure.parsePrUrl Demo.home
      (lit "https://dev.azure.com/Contoso/Shop/_git/Shop.Web/pullrequest/7").
Proof.
  apply (parsePrUrl_ignores_padding Demo.home); reflexivity.
Defined.

(** ** azure.ts: [getPrDetails] *)

Section GetPrDetailsFacts.
Context (P : Platform).

Lemma dropTrailingSlash_slash (s : jsstring) :
  Azure.dropTrailingSlash (s ++ lit "/") = s.
Proof.
  unfold Azure.dropTrailingSlash. change (lit "/") with [47%N].
  by rewrite reverse_snoc, reverse_involutive.
Qed.

Lemma dropTrailingSlash_other (s : jsstring) :
  last s ≠ Some 47%N → Azure.dropTrailingSlash s = s.
Proof.
  unfold Azure.dropTrailingSlash. intros Hlast.
  destruct (reverse s) as [|c r] eqn:Hr; [done|].
  assert (s = reverse r ++ [c]) as ->.
  { by rewrite <- (reverse_involutive s), Hr, reverse_cons. }
  rewrite last_snoc in Hlast.
  destruct c as [|p]; [done|].
  repeat (destruct p as [p|p|]; try done).
Qed.

(** X3.  Without an organisation URL, a project or a token, [getPrDetails]
    throws its configuration error, whatever the network would answer; when
    the request itself fails its error is passed on; a 401 answer becomes the
    renewal advice, any other refusal [Failed to fetch pull request:] and the
    status text; an answer that is not JSON throws what parsing throws. *)
Theorem getPrDetails_errors (prId : jsstring)
    (orgUrlOverride projectOverride : option jsstring) :
  let org := nullish orgUrlOverride (AzureConfig.orgUrl (Azure.getAzureConfig P)) in
  let proj := nullish projectOverride (AzureConfig.project (Azure.getAzureConfig P)) in
  let pat := AzureConfig.pat (Azure.getAzureConfig P) in
  let url := Azure.dropTrailingSlash (render org) ++ lit "/" ++ render proj
             ++ lit "/_apis/git/pullrequests/" ++ prId ++ lit "?api-version=7.0" in
  let authorization := lit "Basic " ++ base64 P (lit ":" ++ trim (render pat)) in
  (truthy org = false ∨ truthy proj = false ∨ truthy pat = false →
   Azure.getPrDetails P prId orgUrlOverride projectOverride
   = Throw (lit "Missing Azure DevOps config. Set AZURE_ORG_URL (or AZURE_DEVOPS_ORG), AZURE_PROJECT (or AZURE_DEVOPS_PROJECT), and AZURE_PAT (or AZURE_DEVOPS_PAT) in .env."))
  ∧ (truthy org = true → truthy proj = true → truthy pat = true →
     (∀ e, fetch P url authorization = Throw e →
           Azure.getPrDetails P prId orgUrlOverride projectOverride = Throw e)
     ∧ (∀ response,
          fetch P url authorization = Normal response →
          ok response = false → status response = 401 →
          Azure.getPrDetails P prId orgUrlOverride projectOverride
          = Throw (lit "Azure DevOps returned Unauthorized. Check that AZURE_PAT (or AZURE_DEVOPS_PAT) in .env is correct, not expired, and has at least Code (Read) scope. Create or renew a PAT at: https://dev.azure.com/_usersSettings/tokens"))
     ∧ (∀ response,
          fetch P url authorization = Normal response →
          ok response = false → status response ≠ 401 →
          Azure.getPrDetails P prId orgUrlOverride projectOverride
          = Throw (lit "Failed to fetch pull request: " ++ statusText response))
     ∧ (∀ response e,
          fetch P url authorization = Normal response →
          ok response = true → json response = Throw e →
          Azure.getPrDetails P prId orgUrlOverride projectOverride = Throw e)
     ∧ (∀ response data,
          fetch P url authorization = Normal response →
          ok response = true → json response = Normal data →
          Azure.getPrDetails P prId orgUrlOverride projectOverride
          = Normal {| PrDetails.repository := repository_name data;
                      PrDetails.sourceBranch := Azure.stripRefsHeads (sourceRefName data);
                      PrDetails.targetBranch := Azure.stripRefsHeads (targetRefName data);
                      PrDetails.pullRequestId := pullRequestId data |})).
Proof.
  intros org proj pat url authorization. unfold Azure.getPrDetails.
  fold org proj pat. split.
  - intros [-> | [-> | ->]]; by rewrite ?orb_true_r.
  - intros -> -> ->. cbn [negb orb]. fold url authorization. split_and!.
    + by intros e ->.
    + intros response -> Hok H401. cbn [mbind completion_bind].
      rewrite Hok. cbn [negb]. by rewrite decide_True.
    + intros response -> Hok H401. cbn [mbind completion_bind].
      rewrite Hok. cbn [negb]. by rewrite decide_False.
    + intros response e -> Hok Hjson. cbn [mbind completion_bind].
      rewrite Hok. cbn [negb]. by rewrite Hjson.
    + intros response data -> Hok Hjson. cbn [mbind completion_bind].
      rewrite Hok. cbn [negb]. by rewrite Hjson.
Qed.

End GetPrDetailsFacts.

(** X4.  A slash at the end of [AZURE_ORG_URL] changes nothing: the lookup
    behaves as with the same URL without it. *)
Theorem getPrDetails_trailing_slash (P : Platform) (e : gmap string jsstring)
    (orgUrl prId : jsstring) (projectOverride : option jsstring) :
  orgUrl ≠ [] → last orgUrl ≠ Some 47%N →
  Azure.getPrDetails
    (Demo.with_env (<["AZURE_ORG_URL"%string := orgUrl ++ lit "/"]> e) P)
    prId None projectOverride
  = Azure.getPrDetails
      (Demo.with_env (<["AZURE_ORG_URL"%string := orgUrl]> e) P)
      prId None projectOverride.
Proof.
  intros Hne Hlast. unfold Azure.getPrDetails, Azure.getAzureConfig, Azure.getenv.
  cbn [env Demo.with_env base64 fetch nullish AzureConfig.orgUrl
       AzureConfig.project AzureConfig.pat].
  rewrite !lookup_insert_eq.
  rewrite !lookup_insert_ne by done.
  assert (Htruthy : ∀ s : jsstring, s ≠ [] → truthy (Some s) = true)
    by (by intros [|??]).
  assert (Hor : ∀ (s : jsstring) b, s ≠ [] → or_else (Some s) b = Some s)
    by (by intros [|??]).
  rewrite (Hor (orgUrl ++ lit "/")) by (by destruct orgUrl).
  rewrite (Hor orgUrl) by done.
  rewrite (Htruthy orgUrl Hne), (Htruthy (orgUrl ++ lit "/")) by (by destruct orgUrl).
  change (render (Some (orgUrl ++ lit "/"))) with (orgUrl ++ lit "/").
  change (render (Some orgUrl)) with orgUrl.
  by rewrite dropTrailingSlash_slash, dropTrailingSlash_other.
Qed.

Lemma getPrDetails_trailing_slash_witness :
  Azure.getPrDetails
    (Demo.with_env
       (<["AZURE_ORG_URL"%string := lit "https://dev.azure.com/Contoso" ++ lit "/"]>
          Demo.environment) Demo.home)
    (lit "182370") None None
  = Azure.getPrDetails
      (Demo.with_env
         (<["AZURE_ORG_URL"%string := lit "https://dev.azure.com/Contoso"]>
            Demo.environment) Demo.home)
      (lit "182370") None None.
Proof.
  apply (getPrDetails_trailing_slash Demo.home Demo.environment); vm_compute; congruence.
Defined.

(** X5.  With the organisation URL and the project given by the caller (as
    [main] does for a pull-request URL), [AZURE_ORG_URL], [AZURE_DEVOPS_ORG],
    [AZURE_PROJECT] and [AZURE_DEVOPS_PROJECT] are not looked at: two
    environments with the same token give the same result. *)
Theorem getPrDetails_overrides (P : Platform) (e1 e2 : gmap string jsstring)
    (prId orgUrl project : jsstring) :
  or_else (e1 !! "AZURE_PAT"%string) (e1 !! "AZURE_DEVOPS_PAT"%string)
  = or_else (e2 !! "AZURE_PAT"%string) (e2 !! "AZURE_DEVOPS_PAT"%string) →
  Azure.getPrDetails (Demo.with_env e1 P) prId (Some orgUrl) (Some project)
  = Azure.getPrDetails (Demo.with_env e2 P) prId (Some orgUrl) (Some project).
Proof.
  intros Hpat. unfold Azure.getPrDetails, Azure.getAzureConfig, Azure.getenv.
  cbn [env Demo.with_env base64 fetch nullish AzureConfig.orgUrl
       AzureConfig.project AzureConfig.pat].
  by rewrite Hpat.
Qed.

Lemma getPrDetails_overrides_witness :
  Azure.getPrDetails (Demo.with_env {[ "AZURE_PAT"%string := lit "s3cret" ]} Demo.home)
    (lit "182370") (Some (lit "https://dev.azure.com/Contoso")) (Some (lit "Shop"))
  = Azure.getPrDetails (Demo.with_env Demo.environment Demo.home)
      (lit "182370") (Some (lit "https://dev.azure.com/Contoso")) (Some (lit "Shop")).
Proof.
  apply (getPrDetails_overrides Demo.home). vm_compute. reflexivity.
Defined.

Lemma getPrDetails_errors_witness :
  Azure.getPrDetails (Demo.with_env ∅ Demo.home) (lit "182370") None None
  = Throw (lit "Missing Azure DevOps config. Set AZURE_ORG_URL (or AZURE_DEVOPS_ORG), AZURE_PROJECT (or AZURE_DEVOPS_PROJECT), and AZURE_PAT (or AZURE_DEVOPS_PAT) in .env.")
  ∧ Azure.getPrDetails
      (Demo.with_env (<["AZURE_PAT"%string := lit "expired"]> Demo.environment)
         Demo.home) (lit "182370") None None
    = Throw (lit "Azure DevOps returned Unauthorized. Check that AZURE_PAT (or AZURE_DEVOPS_PAT) in .env is correct, not expired, and has at least Code (Read) scope. Create or renew a PAT at: https://dev.azure.com/_usersSettings/tokens")
  ∧ Azure.getPrDetails Demo.home (lit "999") None None
    = Throw (lit "Failed to fetch pull request: Not Found").
Proof.
  split_and!.
  - refine (proj1 (getPrDetails_errors (Demo.with_env ∅ Demo.home) _ _ _) _).
    left. vm_compute. reflexivity.
  - refine (proj1 (proj2 (proj2 (getPrDetails_errors _ _ _ _) _ _ _)) _ _ _ _);
      vm_compute; reflexivity.
  - refine (proj1 (proj2 (proj2 (proj2 (getPrDetails_errors _ _ _ _) _ _ _)))
              {| ok := false; status := 404; statusText := lit "Not Found";
                 json := Throw (lit "Unexpected end of JSON input") |} _ _ _);
      vm_compute; congruence.
Defined.

(** ** get-diff.ts: refs *)

(** X6.  [toRef] is idempotent: a ref it has produced is left as it is. *)
Theorem toRef_idempotent (ref : jsstring) :
  GetDiff.toRef (GetDiff.toRef ref) = GetDiff.toRef ref.
Proof. apply toRef_prefixed, toRef_is_remote_or_full. Qed.

(** X7.  From the answer of the provider to the diff: a ref
    [refs/heads/<name>] is compared as [origin/<name>], unless [<name>]
    itself starts with [origin/] or [refs/], in which case [<name>] is used
    as it is; a ref under [refs/] but not under [refs/heads/] is used whole. *)
Theorem provider_ref_to_diff_ref (name ref : jsstring) :
  (startsWith name (lit "origin/") = false →
   startsWith name (lit "refs/") = false →
   GetDiff.toRef (Azure.stripRefsHeads (lit "refs/heads/" ++ name))
   = lit "origin/" ++ name)
  ∧ (startsWith name (lit "origin/") = true
     ∨ startsWith name (lit "refs/") = true →
     GetDiff.toRef (Azure.stripRefsHeads (lit "refs/heads/" ++ name)) = name)
  ∧ (startsWith ref (lit "refs/") = true →
     startsWith ref (lit "refs/heads/") = false →
     GetDiff.toRef (Azure.stripRefsHeads ref) = ref).
Proof.
  split_and!.
  - intros. rewrite stripRefsHeads_prefix. by apply toRef_unprefixed.
  - intros. rewrite stripRefsHeads_prefix. by apply toRef_prefixed.
  - intros. rewrite stripRefsHeads_other by done. apply toRef_prefixed. by right.
Qed.

Lemma provider_ref_to_diff_ref_witness :
  GetDiff.toRef (Azure.stripRefsHeads (lit "refs/heads/" ++ lit "feature/y"))
  = lit "origin/" ++ lit "feature/y"
  ∧ GetDiff.toRef (Azure.stripRefsHeads (lit "refs/heads/" ++ lit "origin/hotfix"))
    = lit "origin/hotfix"
  ∧ GetDiff.toRef (Azure.stripRefsHeads (lit "refs/pull/7/merge"))
    = lit "refs/pull/7/merge".
Proof.
  split_and!.
  - apply (provider_ref_to_diff_ref (lit "feature/y") []); reflexivity.
  - apply (proj1 (proj2 (provider_ref_to_diff_ref (lit "origin/hotfix") []))).
    by left.
  - apply (proj2 (proj2 (provider_ref_to_diff_ref [] (lit "refs/pull/7/merge"))));
      reflexivity.
Defined.

(** ** cli.ts: [parseArgs] *)

Section ParseArgsFacts.

Lemma lookup_after (pre argv : list jsstring) (j : nat) :
  (pre ++ argv) !! (length pre + j)%nat = argv !! j.
Proof. rewrite lookup_app_r by lia. f_equal. lia. Qed.

(** What was parsed does not matter to what follows, only the index and the
    record do. *)
Lemma parseArgs_loop_shift (fuel : nat) (pre argv : list jsstring) (i : nat)
    (result : Args.t) :
  Cli.parseArgs_loop fuel (pre ++ argv) (length pre + i) result
  = Cli.parseArgs_loop fuel argv i result.
Proof.
  revert i result. induction fuel as [|fuel IH]; intros i result; [done|].
  cbn [Cli.parseArgs_loop]. rewrite lookup_after.
  destruct (argv !! i) as [arg|]; [|done].
  replace (length pre + i + 1)%nat with (length pre + (i + 1))%nat by lia.
  rewrite lookup_after.
  replace (length pre + i + 2)%nat with (length pre + (i + 2))%nat by lia.
  replace (length pre + (i + 2) + 1)%nat with (length pre + (i + 2 + 1))%nat by lia.
  repeat match goal with
         | |- context [if ?b then _ else _] => destruct b
         end; apply IH.
Qed.

Lemma parseArgs_after (pre rest : list jsstring) (result : Args.t) (fuel : nat) :
  (length rest ≤ fuel)%nat →
  Cli.parseArgs_loop fuel (pre ++ rest) (length pre) result
  = Cli.parseArgs_loop (length rest) rest 0 result.
Proof.
  intros Hfuel.
  rewrite <- (Nat.add_0_r (length pre)) at 1. rewrite parseArgs_loop_shift.
  apply parseArgs_loop_fuel; lia.
Qed.

Lemma not_dash_not_flag (arg : jsstring) (long short : string) :
  startsWith (lit long) (lit "-") = true →
  startsWith (lit short) (lit "-") = true →
  startsWith arg (lit "-") = false → Cli.is_flag arg long short = false.
Proof.
  intros Hl Hs Harg. unfold Cli.is_flag.
  rewrite !bool_decide_eq_false_2; [done| |]; intros ->; congruence.
Qed.

End ParseArgsFacts.

Section ParseArgsTheorems.

Lemma branch_like_step (fuel : nat) (argv : list jsstring) (i : nat)
    (b : jsstring) (result : Args.t) :
  argv !! i = Some b → Token.branch_like b = true →
  truthy (Args.prIdOrUrl result) = false → truthy (Args.base result) = false →
  Cli.parseArgs_loop (S fuel) argv i result
  = Cli.parseArgs_loop fuel argv (i + 2 + 1)
      (Args.set_head (argv !! (i + 1)%nat) (Args.set_base (Some b) result)).
Proof.
  intros Hb [[Hdash Hdigits]%andb_prop Hurl]%andb_prop Hpr Hbase.
  apply negb_true_iff in Hdash, Hdigits, Hurl.
  cbn [Cli.parseArgs_loop]. rewrite Hb.
  rewrite !not_dash_not_flag by done.
  by rewrite Hdash, Hpr, Hbase, Hdigits, Hurl.
Qed.

Lemma after_two_branches (b h skipped : jsstring) (rest : list jsstring) :
  Token.branch_like b = true →
  Cli.parseArgs (b :: h :: skipped :: rest)
  = Cli.parseArgs_loop (length rest) rest 0
      (Args.set_head (Some h) (Args.set_base (Some b) Args.empty)).
Proof.
  intros Hb. unfold Cli.parseArgs. cbn [length].
  rewrite (branch_like_step _ _ 0 b) by done.
  change (b :: h :: skipped :: rest) with ([b; h; skipped] ++ rest).
  change (0 + 2 + 1)%nat with (length [b; h; skipped]).
  rewrite parseArgs_after by lia. done.
Qed.

(** X8.  When the first token is taken for a base branch, the second is the
    head branch whatever it is, the third is stepped over unread, and the
    rest is parsed with the two branches recorded: an option placed right
    after the branches is lost together with its meaning. *)
Theorem parseArgs_after_branches (b h skipped : jsstring) (rest : list jsstring) :
  Token.branch_like b = true →
  Cli.parseArgs (b :: h :: skipped :: rest)
  = Cli.parseArgs_loop (length rest) rest 0
      (Args.set_head (Some h) (Args.set_base (Some b) Args.empty)).
Proof. apply after_two_branches. Qed.

Lemma parseArgs_after_branches_witness :
  Cli.parseArgs [lit "main"; lit "--repo"; lit "Shop.Web"; lit "-o"; lit "out"]
  = Cli.parseArgs_loop 2 [lit "-o"; lit "out"] 0
      (Args.set_head (Some (lit "--repo"))
         (Args.set_base (Some (lit "main")) Args.empty)).
Proof.
  apply (parseArgs_after_branches (lit "main") (lit "--repo") (lit "Shop.Web")
           [lit "-o"; lit "out"]).
  reflexivity.
Defined.

Lemma leading_option (set : option jsstring → Args.t → Args.t)
    (flag value : jsstring) (rest : list jsstring) :
  (∀ fuel argv i result,
     argv !! i = Some flag →
     Cli.parseArgs_loop (S fuel) argv i result
     = Cli.parseArgs_loop fuel argv (i + 2) (set (argv !! (i + 1)%nat) result)) →
  Cli.parseArgs (flag :: value :: rest)
  = Cli.parseArgs_loop (length rest) rest 0 (set (Some value) Args.empty).
Proof.
  intros Hstep. unfold Cli.parseArgs. cbn [length].
  rewrite (Hstep _ _ 0%nat) by done.
  change (flag :: value :: rest) with ([flag; value] ++ rest).
  change (0 + 2)%nat with (length [flag; value]).
  by rewrite parseArgs_after by lia.
Qed.

(** X9.  An option in front consumes exactly the token that follows it, and
    the rest of the command line is parsed with that value recorded: options
    given before the positional arguments are never lost. *)
Theorem parseArgs_leading_option (value : jsstring) (rest : list jsstring) :
  (∀ flag, flag = lit "--pr" ∨ flag = lit "-p" →
     Cli.parseArgs (flag :: value :: rest)
     = Cli.parseArgs_loop (length rest) rest 0
         (Args.set_prIdOrUrl (Some value) Args.empty))
  ∧ (∀ flag, flag = lit "--output-dir" ∨ flag = lit "-o" →
       Cli.parseArgs (flag :: value :: rest)
       = Cli.parseArgs_loop (length rest) rest 0
           (Args.set_outputDir (Some value) Args.empty))
  ∧ (∀ flag, flag = lit "--base" ∨ flag = lit "-b" →
       Cli.parseArgs (flag :: value :: rest)
       = Cli.parseArgs_loop (length rest) rest 0
           (Args.set_base (Some value) Args.empty))
  ∧ (∀ flag, flag = lit "--head" ∨ flag = lit "-h" →
       Cli.parseArgs (flag :: value :: rest)
       = Cli.parseArgs_loop (length rest) rest 0
           (Args.set_head (Some value) Args.empty))
  ∧ (∀ flag, flag = lit "--repo" ∨ flag = lit "-r" →
       Cli.parseArgs (flag :: value :: rest)
       = Cli.parseArgs_loop (length rest) rest 0
           (Args.set_repo (Some value) Args.empty)).
Proof.
  split_and!; intros flag [-> | ->]; apply leading_option;
    intros fuel argv i result Hflag; cbn [Cli.parseArgs_loop];
    rewrite Hflag; reflexivity.
Qed.

Lemma parseArgs_leading_option_witness :
  Cli.parseArgs [lit "--output-dir"; lit "./Reviews"; lit "main"; lit "feature/z"]
  = Cli.parseArgs_loop 2 [lit "main"; lit "feature/z"] 0
      (Args.set_outputDir (Some (lit "./Reviews")) Args.empty).
Proof.
  apply (proj1 (proj2 (parseArgs_leading_option (lit "./Reviews")
                         [lit "main"; lit "feature/z"]))).
  by left.
Defined.

Lemma loop_ignores_positionals (fuel : nat) (argv : list jsstring) (i : nat)
    (result : Args.t) :
  truthy (Args.prIdOrUrl result) = true ∨ truthy (Args.base result) = true →
  (∀ j arg, (i ≤ j)%nat → argv !! j = Some arg → Token.positional arg = true) →
  Cli.parseArgs_loop fuel argv i result = result.
Proof.
  intros Hset. revert i. induction fuel as [|fuel IH]; intros i Hpos; [done|].
  cbn [Cli.parseArgs_loop].
  destruct (argv !! i) as [arg|] eqn:Harg; [|done].
  pose proof (Hpos i arg (le_n _) Harg) as Hdash.
  apply negb_true_iff in Hdash.
  rewrite !not_dash_not_flag by done. rewrite Hdash.
  assert (negb (truthy (Args.prIdOrUrl result))
          && negb (truthy (Args.base result)) = false) as ->.
  { destruct Hset as [-> | ->]; by rewrite ?andb_false_r. }
  apply IH. intros j a Hj. apply Hpos. lia.
Qed.

Lemma pr_like_first (first : jsstring) (rest : list jsstring) :
  Forall (λ arg, Token.positional arg = true) rest →
  Token.pr_like first = true →
  Cli.parseArgs (first :: rest) = Args.set_prIdOrUrl (Some first) Args.empty.
Proof.
  intros Hrest [Hdash Hpr]%andb_prop. apply negb_true_iff in Hdash.
  assert (first ≠ []) as Hne.
  { intros ->. by vm_compute in Hpr. }
  unfold Cli.parseArgs. cbn [length Cli.parseArgs_loop lookup list_lookup].
  rewrite !not_dash_not_flag by done. rewrite Hdash. cbn [truthy negb andb].
  assert (Cli.parseArgs_loop (length rest) (first :: rest) (0 + 1)
            (Args.set_prIdOrUrl (Some first) Args.empty)
          = Args.set_prIdOrUrl (Some first) Args.empty) as Hloop.
  { apply loop_ignores_positionals.
    - left. by destruct first.
    - intros [|j] arg Hj Harg; [lia|]. simpl in Harg.
      rewrite Forall_lookup in Hrest. by eapply Hrest. }
  destruct (all_digits first); [exact Hloop|].
  simpl in Hpr. rewrite Hpr. exact Hloop.
Qed.

(** X10.  A first token that looks like a pull request (digits only, or a
    string holding [dev.azure.com] and [pullrequest]) becomes [prIdOrUrl],
    and every positional token after it is ignored; after two branches and
    the skipped token, further positional tokens are ignored as well. *)
Theorem parseArgs_extra_positionals (first : jsstring) (rest : list jsstring) :
  Forall (λ arg, Token.positional arg = true) rest →
  (Token.pr_like first = true →
   Cli.parseArgs (first :: rest)
   = Args.set_prIdOrUrl (Some first) Args.empty)
  ∧ (Token.branch_like first = true → first ≠ [] →
     ∀ h skipped,
       Cli.parseArgs (first :: h :: skipped :: rest)
       = Args.set_head (Some h) (Args.set_base (Some first) Args.empty)).
Proof.
  intros Hrest. split.
  - by apply pr_like_first.
  - intros Hb Hne h skipped. rewrite after_two_branches by done.
    apply loop_ignores_positionals.
    + right. by destruct first.
    + intros j arg _ Harg. rewrite Forall_lookup in Hrest. by eapply Hrest.
Qed.

Lemma parseArgs_extra_positionals_witness :
  Cli.parseArgs [lit "182370"; lit "main"; lit "feature/z"]
  = Args.set_prIdOrUrl (Some (lit "182370")) Args.empty.
Proof.
  apply (parseArgs_extra_positionals (lit "182370") [lit "main"; lit "feature/z"]).
  - by repeat constructor.
  - reflexivity.
Defined.

End ParseArgsTheorems.

(** ** cli.ts: artifact names *)

Section NamingFacts.

Lemma sanitize_as_map (branch : jsstring) :
  Cli.sanitizeBranchForFile branch
  = (λ c, if Cli.isPathSeparator c || isWhiteSpace c then 95%N else c) <$> branch.
Proof.
  apply list_eq. intros i.
  destruct (branch !! i) as [c|] eqn:Hc.
  - rewrite (sanitizeBranchForFile_lookup _ _ _ Hc).
    by rewrite list_lookup_fmap, Hc.
  - rewrite list_lookup_fmap, Hc. simpl.
    apply lookup_ge_None. unfold Cli.sanitizeBranchForFile.
    rewrite !replace_class_length. by apply lookup_ge_None.
Qed.

(** X11.  Sanitizing is idempotent, keeps the length, and leaves a name
    without separators and white space as it is. *)
Theorem sanitizeBranchForFile_idempotent (branch : jsstring) :
  Cli.sanitizeBranchForFile (Cli.sanitizeBranchForFile branch)
  = Cli.sanitizeBranchForFile branch
  ∧ length (Cli.sanitizeBranchForFile branch) = length branch
  ∧ (forallb (λ c, negb (Cli.isPathSeparator c || isWhiteSpace c)) branch = true →
     Cli.sanitizeBranchForFile branch = branch).
Proof.
  split_and!.
  - rewrite !sanitize_as_map, <- list_fmap_compose.
    apply list_fmap_ext. intros _ c _. simpl.
    destruct (Cli.isPathSeparator c || isWhiteSpace c) eqn:Hc; [done|].
    by rewrite Hc.
  - unfold Cli.sanitizeBranchForFile. by rewrite !replace_class_length.
  - intros Hclean. rewrite sanitize_as_map.
    induction branch as [|c branch IH]; [done|].
    simpl in *. apply andb_prop in Hclean as [Hc Hrest].
    apply negb_true_iff in Hc. rewrite Hc. f_equal. by apply IH.
Qed.

Lemma sanitize_app (s t : jsstring) :
  Cli.sanitizeBranchForFile (s ++ t)
  = Cli.sanitizeBranchForFile s ++ Cli.sanitizeBranchForFile t.
Proof. rewrite !sanitize_as_map. apply fmap_app. Qed.

(** X12.  The slug does not identify the branches.  A separator or a white
    space in a branch name and an underscore in its place give the same
    names, and so does moving the border between base and head across an
    underscore: such pairs of branches overwrite each other's artifacts. *)
Theorem artifact_names_collide (outputDir : option jsstring)
    (x y z : jsstring) (c : N) :
  Cli.isPathSeparator c || isWhiteSpace c = true →
  (∀ other,
     Cli.diffFileName None outputDir (x ++ [c] ++ y) other
     = Cli.diffFileName None outputDir (x ++ lit "_" ++ y) other
     ∧ Cli.outputFileName None outputDir other (x ++ [c] ++ y)
       = Cli.outputFileName None outputDir other (x ++ lit "_" ++ y))
  ∧ Cli.diffFileName None outputDir (x ++ [c] ++ y) z
    = Cli.diffFileName None outputDir x (y ++ lit "_" ++ z)
  ∧ Cli.outputFileName None outputDir (x ++ [c] ++ y) z
    = Cli.outputFileName None outputDir x (y ++ lit "_" ++ z).
Proof.
  intros Hc.
  assert (Cli.sanitizeBranchForFile [c] = lit "_") as Hone.
  { rewrite sanitize_as_map. simpl. by rewrite Hc. }
  assert (Cli.sanitizeBranchForFile (lit "_") = lit "_") as Hunder by done.
  unfold Cli.diffFileName, Cli.outputFileName. cbn [Cli.truthy_number].
  destruct (truthy outputDir); [|done].
  split_and!; [intros other; split|..];
    rewrite !sanitize_app, ?Hone, ?Hunder, <- ?(assoc_L (++)); done.
Qed.

Lemma artifact_names_collide_witness :
  Cli.diffFileName None (Some (lit "out")) (lit "release" ++ [47%N] ++ lit "1.0")
    (lit "fix")
  = Cli.diffFileName None (Some (lit "out")) (lit "release")
      (lit "1.0" ++ lit "_" ++ lit "fix").
Proof.
  apply (artifact_names_collide (Some (lit "out")) (lit "release") (lit "1.0")
           (lit "fix") 47).
  reflexivity.
Defined.

End NamingFacts.
(** ** cli.ts: choosing a repository *)

Section ParseIntFacts.

Lemma lit_String (a : ascii) (s : string) :
  lit (String a s) = N_of_ascii a :: lit s.
Proof. done. Qed.

Lemma isDigit_cases (c : N) :
  isDigit c = true →
  (c = 48 ∨ c = 49 ∨ c = 50 ∨ c = 51 ∨ c = 52 ∨ c = 53 ∨ c = 54 ∨ c = 55
   ∨ c = 56 ∨ c = 57)%N.
Proof. unfold isDigit. rewrite andb_true_iff, !N.leb_le. lia. Qed.

(** A string that starts with a digit is read up to its first non-digit. *)
Lemma parseInt10_digit (c : N) (s : jsstring) :
  isDigit c = true →
  Cli.parseInt10 (c :: s) = Some (Cli.digits_value (c :: Cli.digits_prefix s)).
Proof.
  intros Hc. unfold Cli.parseInt10. cbn [trimStart Cli.digits_prefix].
  assert (isWhiteSpace c = false) as ->.
  { destruct (isDigit_cases c Hc) as [->|[->|[->|[->|[->|[->|[->|[->|[->| ->]]]]]]]]];
      done. }
  destruct (isDigit_cases c Hc) as [->|[->|[->|[->|[->|[->|[->|[->|[->| ->]]]]]]]]];
    cbn [Cli.digits_prefix]; change (isDigit _) with true; cbn iota;
    rewrite Z.mul_1_l; done.
Qed.

Lemma digits_prefix_uint (d : Decimal.uint) (rest : jsstring) :
  (match rest with c :: _ => isDigit c = false | [] => True end) →
  Cli.digits_prefix (lit (NilEmpty.string_of_uint d) ++ rest)
  = lit (NilEmpty.string_of_uint d).
Proof.
  intros Hrest. induction d; cbn [NilEmpty.string_of_uint];
    rewrite ?lit_String; cbn [app Cli.digits_prefix];
    try (change (isDigit (N_of_ascii _)) with true; cbn iota; by f_equal).
  destruct rest as [|c rest]; [done|]. cbn. by rewrite Hrest.
Qed.

Lemma foldl_digits_acc (d : Decimal.uint) (acc : positive) :
  foldl (λ acc c, 10 * acc + (Z.of_N c - 48)) (Z.pos acc)
    (lit (NilEmpty.string_of_uint d))
  = Z.pos (Pos.of_uint_acc d acc).
Proof.
  revert acc. induction d; intros acc; cbn [NilEmpty.string_of_uint Pos.of_uint_acc];
    rewrite ?lit_String; [done|..]; cbn [foldl]; rewrite <- IHd; f_equal;
    vm_compute (Z.of_N (N_of_ascii _)); lia.
Qed.

Lemma digits_value_uint (d : Decimal.uint) :
  Cli.digits_value (lit (NilEmpty.string_of_uint d)) = Z.of_N (Pos.of_uint d).
Proof.
  unfold Cli.digits_value.
  induction d; cbn [NilEmpty.string_of_uint Pos.of_uint];
    rewrite ?lit_String; [done|..]; cbn [foldl];
    vm_compute (Z.of_N (N_of_ascii _));
    first [ exact IHd | apply (foldl_digits_acc d) ].
Qed.

Lemma parseInt10_uint (d : Decimal.uint) (rest : jsstring) :
  d ≠ Decimal.Nil →
  (match rest with c :: _ => isDigit c = false | [] => True end) →
  Cli.parseInt10 (lit (NilEmpty.string_of_uint d) ++ rest)
  = Some (Z.of_N (Pos.of_uint d)).
Proof.
  intros Hd Hrest.
  destruct d; [done|..]; cbn [NilEmpty.string_of_uint];
    rewrite lit_String; cbn [app]; rewrite parseInt10_digit by done;
    rewrite (digits_prefix_uint d rest Hrest); f_equal;
    match goal with
    | |- _ = Z.of_N (Pos.of_uint ?u) => rewrite <- (digits_value_uint u)
    end; cbn [NilEmpty.string_of_uint]; by rewrite lit_String.
Qed.

(** What [String(n)] prints, [parseInt] reads back, also when other text
    follows the digits. *)
Lemma parseInt10_of_Z (n : Z) (rest : jsstring) :
  0 ≤ n →
  (match rest with c :: _ => isDigit c = false | [] => True end) →
  Cli.parseInt10 (of_Z n ++ rest) = Some n.
Proof.
  intros Hn Hrest. unfold of_Z. destruct n as [|p|p]; [| |lia].
  - cbn [Z.to_int NilZero.string_of_int NilZero.string_of_uint].
    apply (parseInt10_uint (Decimal.D0 Decimal.Nil)); done.
  - cbn [Z.to_int NilZero.string_of_int]. unfold NilZero.string_of_uint.
    pose proof (DecimalPos.Unsigned.to_uint_nonnil p) as Hnil.
    destruct (Pos.to_uint p) eqn:Hp; [done|..]; rewrite <- Hp;
      rewrite parseInt10_uint by (done || congruence);
      by rewrite DecimalPos.Unsigned.of_to.
Qed.

End ParseIntFacts.
Section PromptForRepoFacts.
Context (P : Platform).

Lemma bind_run {A B} (m : M A) (f : A → M B) (io io1 : IO) (a : A) :
  m io = (Ret a, io1) → (m ≫= f) io = f a io1.
Proof. unfold mbind, M_bind. by intros ->. Qed.

Lemma print_numbered_run (k : Z) (repos : list jsstring) (io : IO) :
  Cli.print_numbered k repos io
  = (Ret (),
     {| console := console io
          ++ imap (λ i r, (Stdout,
                           lit "  " ++ of_Z (k + Z.of_nat i + 1) ++ lit ". " ++ r))
               repos;
        asked := asked io |}).
Proof.
  revert k io. induction repos as [|r repos IH]; intros k io;
    cbn [Cli.print_numbered imap].
  - rewrite app_nil_r. by destruct io.
  - unfold mbind, M_bind, console_log, print. rewrite IH.
    cbn [console asked]. rewrite <- app_assoc. cbn [app].
    replace (k + Z.of_nat 0 + 1) with (k + 1) by lia.
    do 4 f_equal.
    apply imap_ext. intros j x _. cbn [compose].
    replace (k + 1 + Z.of_nat j + 1) with (k + Z.of_nat (S j) + 1) by lia.
    done.
Qed.

(** X13. [promptForRepo]: every repository is listed next to its number, and
    an answer that starts with that number selects the repository, whatever
    follows the digits; the prompt is asked once. *)
Theorem promptForRepo_number (repos : list jsstring) (i : nat)
    (r rest : jsstring) (io : IO) :
  repos !! i = Some r →
  trim (answers P (length (asked io))) = of_Z (Z.of_nat i + 1) ++ rest →
  match rest with c :: _ => isDigit c = false | [] => True end →
  ∃ io',
    Cli.promptForRepo P repos io = (Ret (Some r), io')
    ∧ (Stdout, lit "  " ++ of_Z (Z.of_nat i + 1) ++ lit ". " ++ r) ∈ console io'
    ∧ asked io' = asked io ++ [lit "Repository name or number: "].
Proof.
  intros Hr Hanswer Hrest.
  assert (Z.of_nat i < len repos) as Hlen.
  { apply lookup_lt_Some in Hr. unfold len. lia. }
  unfold Cli.promptForRepo. rewrite decide_True by lia.
  erewrite bind_run; last first.
  { erewrite bind_run by reflexivity. erewrite bind_run by apply print_numbered_run.
    reflexivity. }
  erewrite bind_run by reflexivity. cbn [console asked].
  rewrite Hanswer, parseInt10_of_Z by (lia || done).
  rewrite decide_True by lia.
  unfold at_index. rewrite decide_False by lia.
  replace (Z.to_nat (Z.of_nat i + 1 - 1)) with i by lia. rewrite Hr.
  eexists. split; [reflexivity|]. cbn [console asked]. split; [|done].
  rewrite !elem_of_app. left. right.
  apply elem_of_lookup_imap. exists i, r. split; [|done].
  do 4 f_equal.
Qed.

End PromptForRepoFacts.

Lemma promptForRepo_number_witness :
  ∃ io',
    Cli.promptForRepo (Demo.platform (lit "/work") [lit " 2nd "])
      [lit "api"; lit "web"] IO_start = (Ret (Some (lit "web")), io')
    ∧ (Stdout, lit "  2. web") ∈ console io'
    ∧ asked io' = [lit "Repository name or number: "].
Proof.
  apply (promptForRepo_number (Demo.platform (lit "/work") [lit " 2nd "])
           [lit "api"; lit "web"] 1 (lit "web") (lit "nd") IO_start);
    by vm_compute.
Defined.

(** ** cli.ts: what [main] checks before it plans a review *)

Section MainChecks.
Context (P : Platform).

Lemma promptForBaseHead_run (io : IO) :
  Cli.promptForBaseHead P io
  = (Ret (render (or_else (Some (trim (answers P (length (asked io)))))
                    (Some (lit "main"))),
          trim (answers P (S (length (asked io))))),
     {| console := console io;
        asked := asked io ++ [lit "Base branch (e.g. main): ";
                              lit "Head branch (PR branch): "] |}).
Proof.
  unfold Cli.promptForBaseHead, question, mbind, M_bind, mret, M_ret.
  cbn [console asked]. rewrite length_app, Nat.add_1_r, <- app_assoc.
  do 3 f_equal. unfold or_else, render.
  by destruct (trim (answers P (S (length (asked io))))).
Qed.

Lemma main_direct_inv (reposRoot : jsstring) (reposList : list jsstring)
    (args : Args.t) (io io' : IO) (t : Cli.Target) :
  Cli.main_direct P reposRoot reposList args io = (Ret t, io') →
  Cli.t_prId t = None
  ∧ Cli.t_headBranch t ≠ []
  ∧ existsSync P (Cli.t_repoPath t) = true
  ∧ ((∃ b h, Args.base args = Some b ∧ Args.head args = Some h
             ∧ Cli.t_baseBranch t = b ∧ Cli.t_headBranch t = h)
     ∨ ((Args.base args = None ∨ Args.head args = None)
        ∧ Cli.t_baseBranch t
          = render (or_else (Some (trim (answers P (length (asked io)))))
                      (Some (lit "main")))
        ∧ Cli.t_headBranch t = trim (answers P (S (length (asked io)))))).
Proof.
  unfold Cli.main_direct. intros H.
  apply bind_Ret_inv in H as ([b h] & io1 & Hbh & H).
  apply bind_Ret_inv in H as (u & io2 & Hhead & H).
  apply guard_Ret_inv in Hhead as [Hhead <-].
  apply bind_Ret_inv in H as ([rp rn] & io3 & _ & H).
  apply bind_Ret_inv in H as (u' & io4 & Hexists & H).
  apply guard_Ret_inv in Hexists as [Hexists <-].
  apply mret_Ret_inv in H as [<- _]. cbn [Cli.t_prId Cli.t_headBranch
    Cli.t_repoPath Cli.t_baseBranch].
  apply negb_false_iff in Hhead, Hexists.
  split_and!; [done|by destruct h|done|].
  destruct (Args.base args) as [b0|] eqn:Hb, (Args.head args) as [h0|] eqn:Hh.
  - apply mret_Ret_inv in Hbh as [[= <- <-] _]. left. by exists b0, h0.
  - rewrite promptForBaseHead_run in Hbh. injection Hbh as <- <- _. right. eauto.
  - rewrite promptForBaseHead_run in Hbh. injection Hbh as <- <- _. right. eauto.
  - rewrite promptForBaseHead_run in Hbh. injection Hbh as <- <- _. right. eauto.
Qed.

(** X14.  Every plan that [main] returns names a repository directory that
    exists; without a pull request its head branch is not empty; and none of
    [--help], [--version] and [--status] was among the arguments. *)
Theorem main_plan_checked (argv : list jsstring) (io io' : IO) (plan : Plan.t) :
  Cli.main P argv io = (Ret plan, io') →
  existsSync P (Plan.repoPath plan) = true
  ∧ (Plan.prId plan = None → Plan.headBranch plan ≠ [])
  ∧ (lit "--help" ∉ argv) ∧ (lit "--version" ∉ argv) ∧ (lit "--status" ∉ argv).
Proof.
  intros Hmain.
  assert ((lit "--help" ∉ argv) ∧ (lit "--version" ∉ argv)
          ∧ (lit "--status" ∉ argv))
    as Hflags.
  { unfold Cli.main in Hmain. by repeat (case_bool_decide; [done|]). }
  apply main_inv in Hmain as (args & t & io1 & io2 & _ & Ht & Hplan).
  apply main_artifacts_inv in Hplan as (-> & _ & -> & -> & _).
  split_and!; try apply Hflags.
  - destruct (truthy (Args.prIdOrUrl args)).
    + by apply main_pr_inv in Ht as (? & ? & ? & ? & _ & _ & _ & _ & _ & _ & _ & ? & _).
    + by apply main_direct_inv in Ht as (_ & _ & ? & _).
  - destruct (truthy (Args.prIdOrUrl args)).
    + apply main_pr_inv in Ht as (? & ? & ? & ? & _ & _ & _ & _ & _ & -> & _). done.
    + by apply main_direct_inv in Ht as (_ & ? & _).
Qed.

End MainChecks.

Lemma main_plan_checked_witness :
  ∃ plan io',
    Cli.main (Demo.platform (lit "/home/dev/repos/Shop.Web") [])
      [lit "main"; lit "feature/z"] IO_start = (Ret plan, io')
    ∧ existsSync (Demo.platform (lit "/home/dev/repos/Shop.Web") [])
        (Plan.repoPath plan) = true
    ∧ (Plan.prId plan = None → Plan.headBranch plan ≠ [])
    ∧ (lit "--help" ∉ [lit "main"; lit "feature/z"])
    ∧ (lit "--version" ∉ [lit "main"; lit "feature/z"])
    ∧ (lit "--status" ∉ [lit "main"; lit "feature/z"]).
Proof.
  eexists _, _. split; [by vm_compute|].
  eapply (main_plan_checked (Demo.platform (lit "/home/dev/repos/Shop.Web") [])
            [lit "main"; lit "feature/z"] IO_start).
  by vm_compute.
Defined.
Section MainBranches.
Context (P : Platform).

Lemma main_args_given (argv : list jsstring) (io : IO) :
  truthy (Args.prIdOrUrl (Cli.parseArgs argv)) = true
  ∨ Args.base (Cli.parseArgs argv) ≠ None
  ∨ Args.head (Cli.parseArgs argv) ≠ None →
  Cli.main_args P argv io = (Ret (Cli.parseArgs argv), io).
Proof.
  intros Hgiven. unfold Cli.main_args.
  assert (negb (truthy (Args.prIdOrUrl (Cli.parseArgs argv)))
          && bool_decide (Args.base (Cli.parseArgs argv) = None)
          && bool_decide (Args.head (Cli.parseArgs argv) = None) = false) as Hno.
  { destruct Hgiven as [-> | [Hb | Hh]]; [done| |].
    - by rewrite (bool_decide_eq_false_2 _ Hb), andb_false_r.
    - by rewrite (bool_decide_eq_false_2 _ Hh), andb_false_r. }
  rewrite Hno. cbn [andb]. unfold mbind, M_bind, mret, M_ret. by rewrite Hno.
Qed.

(** X15.  A base branch without a head branch, or a head branch without a
    base branch, is not kept: [main] asks for both, the base it uses is the
    first answer ([main] when that is blank) and the head the second answer,
    not what the command line gave. *)
Theorem main_lone_branch_is_asked_again (argv : list jsstring) (io io' : IO)
    (plan : Plan.t) :
  truthy (Args.prIdOrUrl (Cli.parseArgs argv)) = false →
  (is_Some (Args.base (Cli.parseArgs argv))
   ↔ Args.head (Cli.parseArgs argv) = None) →
  Cli.main P argv io = (Ret plan, io') →
  Plan.baseBranch plan
  = (if decide (trim (answers P (length (asked io))) = []) then lit "main"
     else trim (answers P (length (asked io))))
  ∧ Plan.headBranch plan = trim (answers P (S (length (asked io)))).
Proof.
  intros Hpr Hone Hmain.
  apply main_inv in Hmain as (args & t & io1 & io2 & Hargs & Ht & Hplan).
  rewrite main_args_given in Hargs; last first.
  { right. destruct (Args.base (Cli.parseArgs argv)) as [b|] eqn:Hb; [by left|].
    right. intros Hh. apply Hone in Hh. by destruct Hh. }
  injection Hargs as <- <-. rewrite Hpr in Ht.
  apply main_artifacts_inv in Hplan as (_ & -> & -> & _).
  apply main_direct_inv in Ht as (_ & _ & _ & [(b & h & Hb & Hh & _)|(_ & -> & ->)]).
  - assert (Args.head (Cli.parseArgs argv) = None) as Hnone.
    { apply Hone. by rewrite Hb. }
    congruence.
  - split; [|done]. unfold or_else, render.
    by destruct (trim (answers P (length (asked io)))).
Qed.

(** X16.  A head branch that is empty, given as such or left blank when
    asked, ends [main] with exit code 1 and one line on standard error,
    before any repository is looked for. *)
Theorem main_direct_head_required (reposRoot : jsstring)
    (reposList : list jsstring) (args : Args.t) (io : IO) :
  (Args.base args ≠ None ∧ Args.head args = Some [])
  ∨ ((Args.base args = None ∨ Args.head args = None)
     ∧ trim (answers P (S (length (asked io)))) = []) →
  ∃ io',
    Cli.main_direct P reposRoot reposList args io = (Exit 1, io')
    ∧ console io' = console io ++ [(Stderr, lit "Head branch is required.")].
Proof.
  unfold Cli.main_direct.
  intros [[Hb Hh] | [Hnone Hblank]].
  - rewrite Hh. destruct (Args.base args) as [b|]; [|done].
    eexists. split; [reflexivity|done].
  - assert (match Args.base args, Args.head args with
            | Some base, Some head => mret (base, head)
            | _, _ => Cli.promptForBaseHead P
            end = Cli.promptForBaseHead P) as ->.
    { by destruct Hnone as [-> | ->]; [|destruct (Args.base args)]. }
    unfold mbind at 1, M_bind at 1. rewrite promptForBaseHead_run, Hblank.
    eexists. split; [reflexivity|done].
Qed.

Lemma digits_no_marker (s p : jsstring) (c : N) :
  forallb isDigit s = true → isDigit c = false → includes s (c :: p) = false.
Proof.
  intros Hs Hc. induction s as [|d s IH]; [done|].
  apply andb_prop in Hs as [Hd Hs]. cbn [includes startsWith].
  rewrite (IH Hs), orb_false_r.
  destruct (N.eqb_spec c d) as [->|]; [congruence|done].
Qed.

Lemma forallb_trim (f : N → bool) (s : jsstring) :
  forallb f s = true → forallb f (trim s) = true.
Proof.
  assert (∀ u, forallb f u = true → forallb f (trimStart u) = true) as Hstart.
  { induction u as [|c u IH]; [done|]. cbn [trimStart].
    destruct (isWhiteSpace c); [|done]. by intros [_ ?]%andb_prop; apply IH. }
  intros Hs. unfold trim, trimEnd.
  rewrite forallb_reverse. apply Hstart. rewrite forallb_reverse. by apply Hstart.
Qed.

(** X17.  A pull request given by its number alone needs the Azure settings:
    without them [main] ends with exit code 1 and one line on standard error,
    and asks nothing. *)
Theorem main_bare_id_needs_azure (id : jsstring) (io : IO) :
  all_digits id = true →
  Azure.isAzureConfigured P = false →
  Cli.main P [id] io
  = (Exit 1,
     {| console := console io
          ++ [(Stderr, lit "Azure mode requires AZURE_ORG_URL, AZURE_PROJECT, AZURE_PAT in .env")];
        asked := asked io |}).
Proof.
  intros Hid Hazure.
  assert (id ≠ [] ∧ forallb isDigit id = true) as [Hne Hdigits].
  { by destruct id. }
  assert (startsWith id (lit "-") = false) as Hdash.
  { destruct id as [|c id]; [done|]. apply andb_prop in Hdigits as [Hc _].
    change (lit "-") with [45%N]. cbn [startsWith].
    destruct (N.eqb_spec 45 c) as [<-|]; [by vm_compute in Hc|done]. }
  assert (Cli.parseArgs [id] = Args.set_prIdOrUrl (Some id) Args.empty) as Hargs.
  { apply pr_like_first; [done|]. unfold Token.pr_like.
    by rewrite Hdash, Hid. }
  unfold Cli.main.
  rewrite !bool_decide_eq_false_2;
    try (intros Hin; apply list_elem_of_singleton in Hin; subst id;
         by vm_compute in Hid).
  unfold mbind at 1, M_bind at 1.
  rewrite main_args_given; last first.
  { left. rewrite Hargs. by destruct id. }
  rewrite Hargs. cbn [Args.prIdOrUrl Args.set_prIdOrUrl].
  assert (truthy (Some id) = true) as -> by by destruct id.
  assert (Azure.parsePrUrl P id = Normal None) as Hparse.
  { unfold Azure.parsePrUrl.
    assert (includes (trim id) (lit "dev.azure.com") = false) as ->; [|done].
    change (lit "dev.azure.com") with (100%N :: lit "ev.azure.com").
    apply digits_no_marker; [by apply forallb_trim|done]. }
  unfold Cli.main_pr. cbn [Args.prIdOrUrl Args.set_prIdOrUrl].
  change (render (Some id)) with id. rewrite Hparse, Hazure.
  by destruct io.
Qed.

End MainBranches.

Lemma main_lone_branch_is_asked_again_witness :
  ∃ plan io',
    Cli.main (Demo.platform (lit "/home/dev/repos/Shop.Web") [lit ""; lit "feature/z"])
      [lit "--base"; lit "develop"] IO_start = (Ret plan, io')
    ∧ Plan.baseBranch plan = lit "main"
    ∧ Plan.headBranch plan = lit "feature/z".
Proof.
  eexists _, _. split; [by vm_compute|].
  eapply (main_lone_branch_is_asked_again
            (Demo.platform (lit "/home/dev/repos/Shop.Web") [lit ""; lit "feature/z"])
            [lit "--base"; lit "develop"] IO_start).
  - reflexivity.
  - split; [reflexivity|]. intros _. by eexists.
  - by vm_compute.
Defined.

Lemma main_direct_head_required_witness :
  ∃ io',
    Cli.main_direct (Demo.platform (lit "/home/dev/repos/Shop.Web") [lit "main"; lit "  "])
      (lit "/home/dev/repos") [lit "Shop.Web"] Args.empty IO_start = (Exit 1, io')
    ∧ console io' = [(Stderr, lit "Head branch is required.")].
Proof.
  apply (main_direct_head_required
           (Demo.platform (lit "/home/dev/repos/Shop.Web") [lit "main"; lit "  "])
           (lit "/home/dev/repos") [lit "Shop.Web"] Args.empty IO_start).
  right. split; [by left|reflexivity].
Defined.

Lemma main_bare_id_needs_azure_witness :
  Cli.main (Demo.with_env ∅ Demo.home) [lit "182370"] IO_start
  = (Exit 1,
     {| console := [(Stderr, lit "Azure mode requires AZURE_ORG_URL, AZURE_PROJECT, AZURE_PAT in .env")];
        asked := [] |}).
Proof.
  apply (main_bare_id_needs_azure (Demo.with_env ∅ Demo.home) (lit "182370") IO_start);
    reflexivity.
Defined.
(** ** review.ts: what the supervisor passes on and prints *)

Section ReviewMore.
Import Review.
Context (outputPath : jsstring).

Local Abbreviation deliver := (Review.deliver outputPath).
Local Abbreviation run := (Review.run outputPath).

Lemma closed_passes_nothing (s : Supervisor) (es : list event) :
  closing_seen s →
  stdout (run s es) = stdout s
  ∧ WriteStream.chunks (fileStream (run s es)) = WriteStream.chunks (fileStream s).
Proof.
  revert s. induction es as [|e es IH]; intros s Hs; [done|].
  rewrite run_cons.
  assert (closing_seen (deliver s e)
          ∧ stdout (deliver s e) = stdout s
          ∧ WriteStream.chunks (fileStream (deliver s e))
            = WriteStream.chunks (fileStream s)) as (Hs' & <- & <-);
    [|by apply IH].
  unfold closing_seen, has_exited, Review.deliver in *.
  destruct (exited s) eqn:Hex; [by rewrite Hex|].
  destruct Hs as [Hopen|?]; [|done].
  destruct e as [|chunk| |code printed|code]; cbn.
  - destruct (spinner s); cbn; by rewrite ?Hopen, ?Hex; auto.
  - rewrite Hopen, Hex. auto.
  - rewrite Hopen, Hex. auto.
  - split; [by right|]. unfold on_error, WriteStream.end_.
    destruct (bool_decide _);
      cbn [stdout fileStream process_exit stderr_write with_fileStream
           clearInterval set_spinner];
      done.
  - split; [by right|]. done.
Qed.

Lemma open_passes_delivered (s : Supervisor) (es : list event) :
  child_stdout_open s = true → exited s = None →
  WriteStream.ended (fileStream s) = false →
  stdout (run s es) = stdout s ++ Trace.delivered es
  ∧ WriteStream.chunks (fileStream (run s es))
    = WriteStream.chunks (fileStream s) ++ Trace.delivered es.
Proof.
  revert s. induction es as [|e es IH]; intros s Hopen Hex Hended.
  { cbn. by rewrite !app_nil_r. }
  rewrite run_cons.
  destruct e as [|chunk| |code printed|code]; cbn [Trace.delivered].
  - assert (child_stdout_open (deliver s Tick) = true
            ∧ exited (deliver s Tick) = None
            ∧ fileStream (deliver s Tick) = fileStream s
            ∧ stdout (deliver s Tick) = stdout s) as (? & ? & Hf & Ho).
    { unfold Review.deliver. rewrite Hex. by destruct (spinner s). }
    destruct (IH (deliver s Tick)) as [-> ->]; [done|done|by rewrite Hf|].
    by rewrite Hf, Ho.
  - assert (child_stdout_open (deliver s (Data chunk)) = true
            ∧ exited (deliver s (Data chunk)) = None
            ∧ fileStream (deliver s (Data chunk))
              = WriteStream.write chunk (fileStream s)
            ∧ stdout (deliver s (Data chunk)) = stdout s ++ [chunk])
      as (? & ? & Hf & Ho).
    { unfold Review.deliver, on_data. rewrite Hex, Hopen.
      by destruct (firstChunk s). }
    assert (WriteStream.write chunk (fileStream s)
            = {| WriteStream.ended := false;
                 WriteStream.chunks := WriteStream.chunks (fileStream s) ++ [chunk];
                 WriteStream.end_calls := WriteStream.end_calls (fileStream s);
                 WriteStream.closes := WriteStream.closes (fileStream s) |}) as Hw.
    { unfold WriteStream.write. by rewrite Hended. }
    destruct (IH (deliver s (Data chunk))) as [-> ->];
      [done|done|by rewrite Hf, Hw|].
    rewrite Hf, Ho, Hw. cbn. by rewrite <- !app_assoc.
  - rewrite !app_nil_r.
    destruct (closed_passes_nothing (deliver s End) es) as [-> ->].
    { left. unfold Review.deliver. rewrite Hex, Hopen. unfold on_end. cbn.
      by destruct (firstChunk s). }
    unfold Review.deliver. rewrite Hex, Hopen. unfold on_end, WriteStream.end_.
    cbn. by destruct (firstChunk s).
  - rewrite !app_nil_r.
    destruct (closed_passes_nothing (deliver s (Error code printed)) es) as [-> ->].
    { right. unfold Review.deliver, has_exited. by rewrite Hex. }
    unfold Review.deliver. rewrite Hex. unfold on_error, WriteStream.end_.
    by destruct (bool_decide _).
  - rewrite !app_nil_r.
    destruct (closed_passes_nothing (deliver s (ChildExit code)) es) as [-> ->].
    { right. unfold Review.deliver, has_exited. by rewrite Hex. }
    unfold Review.deliver. rewrite Hex. unfold on_exit, WriteStream.end_.
    done.
Qed.

(** X18.  Whatever the order of the events, the terminal and the output file
    both receive the chunks that arrive before the first ending event (end of
    the stream, spawn error, exit of the agent), each once and in the order
    of arrival, and nothing of what arrives later. *)
Theorem tee_is_complete (es : list event) :
  stdout (run runReview es) = Trace.delivered es
  ∧ WriteStream.chunks (fileStream (run runReview es)) = Trace.delivered es.
Proof. by apply (open_passes_delivered runReview es). Qed.

Lemma ticks_run (k : nat) (s : Supervisor) :
  spinner s = true → exited s = None →
  let s' := run s (replicate k Tick) in
  spinner s' = true ∧ exited s' = None
  ∧ spinnerIndex s' = (spinnerIndex s + k)%nat
  ∧ stderr s' = stderr s ++ (frame_text <$> seq (spinnerIndex s) k).
Proof.
  revert s. induction k as [|k IH]; intros s Hsp Hex; cbn zeta.
  { cbn. by rewrite Nat.add_0_r, app_nil_r. }
  cbn [replicate]. rewrite run_cons.
  assert (deliver s Tick = on_tick s) as ->.
  { unfold Review.deliver. by rewrite Hex, Hsp. }
  destruct (IH (on_tick s)) as (-> & -> & -> & ->); [done|done|].
  cbn. split_and!; [done|done|lia|]. by rewrite <- app_assoc.
Qed.

(** X19.  Until something else happens, the ticks of the interval write the
    four frames in rotation after the banner: the [i]-th tick (from 0)
    writes a carriage return, two spaces, frame [i mod 4] and [ Working ];
    the frame is always one of the four characters. *)
Theorem spinner_frames_rotate (k : nat) :
  stderr (run runReview (replicate k Tick)) = BANNER :: (frame_text <$> seq 0 k)
  ∧ ∀ i, frame_text (i + 4) = frame_text i
         ∧ ∃ f, spinnerFrames !! (i `mod` 4)%nat = Some f
                ∧ frame_text i = [13; 32; 32]%N ++ [f] ++ lit " Working ".
Proof.
  split.
  - by destruct (ticks_run k runReview) as (_ & _ & _ & ->).
  - intros i. unfold frame_text. change (length spinnerFrames) with 4%nat.
    split.
    + replace ((i + 4) `mod` 4)%nat with (i `mod` 4)%nat; [done|].
      rewrite <- (Nat.Div0.mod_add i 1 4). by rewrite Nat.mul_1_l.
    + pose proof (Nat.mod_upper_bound i 4 ltac:(done)) as Hlt.
      destruct (spinnerFrames !! (i `mod` 4)%nat) as [f|] eqn:Hf; [by exists f|].
      apply lookup_ge_None in Hf. cbn in Hf. lia.
Qed.

(** X20.  A spawn error while the host is running ends the invocation with
    exit code 1 whatever is delivered afterwards: the line is cleared, the
    file is ended, the five lines of guidance are printed when the code is
    [ENOENT] and the error itself otherwise, and [Review saved to] is not
    printed. *)
Theorem spawn_error_is_final (s : Supervisor) (code : option jsstring)
    (printed : jsstring) (es : list event) :
  exited s = None →
  let s' := run s (Error code printed :: es) in
  exited s' = Some 1
  ∧ spinner s' = false
  ∧ WriteStream.ended (fileStream s') = true
  ∧ stdout s' = stdout s
  ∧ stderr s'
    = stderr s ++ CLEAR_LINE
        :: (if bool_decide (code = Some (lit "ENOENT")) then
              [error_line [[10%N] ++ lit "Agent CLI not found."];
               error_line [lit "  If 'agent' works in your terminal, set AGENT_PATH to its full path, e.g.:"];
               error_line [lit "    PowerShell: $env:AGENT_PATH = (Get-Command agent).Source"];
               error_line [lit "    Then run this script again from the same terminal."];
               error_line [lit "  Or install Cursor CLI: irm 'https://cursor.com/install?win32=true' | iex"]]
            else [error_line [printed]]).
Proof.
  intros Hex. cbn zeta. rewrite run_cons.
  rewrite run_exited.
  2:{ unfold Review.deliver. rewrite Hex. by eexists. }
  unfold Review.deliver. rewrite Hex. unfold on_error, WriteStream.end_.
  split_and!; try by destruct (bool_decide _).
  destruct (bool_decide _); cbn; by rewrite <- ?app_assoc.
Qed.

End ReviewMore.

Lemma spawn_error_is_final_witness :
  Review.exited (Review.run (lit "out.md") Review.runReview
                   [Review.Tick; Review.Error (Some (lit "ENOENT")) (lit "spawn agent ENOENT");
                    Review.ChildExit (Some 0)])
  = Some 1.
Proof.
  apply (spawn_error_is_final (lit "out.md")
           (Review.run (lit "out.md") Review.runReview [Review.Tick])
           (Some (lit "ENOENT")) (lit "spawn agent ENOENT")
           [Review.ChildExit (Some 0)]).
  reflexivity.
Defined.
(** ** review.ts: the [.env] file *)

Section LoadEnvFacts.
Import Launch.

Lemma break_at_app (sep : N) (key value : jsstring) :
  Forall (λ c, c ≠ sep) key →
  break_at sep (key ++ sep :: value) = Some (key, value).
Proof.
  induction 1 as [|c key Hc _ IH]; cbn [app break_at].
  - by rewrite N.eqb_refl.
  - destruct (N.eqb_spec c sep); [done|]. by rewrite IH.
Qed.

Lemma break_at_Some (sep : N) (s key value : jsstring) :
  break_at sep s = Some (key, value) → s = key ++ sep :: value.
Proof.
  revert key. induction s as [|c s IH]; intros key; [done|]. cbn [break_at].
  destruct (N.eqb_spec c sep) as [->|].
  - by intros [= <- <-].
  - destruct (break_at sep s) as [[k v]|]; [|done].
    intros [= <- <-]. cbn. f_equal. by apply IH.
Qed.

Lemma isKey_chars (key : jsstring) :
  isKey key = true →
  Forall (λ c, c ≠ 61%N) key
  ∧ ∃ c k, key = c :: k ∧ isWhiteSpace c = false ∧ c ≠ 35%N.
Proof.
  assert (∀ c, isKeyChar c = true → c ≠ 61%N ∧ isWhiteSpace c = false ∧ c ≠ 35%N)
    as Hchar.
  { intros c Hc. unfold isKeyChar, isKeyStart, isDigit in Hc.
    repeat (apply orb_prop in Hc as [Hc|Hc]);
      rewrite ?andb_true_iff, ?N.leb_le, ?N.eqb_eq in Hc;
      (split_and!; [lia| |lia]); unfold isWhiteSpace;
      repeat (apply orb_false_intro); rewrite ?andb_false_iff, ?N.eqb_neq, ?N.leb_gt;
      lia. }
  destruct key as [|c k]; [done|]. cbn [isKey].
  intros [Hc Hk]%andb_prop.
  assert (isKeyChar c = true) as Hc' by (unfold isKeyChar; by rewrite Hc).
  split.
  - constructor; [by apply Hchar|].
    apply Forall_forall. intros d Hd. apply Hchar.
    rewrite forallb_forall in Hk. apply Hk. by apply list_elem_of_In.
  - exists c, k. split; [done|]. by apply Hchar.
Qed.

Lemma loadEnv_line_assigns (env : gmap string jsstring) (line key value : jsstring) :
  trim line = key ++ 61%N :: value →
  isKey key = true → existsb isLineTerminator value = false →
  loadEnv_line env line = <[to_key key := trim (stripQuotes value)]> env.
Proof.
  intros Hline Hkey Hvalue. unfold loadEnv_line. rewrite Hline.
  destruct (isKey_chars key Hkey) as (Hno & c & k & -> & Hws & Hhash).
  assert (startsWith ((c :: k) ++ 61%N :: value) (lit "#") = false) as ->.
  { change (lit "#") with [35%N]. cbn [app startsWith].
    destruct (N.eqb_spec 35 c) as [<-|]; done. }
  cbn [app truthy negb orb]. unfold match_assignment.
  change (c :: k ++ 61%N :: value) with ((c :: k) ++ 61%N :: value).
  by rewrite break_at_app, Hkey, Hvalue.
Qed.

(** X21.  One line of [.env] changes the environment exactly when, without
    the white space around it, it is a name, [=] and a value: the name made
    of letters, digits and underscores and not starting with a digit, the
    value free of line terminators.  It then sets that name to the value
    without one quote at each end and without the white space around what is
    left.  Every other line (blank, comment, [export], spaces before [=])
    leaves the environment as it is. *)
Theorem loadEnv_line_effect (env : gmap string jsstring) (line : jsstring) :
  (∀ key value,
     trim line = key ++ 61%N :: value →
     isKey key = true → existsb isLineTerminator value = false →
     loadEnv_line env line = <[to_key key := trim (stripQuotes value)]> env)
  ∧ ((¬ ∃ key value,
          trim line = key ++ 61%N :: value
          ∧ isKey key = true ∧ existsb isLineTerminator value = false) →
     loadEnv_line env line = env).
Proof.
  split; [intros key value; apply loadEnv_line_assigns|].
  intros Hnot. unfold loadEnv_line.
  destruct (_ || _); [done|]. unfold match_assignment.
  destruct (break_at 61 (trim line)) as [[key value]|] eqn:Hbreak; [|done].
  destruct (isKey key) eqn:Hkey; [|done].
  destruct (existsb isLineTerminator value) eqn:Hvalue; [done|].
  destruct Hnot. exists key, value. by apply break_at_Some in Hbreak.
Qed.

Lemma ignored_lines (env : gmap string jsstring) (lines : list jsstring) :
  Forall (λ l, trim l = [] ∨ startsWith (trim l) (lit "#") = true) lines →
  foldl loadEnv_line env lines = env.
Proof.
  induction 1 as [|l lines Hl _ IH]; [done|]. cbn [foldl].
  assert (loadEnv_line env l = env) as ->; [|done].
  unfold loadEnv_line. destruct Hl as [-> | ->]; [done|].
  by rewrite orb_true_r.
Qed.

Lemma last_assignment (content line key value : jsstring)
    (before after : list jsstring) (env : gmap string jsstring) :
  split 10 content = before ++ line :: after →
  Forall (λ l, trim l = [] ∨ startsWith (trim l) (lit "#") = true) after →
  trim line = key ++ 61%N :: value →
  isKey key = true → existsb isLineTerminator value = false →
  loadEnv_content content env !! to_key key = Some (trim (stripQuotes value)).
Proof.
  intros Hsplit Hafter Hline Hkey Hvalue. unfold loadEnv_content.
  rewrite Hsplit, foldl_app. cbn [foldl].
  rewrite (loadEnv_line_assigns _ line key value) by done.
  rewrite ignored_lines by done. apply lookup_insert_eq.
Qed.

(** X22.  The file wins over the environment the process was started with,
    and in the file the last assignment wins: when the last line that is
    neither blank nor a comment assigns a name, [loadEnv] leaves that name
    set to the value of that line, whatever it was before. *)
Theorem loadEnv_last_assignment_wins (content line key value : jsstring)
    (before after : list jsstring) (env : gmap string jsstring) (io : IO) :
  split 10 content = before ++ line :: after →
  Forall (λ l, trim l = [] ∨ startsWith (trim l) (lit "#") = true) after →
  trim line = key ++ 61%N :: value →
  isKey key = true → existsb isLineTerminator value = false →
  ∃ env',
    loadEnv (ReadOk content) env io = (Ret env', io)
    ∧ env' !! to_key key = Some (trim (stripQuotes value)).
Proof.
  intros. eexists. split; [reflexivity|]. by eapply last_assignment.
Qed.

(** X23.  A quote at each end of a value is removed whether or not the two
    are the same character, and the white space inside the quotes is removed
    as well. *)
Theorem loadEnv_quotes (env : gmap string jsstring)
    (line key inner : jsstring) (q1 q2 : N) :
  isQuote q1 = true → isQuote q2 = true →
  trim line = key ++ 61%N :: q1 :: inner ++ [q2] →
  isKey key = true → existsb isLineTerminator inner = false →
  stripQuotes (q1 :: inner ++ [q2]) = inner
  ∧ loadEnv_line env line !! to_key key = Some (trim inner).
Proof.
  intros Hq1 Hq2 Hline Hkey Hinner.
  assert (stripQuotes (q1 :: inner ++ [q2]) = inner) as Hstrip.
  { unfold stripQuotes. rewrite Hq1, reverse_snoc, Hq2.
    apply reverse_involutive. }
  split; [done|].
  rewrite (loadEnv_line_assigns _ line key (q1 :: inner ++ [q2])); [| done..| ].
  - by rewrite lookup_insert_eq, Hstrip.
  - cbn [existsb]. rewrite existsb_app, Hinner. cbn.
    unfold isQuote in Hq1, Hq2. unfold isLineTerminator.
    repeat (apply orb_prop in Hq1 as [Hq1|Hq1]);
      repeat (apply orb_prop in Hq2 as [Hq2|Hq2]);
      apply N.eqb_eq in Hq1, Hq2; by subst.
Qed.

End LoadEnvFacts.

Lemma loadEnv_last_assignment_wins_witness :
  ∃ env',
    Launch.loadEnv
      (ReadOk (lit "AZURE_PAT=old" ++ [10%N] ++ lit "  AZURE_PAT = spaced" ++ [10%N]
               ++ lit " AZURE_PAT=new " ++ [10%N] ++ lit "# end" ++ [10%N]))
      Demo.environment IO_start
    = (Ret env', IO_start)
    ∧ env' !! "AZURE_PAT"%string = Some (lit "new").
Proof.
  apply (loadEnv_last_assignment_wins
           (lit "AZURE_PAT=old" ++ [10%N] ++ lit "  AZURE_PAT = spaced" ++ [10%N]
            ++ lit " AZURE_PAT=new " ++ [10%N] ++ lit "# end" ++ [10%N])
           (lit " AZURE_PAT=new ") (lit "AZURE_PAT") (lit "new")
           [lit "AZURE_PAT=old"; lit "  AZURE_PAT = spaced"] [lit "# end"; []]
           Demo.environment IO_start).
  - reflexivity.
  - apply Forall_cons. split; [by right|].
    apply Forall_cons. split; [by left|]. apply Forall_nil_2.
  - reflexivity.
  - reflexivity.
  - reflexivity.
Defined.

Lemma loadEnv_quotes_witness :
  Launch.stripQuotes (34%N :: lit " padded " ++ [39%N]) = lit " padded "
  ∧ Launch.loadEnv_line ∅ (lit "NAME=" ++ [34%N] ++ lit " padded " ++ [39%N])
      !! "NAME"%string = Some (lit "padded").
Proof.
  apply (loadEnv_quotes ∅ (lit "NAME=" ++ [34%N] ++ lit " padded " ++ [39%N])
           (lit "NAME") (lit " padded ") 34%N 39%N); reflexivity.
Defined.
(** ** review.ts: the prompt and the command of the agent *)

Section PromptFacts.
Import Launch.

Lemma substitute_other (m b a t : jsstring) (c : N) :
  c ≠ 36%N → substitute m b a (c :: t) = c :: substitute m b a t.
Proof.
  intros Hc. destruct c as [|p]; [done|].
  repeat (destruct p as [p|p|]; try done).
Qed.

Lemma substitute_plain_app (m b a plain t : jsstring) :
  Forall (λ c, c ≠ 36%N) plain →
  substitute m b a (plain ++ t) = plain ++ substitute m b a t.
Proof.
  induction 1 as [|c plain Hc _ IH]; [done|].
  cbn [app]. by rewrite substitute_other, IH.
Qed.

Lemma substitute_plain (m b a t : jsstring) :
  Forall (λ c, c ≠ 36%N) t → substitute m b a t = t.
Proof.
  intros Ht. rewrite <- (app_nil_r t) at 1.
  rewrite substitute_plain_app by done. by rewrite app_nil_r.
Qed.

Lemma replace_from_skip (n t b xs s : jsstring) :
  replace_from n t b (length xs) (xs ++ s) = replace_from n t (b ++ xs) 0 s
  ∨ s = [].
Proof.
  destruct s as [|c s]; [by right|left].
  revert b. induction xs as [|x xs IH]; intros b.
  - by rewrite app_nil_r.
  - cbn [length app replace_from]. rewrite IH. by rewrite <- app_assoc.
Qed.

Lemma replace_from_end (n t b : jsstring) (xs : jsstring) :
  replace_from n t b (length xs) xs = [].
Proof.
  revert b. induction xs as [|x xs IH]; intros b; [done|].
  cbn [length replace_from]. apply IH.
Qed.

Lemma replace_from_match (c0 : N) (n' t b s : jsstring) :
  replace_from (c0 :: n') t b 0 ((c0 :: n') ++ s)
  = substitute (c0 :: n') b s t
    ++ replace_from (c0 :: n') t (b ++ c0 :: n') 0 s.
Proof.
  cbn [app replace_from].
  change (c0 :: n' ++ s) with ((c0 :: n') ++ s).
  rewrite startsWith_app, drop_app_length. f_equal.
  replace (length (c0 :: n') - 1)%nat with (length n') by (cbn [length]; lia).
  destruct (replace_from_skip (c0 :: n') t (b ++ [c0]) n' s) as [-> | ->].
  - by rewrite <- app_assoc.
  - by rewrite app_nil_r, replace_from_end.
Qed.

Lemma replace_from_plain (c0 : N) (n' t b plain s : jsstring) :
  Forall (λ c, c ≠ c0) plain →
  replace_from (c0 :: n') t b 0 (plain ++ s)
  = plain ++ replace_from (c0 :: n') t (b ++ plain) 0 s.
Proof.
  intros Hplain. revert b. induction Hplain as [|c plain Hc _ IH]; intros b.
  - by rewrite app_nil_r.
  - cbn [app replace_from startsWith].
    destruct (N.eqb_spec c0 c) as [->|]; [done|]. cbn [andb].
    by rewrite IH, <- app_assoc.
Qed.

Lemma replace_from_before (n t : jsstring) :
  Forall (λ c, c ≠ 36%N) t →
  ∀ s b b' k, replace_from n t b k s = replace_from n t b' k s.
Proof.
  intros Ht. induction s as [|c s IH]; intros b b' k; [done|].
  cbn [replace_from]. destruct k as [|k]; [|apply IH].
  destruct (startsWith (c :: s) n).
  - rewrite !substitute_plain by done. f_equal. apply IH.
  - f_equal. apply IH.
Qed.

(** *** The marker and the text around it *)

Lemma startsWith_lookup (s p : jsstring) :
  startsWith s p = true → ∀ j x, p !! j = Some x → s !! j = Some x.
Proof.
  revert s. induction p as [|c p IH]; intros [|d s]; cbn [startsWith]; try done.
  intros [Hc Hs]%andb_prop. apply N.eqb_eq in Hc as ->.
  intros [|j] x; cbn; [done|]. by apply IH.
Qed.

Lemma startsWith_app_l (s t p : jsstring) :
  startsWith s p = true → startsWith (s ++ t) p = true.
Proof.
  revert s. induction p as [|c p IH]; intros [|d s]; cbn [startsWith app];
    try done.
  intros [Hc Hs]%andb_prop. by rewrite Hc, IH.
Qed.

Lemma startsWith_long (s t p : jsstring) :
  (length p ≤ length s)%nat → startsWith (s ++ t) p = startsWith s p.
Proof.
  revert s. induction p as [|c p IH]; intros [|d s]; cbn [startsWith app length];
    try done; [lia|].
  intros Hlen. rewrite IH by lia. done.
Qed.

Lemma includes_head (s p : jsstring) :
  includes s p = false → startsWith s p = false.
Proof. destruct s; cbn [includes]; by intros [? _]%orb_false_elim. Qed.

Lemma includes_tail (c : N) (s p : jsstring) :
  includes (c :: s) p = false → includes s p = false.
Proof. cbn [includes]. by intros [_ ?]%orb_false_elim. Qed.

(** The marker does not overlap itself: it cannot start in the last
    characters of a text and end inside a marker that follows. *)
Lemma marker_no_border (u t : jsstring) :
  u ≠ [] → (length u < 20)%nat →
  startsWith (u ++ lit ".codehermit-diff.txt" ++ t) (lit ".codehermit-diff.txt")
  = false.
Proof.
  intros Hu Hlen.
  destruct (startsWith _ _) eqn:Hstarts; [exfalso|done].
  assert (∀ j x, (length u + j < 20)%nat →
                 lit ".codehermit-diff.txt" !! (length u + j)%nat = Some x →
                 lit ".codehermit-diff.txt" !! j = Some x) as Hshift.
  { intros j x Hj Hx.
    apply (startsWith_lookup _ _ Hstarts) in Hx.
    rewrite lookup_app_r in Hx by lia.
    replace (length u + j - length u)%nat with j in Hx by lia.
    by rewrite lookup_app_l in Hx by (cbn; lia). }
  assert (length u ≠ 0)%nat as Hpos by by destruct u.
  destruct (decide (length u = 16%nat)) as [H16|H16].
  - specialize (Hshift 1%nat 116%N). rewrite H16 in Hshift.
    by specialize (Hshift ltac:(lia) eq_refl).
  - assert (∀ x, lit ".codehermit-diff.txt" !! length u = Some x → x = 46%N)
      as Hdot.
    { intros x Hx. specialize (Hshift 0%nat x).
      rewrite Nat.add_0_r in Hshift. by specialize (Hshift Hlen Hx) as [= <-]. }
    revert Hpos H16 Hlen Hdot. generalize (length u). intros d Hpos H16 Hlen Hdot.
    do 20 (destruct d as [|d];
           [try lia; by specialize (Hdot _ eq_refl)|]).
    lia.
Qed.

Lemma replace_from_no_marker (t b pre post : jsstring) :
  includes pre (lit ".codehermit-diff.txt") = false →
  replace_from (lit ".codehermit-diff.txt") t b 0
    (pre ++ lit ".codehermit-diff.txt" ++ post)
  = pre ++ replace_from (lit ".codehermit-diff.txt") t (b ++ pre) 0
             (lit ".codehermit-diff.txt" ++ post)
  ∧ replace_from (lit ".codehermit-diff.txt") t b 0 pre = pre.
Proof.
  revert b. induction pre as [|c pre IH]; intros b Hpre.
  { by rewrite app_nil_r. }
  pose proof (includes_head _ _ Hpre) as Hhead.
  apply includes_tail in Hpre.
  destruct (IH (b ++ [c]) Hpre) as [IH1 IH2].
  split.
  - assert (startsWith ((c :: pre) ++ lit ".codehermit-diff.txt" ++ post)
              (lit ".codehermit-diff.txt") = false) as Hhere.
    { destruct (decide (length (c :: pre) < 20)%nat).
      - by apply marker_no_border.
      - rewrite startsWith_long; [done|]. cbn in *. lia. }
    cbn [app] in *. cbn [replace_from]. rewrite Hhere, IH1.
    by rewrite <- app_assoc.
  - cbn [replace_from]. rewrite Hhead, IH2. done.
Qed.

Lemma first_marker (s : jsstring) :
  includes s (lit ".codehermit-diff.txt") = true →
  ∃ pre post,
    s = pre ++ lit ".codehermit-diff.txt" ++ post
    ∧ includes pre (lit ".codehermit-diff.txt") = false.
Proof.
  induction s as [|c s IH]; [done|]. cbn [includes].
  destruct (startsWith (c :: s) _) eqn:Hhere.
  - intros _. exists [], (drop 20 (c :: s)). split; [|done].
    by apply startsWith_inv in Hhere.
  - cbn [orb]. intros (pre & post & -> & Hpre)%IH.
    exists (c :: pre), post. split; [done|]. cbn [includes].
    rewrite Hpre, orb_false_r.
    destruct (startsWith (c :: pre) _) eqn:Hpre'; [|done].
    apply (startsWith_app_l _ (lit ".codehermit-diff.txt" ++ post)) in Hpre'.
    cbn [app] in Hpre'. congruence.
Qed.

Lemma join_by_cons (sep p q : jsstring) (parts : list jsstring) :
  join_by sep (p :: q :: parts) = p ++ sep ++ join_by sep (q :: parts).
Proof. unfold join_by. cbn. by rewrite <- app_assoc. Qed.

Lemma prompt_step (pre post diffFileName : jsstring) :
  includes pre (lit ".codehermit-diff.txt") = false →
  Forall (λ c, c ≠ 36%N) diffFileName →
  runReview_prompt (pre ++ lit ".codehermit-diff.txt" ++ post) diffFileName
  = pre ++ diffFileName ++ runReview_prompt post diffFileName.
Proof.
  intros Hpre Hname. unfold runReview_prompt, replaceAll.
  rewrite (proj1 (replace_from_no_marker _ _ _ _ Hpre)).
  change (lit ".codehermit-diff.txt") with (46%N :: lit "codehermit-diff.txt").
  rewrite replace_from_match, substitute_plain by done.
  do 2 f_equal. by apply replace_from_before.
Qed.

Lemma prompt_joined (parts : list jsstring) (diffFileName : jsstring) :
  Forall (λ p, includes p (lit ".codehermit-diff.txt") = false) parts →
  Forall (λ c, c ≠ 36%N) diffFileName →
  runReview_prompt (join_by (lit ".codehermit-diff.txt") parts) diffFileName
  = join_by diffFileName parts.
Proof.
  intros Hparts Hname. induction Hparts as [|p parts Hp Hparts IH]; [done|].
  destruct parts as [|q parts].
  - cbn [join_by fmap list_fmap concat]. rewrite app_nil_r.
    apply (replace_from_no_marker diffFileName [] p [] Hp).
  - rewrite !join_by_cons, prompt_step by done. by rewrite IH.
Qed.

Lemma template_parts (template : jsstring) :
  ∃ parts,
    Forall (λ p, includes p (lit ".codehermit-diff.txt") = false) parts
    ∧ template = join_by (lit ".codehermit-diff.txt") parts
    ∧ parts ≠ [].
Proof.
  assert (∀ n s, (length s < n)%nat →
                 ∃ parts,
                   Forall (λ p, includes p (lit ".codehermit-diff.txt") = false) parts
                   ∧ s = join_by (lit ".codehermit-diff.txt") parts ∧ parts ≠ [])
    as Hall; [|apply (Hall (S (length template))); lia].
  induction n as [|n IH]; intros s Hlen; [lia|].
  destruct (includes s (lit ".codehermit-diff.txt")) eqn:Hs.
  - apply first_marker in Hs as (pre & post & -> & Hpre).
    destruct (IH post) as ([|q parts] & Hparts & -> & Hne); [|done|].
    { rewrite !length_app in Hlen. cbn in Hlen. lia. }
    exists (pre :: q :: parts). split_and!; [by constructor| |done].
    by rewrite join_by_cons.
  - exists [s]. split_and!; [by constructor| |done].
    cbn [join_by fmap list_fmap concat]. by rewrite app_nil_r.
Qed.

(** X24.  The prompt that [runReview] sends is
    [template.split('.codehermit-diff.txt').join(diffFileName)], provided the
    name of the diff file holds no dollar sign: every template is a sequence
    of texts without the marker joined by the marker, and for each such
    sequence the prompt is the same texts, each as it is, joined by the name
    of the diff file. *)
Theorem prompt_names_the_diff (diffFileName : jsstring) :
  Forall (λ c, c ≠ 36%N) diffFileName →
  (∀ parts,
     Forall (λ p, includes p (lit ".codehermit-diff.txt") = false) parts →
     runReview_prompt (join_by (lit ".codehermit-diff.txt") parts) diffFileName
     = join_by diffFileName parts)
  ∧ (∀ template,
       ∃ parts,
         Forall (λ p, includes p (lit ".codehermit-diff.txt") = false) parts
         ∧ template = join_by (lit ".codehermit-diff.txt") parts).
Proof.
  intros Hname. split.
  - intros parts Hparts. by apply prompt_joined.
  - intros template.
    destruct (template_parts template) as (parts & ? & ? & _). by exists parts.
Qed.

(** X25.  A name with a dollar sign is not inserted as it is: [$&] in it
    stands for the text being replaced, so the prompt then names
    [.codehermit-diff.txt] where the name of the diff file should be. *)
Theorem prompt_dollar_pattern (pre a b : jsstring) :
  Forall (λ c, c ≠ 46%N) pre →
  Forall (λ c, c ≠ 36%N) a → Forall (λ c, c ≠ 36%N) b →
  runReview_prompt (pre ++ lit ".codehermit-diff.txt") (a ++ lit "$&" ++ b)
  = pre ++ a ++ lit ".codehermit-diff.txt" ++ b.
Proof.
  intros Hpre Ha Hb. unfold runReview_prompt, replaceAll.
  change (lit ".codehermit-diff.txt") with (46%N :: lit "codehermit-diff.txt").
  rewrite <- (app_nil_r (46%N :: _)) at 2.
  rewrite replace_from_plain, replace_from_match by done.
  cbn [replace_from]. rewrite app_nil_r. f_equal.
  rewrite substitute_plain_app by done. f_equal.
  change (lit "$&" ++ b) with (36%N :: 38%N :: b).
  cbn [substitute]. by rewrite N.eqb_refl, substitute_plain.
Qed.

End PromptFacts.

Lemma prompt_names_the_diff_witness :
  Launch.runReview_prompt
    (lit "Read .codehermit-diff.txt (see README.md). Then review .codehermit-diff.txt.")
    (lit ".182370.codehermit-diff.txt")
  = lit "Read .182370.codehermit-diff.txt (see README.md). Then review .182370.codehermit-diff.txt.".
Proof.
  exact (proj1 (prompt_names_the_diff (lit ".182370.codehermit-diff.txt")
                  ltac:(eapply bool_decide_unpack; vm_compute; exact I))
           [lit "Read "; lit " (see README.md). Then review "; lit "."]
           ltac:(repeat constructor)).
Defined.

Lemma prompt_dollar_pattern_witness :
  Launch.runReview_prompt (lit "read " ++ lit ".codehermit-diff.txt")
    (lit ".main_fix" ++ lit "$&" ++ lit "x.codehermit-diff.txt")
  = lit "read " ++ lit ".main_fix" ++ lit ".codehermit-diff.txt"
    ++ lit "x.codehermit-diff.txt".
Proof.
  apply (prompt_dollar_pattern (lit "read ") (lit ".main_fix")
           (lit "x.codehermit-diff.txt"));
    (eapply bool_decide_unpack; vm_compute; exact I).
Defined.
Section AgentFacts.
Import Launch.
Context (toLowerCase : jsstring → jsstring).
Context (P : Platform).

(** X26.  An [AGENT_PATH] assigned in [.env] is the agent that is started:
    when the last line of the file that is neither blank nor a comment
    assigns it a value that is not empty once quotes and white space are
    removed, the command is that value, as written, or PowerShell with that
    value after [-File] when its lower-case form ends in [.ps1]. *)
Theorem env_file_selects_agent (content line value : jsstring)
    (before after : list jsstring) :
  split 10 content = before ++ line :: after →
  Forall (λ l, trim l = [] ∨ startsWith (trim l) (lit "#") = true) after →
  trim line = lit "AGENT_PATH=" ++ value →
  existsb isLineTerminator value = false →
  trim (stripQuotes value) ≠ [] →
  getAgentSpawnOptions toLowerCase
    (Demo.with_env (loadEnv_content content (env P)) P)
  = if endsWith (toLowerCase (trim (stripQuotes value))) (lit ".ps1") then
      (lit "powershell",
       [lit "-NoProfile"; lit "-ExecutionPolicy"; lit "Bypass"; lit "-File";
        trim (stripQuotes value)])
    else (trim (stripQuotes value), []).
Proof.
  intros Hsplit Hafter Hline Hvalue Hpath.
  pose proof (last_assignment content line (lit "AGENT_PATH") value before after
                (env P) Hsplit Hafter Hline eq_refl Hvalue) as Hset.
  change (to_key (lit "AGENT_PATH")) with "AGENT_PATH"%string in Hset.
  unfold getAgentSpawnOptions. cbn [env Demo.with_env]. rewrite Hset.
  destruct (trim (stripQuotes value)) as [|c path] eqn:Hp; [done|].
  reflexivity.
Qed.

End AgentFacts.

Lemma env_file_selects_agent_witness :
  Launch.getAgentSpawnOptions DemoFiles.lowerAscii
    (Demo.with_env
       (Launch.loadEnv_content
          (lit "# tools" ++ [10%N] ++ lit "AGENT_PATH='C:\Tools\Agent.PS1'" ++ [10%N])
          (env Demo.home))
       Demo.home)
  = (lit "powershell",
     [lit "-NoProfile"; lit "-ExecutionPolicy"; lit "Bypass"; lit "-File";
      lit "C:\Tools\Agent.PS1"]).
Proof.
  apply (env_file_selects_agent DemoFiles.lowerAscii Demo.home
           (lit "# tools" ++ [10%N] ++ lit "AGENT_PATH='C:\Tools\Agent.PS1'" ++ [10%N])
           (lit "AGENT_PATH='C:\Tools\Agent.PS1'") (lit "'C:\Tools\Agent.PS1'")
           [lit "# tools"] [[]]).
  - reflexivity.
  - apply Forall_cons. split; [by left|]. apply Forall_nil_2.
  - reflexivity.
  - reflexivity.
  - by vm_compute.
Defined.
(** ** get-diff.ts: fetching, writing the diff, the script *)

Section GetDiffFacts.
Import Disk GetDiffFiles.
Context (P : Platform).
Context (path_dirname : jsstring → jsstring).
Context (mkdirSync : jsstring → completion unit).
Context (writeFileSync : jsstring → jsstring → completion unit).

Local Abbreviation getDiff := (GetDiffFiles.getDiff P path_dirname mkdirSync writeFileSync).
Local Abbreviation mainFromArgv :=
  (GetDiffFiles.mainFromArgv P path_dirname mkdirSync writeFileSync).
Local Abbreviation script := (GetDiffFiles.script P path_dirname mkdirSync writeFileSync).

Lemma fetchBranch_run (repoRoot branch : jsstring) (st : state) :
  ∃ warnings,
    Forall (λ l, l.1 = Stderr) warnings
    ∧ fetchBranch P repoRoot branch st
      = (Ret (), {| printed := printed st ++ warnings;
                    operations := operations st |}).
Proof.
  unfold fetchBranch. destruct (execSync P _ repoRoot).
  - exists []. split; [done|]. rewrite app_nil_r. by destruct st.
  - eexists [_]. split; [|reflexivity]. by repeat constructor.
Qed.

(** The four ways [getDiff] can end, after the two fetches. *)
Lemma getDiff_outcome (repoRoot baseBranch headBranch : jsstring)
    (diffFileName writePath : option jsstring) (st : state) :
  let diffPath :=
    default (path_join P [repoRoot; default GetDiff.DIFF_FILE_BASE diffFileName])
      writePath in
  ∃ warnings,
    Forall (λ l, l.1 = Stderr) warnings
    ∧ getDiff repoRoot baseBranch headBranch diffFileName writePath st
      = match GetDiff.getDiffContent P repoRoot baseBranch headBranch with
        | Throw e =>
            (Raise e, {| printed := printed st ++ warnings;
                         operations := operations st |})
        | Normal diff =>
            match mkdirSync (path_dirname diffPath) with
            | Throw e =>
                (Raise e,
                 {| printed := printed st ++ warnings;
                    operations := operations st
                                  ++ [MkdirP (path_dirname diffPath)] |})
            | Normal _ =>
                match writeFileSync diffPath diff with
                | Throw e =>
                    (Raise e,
                     {| printed := printed st ++ warnings;
                        operations := operations st
                                      ++ [MkdirP (path_dirname diffPath);
                                          Write diffPath diff] |})
                | Normal _ =>
                    (Ret {| GetDiffResult.diffPath := diffPath;
                            GetDiffResult.repoRoot := repoRoot;
                            GetDiffResult.baseBranch := baseBranch;
                            GetDiffResult.headBranch := headBranch;
                            GetDiffResult.diffLength := len diff;
                            GetDiffResult.diffContent := diff |},
                     {| printed :=
                          printed st ++ warnings
                          ++ [(Stdout, lit "Diff written to " ++ diffPath
                                       ++ lit " (" ++ of_Z (len diff)
                                       ++ lit " chars)")];
                        operations :=
                          operations st
                          ++ [MkdirP (path_dirname diffPath);
                              Write diffPath diff] |})
                end
            end
        end.
Proof.
  cbn zeta. unfold GetDiffFiles.getDiff.
  destruct (fetchBranch_run repoRoot baseBranch st) as (w1 & Hw1 & Hf1).
  set (st1 := {| printed := printed st ++ w1; operations := operations st |}) in Hf1.
  destruct (fetchBranch_run repoRoot headBranch st1) as (w2 & Hw2 & Hf2).
  exists (w1 ++ w2). split; [by apply Forall_app|].
  unfold mbind at 1, D_bind at 1. rewrite Hf1.
  unfold mbind at 1, D_bind at 1. rewrite Hf2.
  cbn [printed operations st1]. rewrite <- !app_assoc.
  destruct (GetDiff.getDiffContent P repoRoot baseBranch headBranch) as [diff|e];
    [|done].
  unfold mbind at 1, D_bind at 1. cbn [call mret D_ret].
  unfold mbind at 1, D_bind at 1, did at 1. cbn [printed operations].
  unfold mbind at 1, D_bind at 1.
  destruct (mkdirSync _) as [[]|e]; cbn [call mret D_ret throw]; [|done].
  unfold mbind at 1, D_bind at 1, did at 1. cbn [printed operations].
  unfold mbind at 1, D_bind at 1.
  destruct (writeFileSync _ diff) as [[]|e]; cbn [call mret D_ret throw];
    [|by rewrite <- !app_assoc].
  unfold mbind, D_bind, say. cbn [printed operations mret D_ret].
  by rewrite <- !app_assoc.
Qed.

(** X27.  A fetch that fails is only warned about: whenever the diff can be
    taken and the file written, [getDiff] creates the directory of the diff
    file and then writes exactly the text of the diff to it ([writePath] when
    given, else the file name under the repository root), reports it on
    standard output, and returns that text with its length; all it prints
    before that goes to standard error. *)
Theorem getDiff_writes_the_diff (repoRoot baseBranch headBranch diff : jsstring)
    (diffFileName writePath : option jsstring) (st : state) :
  let diffPath :=
    default (path_join P [repoRoot; default GetDiff.DIFF_FILE_BASE diffFileName])
      writePath in
  GetDiff.getDiffContent P repoRoot baseBranch headBranch = Normal diff →
  mkdirSync (path_dirname diffPath) = Normal () →
  writeFileSync diffPath diff = Normal () →
  ∃ warnings result st',
    getDiff repoRoot baseBranch headBranch diffFileName writePath st
    = (Ret result, st')
    ∧ GetDiffResult.diffPath result = diffPath
    ∧ GetDiffResult.diffContent result = diff
    ∧ GetDiffResult.diffLength result = len diff
    ∧ operations st'
      = operations st ++ [MkdirP (path_dirname diffPath); Write diffPath diff]
    ∧ printed st'
      = printed st ++ warnings
        ++ [(Stdout, lit "Diff written to " ++ diffPath ++ lit " ("
                     ++ of_Z (len diff) ++ lit " chars)")]
    ∧ Forall (λ l, l.1 = Stderr) warnings.
Proof.
  cbn zeta. intros Hdiff Hmkdir Hwrite.
  destruct (getDiff_outcome repoRoot baseBranch headBranch diffFileName writePath st)
    as (warnings & Hw & Hrun).
  rewrite Hdiff, Hmkdir, Hwrite in Hrun.
  eexists warnings, _, _. split; [exact Hrun|]. by split_and!.
Qed.

(** X28.  [getDiff] calls the file system in a fixed order and stops at the
    first step that fails: nothing is called unless the diff could be taken;
    [writeFileSync] is called, with the whole diff, only after [mkdirSync]
    has returned; a result is returned only after [writeFileSync] has
    returned; and the exception that comes out is the one of the step that
    failed.  [getDiff] never ends the process itself.  (What a call that
    throws has left on the disk is not part of this statement.) *)
Theorem getDiff_calls_in_order (repoRoot baseBranch headBranch : jsstring)
    (diffFileName writePath : option jsstring) (st st' : state)
    (o : outcome GetDiffResult.t) :
  let diffPath :=
    default (path_join P [repoRoot; default GetDiff.DIFF_FILE_BASE diffFileName])
      writePath in
  getDiff repoRoot baseBranch headBranch diffFileName writePath st = (o, st') →
  match o with
  | Ret result =>
      GetDiff.getDiffContent P repoRoot baseBranch headBranch
      = Normal (GetDiffResult.diffContent result)
      ∧ GetDiffResult.diffPath result = diffPath
      ∧ mkdirSync (path_dirname diffPath) = Normal ()
      ∧ writeFileSync diffPath (GetDiffResult.diffContent result) = Normal ()
      ∧ operations st'
        = operations st
          ++ [MkdirP (path_dirname diffPath);
              Write diffPath (GetDiffResult.diffContent result)]
  | Raise e =>
      (GetDiff.getDiffContent P repoRoot baseBranch headBranch = Throw e
       ∧ operations st' = operations st)
      ∨ (∃ diff,
           GetDiff.getDiffContent P repoRoot baseBranch headBranch = Normal diff
           ∧ mkdirSync (path_dirname diffPath) = Throw e
           ∧ operations st' = operations st ++ [MkdirP (path_dirname diffPath)])
      ∨ (∃ diff,
           GetDiff.getDiffContent P repoRoot baseBranch headBranch = Normal diff
           ∧ mkdirSync (path_dirname diffPath) = Normal ()
           ∧ writeFileSync diffPath diff = Throw e
           ∧ operations st'
             = operations st
               ++ [MkdirP (path_dirname diffPath); Write diffPath diff])
  | Exit _ => False
  end.
Proof.
  cbn zeta.
  destruct (getDiff_outcome repoRoot baseBranch headBranch diffFileName writePath st)
    as (warnings & _ & ->).
  destruct (GetDiff.getDiffContent P repoRoot baseBranch headBranch) as [diff|e].
  2:{ intros [= <- <-]. by left. }
  destruct (mkdirSync _) as [[]|e] eqn:Hmkdir.
  2:{ intros [= <- <-]. right. left. by exists diff. }
  destruct (writeFileSync _ diff) as [[]|e] eqn:Hwrite; intros [= <- <-].
  - by split_and!.
  - right. right. by exists diff.
Qed.

Lemma mainFromArgv_outcome (args : list jsstring) (st st' : state)
    (o : outcome GetDiffResult.t) :
  mainFromArgv args st = (o, st') →
  match o with
  | Ret result =>
      GetDiffResult.baseBranch result
      = (if truthy (args !! 0%nat) then render (args !! 0%nat) else lit "main")
      ∧ GetDiffResult.headBranch result ≠ []
      ∧ (truthy (args !! 1%nat) = true →
         GetDiffResult.headBranch result = render (args !! 1%nat))
  | Exit code => code = 1
  | Raise _ => True
  end.
Proof.
  unfold GetDiffFiles.mainFromArgv.
  set (headBranch := if negb (truthy (args !! 1%nat)) then _ else _).
  assert (truthy (args !! 1%nat) = true → headBranch = args !! 1%nat) as Hgiven.
  { intros Hh. unfold headBranch. by rewrite Hh. }
  unfold mbind at 1, D_bind at 1.
  destruct (truthy headBranch) eqn:Hhead; cbn [negb].
  2:{ intros [= <- <-]. done. }
  cbn [mret D_ret]. unfold mbind at 1, D_bind at 1.
  destruct (GetDiff.getRepoRoot P) as [repoRoot|e]; cbn [call mret D_ret throw].
  2:{ by intros [= <- <-]. }
  intros Hrun.
  destruct (getDiff_outcome repoRoot
              (render (or_else (args !! 0%nat) (Some DEFAULT_BASE)))
              (render headBranch) None None st) as (warnings & _ & Hout).
  rewrite Hrun in Hout.
  destruct (GetDiff.getDiffContent P repoRoot _ _) as [diff|e].
  2:{ by injection Hout as -> _. }
  destruct (mkdirSync _) as [[]|e].
  2:{ by injection Hout as -> _. }
  destruct (writeFileSync _ diff) as [[]|e].
  2:{ by injection Hout as -> _. }
  injection Hout as -> _. cbn [GetDiffResult.baseBranch GetDiffResult.headBranch].
  split_and!.
  - unfold or_else. by destruct (truthy (args !! 0%nat)).
  - by destruct headBranch as [[|]|].
  - intros Hh. by rewrite Hgiven.
Qed.

(** X29.  Run as a script, [get-diff] never ends with an exception: it
    either returns the result or exits with code 1.  A result has the first
    argument as its base branch ([main] when that is missing or empty), a
    head branch that is not empty, and the second argument as its head
    branch when one was given. *)
Theorem script_ends_cleanly (args : list jsstring) (st st' : state)
    (o : outcome GetDiffResult.t) :
  script args st = (o, st') →
  match o with
  | Ret result =>
      GetDiffResult.baseBranch result
      = (if truthy (args !! 0%nat) then render (args !! 0%nat) else lit "main")
      ∧ GetDiffResult.headBranch result ≠ []
      ∧ (truthy (args !! 1%nat) = true →
         GetDiffResult.headBranch result = render (args !! 1%nat))
  | Exit code => code = 1
  | Raise _ => False
  end.
Proof.
  unfold GetDiffFiles.script.
  destruct (mainFromArgv args st) as [[result|code|e] st1] eqn:Hmain.
  - intros [= <- <-]. by apply mainFromArgv_outcome in Hmain.
  - intros [= <- <-]. by apply mainFromArgv_outcome in Hmain.
  - by intros [= <- <-].
Qed.

End GetDiffFacts.

Lemma getDiff_writes_the_diff_witness :
  ∃ warnings result st',
    GetDiffFiles.getDiff (Demo.platform (lit "/home/dev/repos/Shop.Web") [])
      DemoFiles.dirname DemoFiles.mkdir DemoFiles.write
      (lit "/home/dev/repos/Shop.Web") (lit "main") (lit "huge") None
      (Some (lit "/home/dev/Reviews/Shop.Web/.main_huge.codehermit-diff.txt"))
      Disk.start
    = (Ret result, st')
    ∧ GetDiffResult.diffPath result
      = lit "/home/dev/Reviews/Shop.Web/.main_huge.codehermit-diff.txt"
    ∧ GetDiffResult.diffContent result
      = lit "diff --git a/big.bin b/big.bin" ++ [10%N]
    ∧ GetDiffResult.diffLength result = 31
    ∧ Disk.operations st'
      = [Disk.MkdirP (lit "/home/dev/Reviews/Shop.Web");
         Disk.Write (lit "/home/dev/Reviews/Shop.Web/.main_huge.codehermit-diff.txt")
           (lit "diff --git a/big.bin b/big.bin" ++ [10%N])]
    ∧ Disk.printed st'
      = warnings
        ++ [(Stdout, lit "Diff written to /home/dev/Reviews/Shop.Web/.main_huge.codehermit-diff.txt (31 chars)")]
    ∧ Forall (λ l, l.1 = Stderr) warnings.
Proof.
  apply (getDiff_writes_the_diff
           (Demo.platform (lit "/home/dev/repos/Shop.Web") [])
           DemoFiles.dirname DemoFiles.mkdir DemoFiles.write
           (lit "/home/dev/repos/Shop.Web") (lit "main") (lit "huge")
           (lit "diff --git a/big.bin b/big.bin" ++ [10%N]) None
           (Some (lit "/home/dev/Reviews/Shop.Web/.main_huge.codehermit-diff.txt"))
           Disk.start); reflexivity.
Defined.

Lemma getDiff_calls_in_order_witness :
  ∃ st',
    GetDiffFiles.getDiff (Demo.platform (lit "/home/dev/repos/Shop.Web") [])
      DemoFiles.dirname (λ _, Normal ()) DemoFiles.write
      (lit "/home/dev/repos/Shop.Web") (lit "main") (lit "feature/z") None
      (Some (lit "/readonly/out/.codehermit-diff.txt")) Disk.start
    = (Raise (lit "EACCES: permission denied, open"), st')
    ∧ Disk.operations st'
      = [Disk.MkdirP (lit "/readonly/out");
         Disk.Write (lit "/readonly/out/.codehermit-diff.txt")
           (lit "diff --git a/README.md b/README.md" ++ [10%N])].
Proof.
  eexists. split; [by vm_compute|].
  destruct (getDiff_calls_in_order
              (Demo.platform (lit "/home/dev/repos/Shop.Web") [])
              DemoFiles.dirname (λ _, Normal ()) DemoFiles.write
              (lit "/home/dev/repos/Shop.Web") (lit "main") (lit "feature/z") None
              (Some (lit "/readonly/out/.codehermit-diff.txt")) Disk.start
              _ (Raise (lit "EACCES: permission denied, open"))
              ltac:(vm_compute; reflexivity))
    as [[Hdiff _] | [(diff & _ & Hmkdir & _) | (diff & Hdiff & _ & _ & Hops)]].
  - vm_compute in Hdiff. discriminate.
  - discriminate.
  - etransitivity; [exact Hops|].
    vm_compute in Hdiff. injection Hdiff as <-. by vm_compute.
Defined.

Lemma script_ends_cleanly_witness :
  ∃ result st',
    GetDiffFiles.script (Demo.platform (lit "/home/dev/repos/Shop.Web") [])
      DemoFiles.dirname DemoFiles.mkdir DemoFiles.write
      [lit ""; lit "feature/z"] Disk.start
    = (Ret result, st')
    ∧ GetDiffResult.baseBranch result = lit "main"
    ∧ GetDiffResult.headBranch result ≠ []
    ∧ (truthy (Some (lit "feature/z")) = true →
       GetDiffResult.headBranch result = lit "feature/z").
Proof.
  eexists _, _. split; [by vm_compute|].
  eapply (script_ends_cleanly (Demo.platform (lit "/home/dev/repos/Shop.Web") [])
            DemoFiles.dirname DemoFiles.mkdir DemoFiles.write
            [lit ""; lit "feature/z"] Disk.start _ (Ret _)).
  by vm_compute.
Defined.
Section EnvFileAndAzure.
Import Launch.
Context (P : Platform).

(** X30.  A blank [AZURE_PAT=] in [.env] hides a token the process was
    started with: when the last line of the file that is neither blank nor a
    comment assigns [AZURE_PAT] a value that is empty once quotes and white
    space are removed, and [AZURE_DEVOPS_PAT] is empty or unset after
    loading, Azure counts as not configured. *)
Theorem blank_pat_disables_azure (content line value : jsstring)
    (before after : list jsstring) :
  split 10 content = before ++ line :: after →
  Forall (λ l, trim l = [] ∨ startsWith (trim l) (lit "#") = true) after →
  trim line = lit "AZURE_PAT=" ++ value →
  existsb isLineTerminator value = false →
  trim (stripQuotes value) = [] →
  truthy (loadEnv_content content (env P) !! "AZURE_DEVOPS_PAT"%string) = false →
  Azure.isAzureConfigured (Demo.with_env (loadEnv_content content (env P)) P)
  = false.
Proof.
  intros Hsplit Hafter Hline Hvalue Hblank Hother.
  pose proof (last_assignment content line (lit "AZURE_PAT") value before after
                (env P) Hsplit Hafter Hline eq_refl Hvalue) as Hset.
  change (to_key (lit "AZURE_PAT")) with "AZURE_PAT"%string in Hset.
  rewrite Hblank in Hset.
  unfold Azure.isAzureConfigured, Azure.getAzureConfig, Azure.getenv.
  cbn [env Demo.with_env AzureConfig.pat AzureConfig.orgUrl AzureConfig.project].
  rewrite Hset. unfold or_else at 3. cbn [truthy]. rewrite Hother.
  apply andb_false_r.
Qed.

End EnvFileAndAzure.

Lemma blank_pat_disables_azure_witness :
  Azure.isAzureConfigured Demo.home = true
  ∧ Azure.isAzureConfigured
      (Demo.with_env
         (Launch.loadEnv_content (lit "AZURE_PAT=''" ++ [10%N]) (env Demo.home))
         Demo.home)
    = false.
Proof.
  split; [reflexivity|].
  apply (blank_pat_disables_azure Demo.home (lit "AZURE_PAT=''" ++ [10%N])
           (lit "AZURE_PAT=''") (lit "''") [] [[]]).
  - reflexivity.
  - apply Forall_cons. split; [by left|]. apply Forall_nil_2.
  - reflexivity.
  - reflexivity.
  - reflexivity.
  - reflexivity.
Defined.
